(** * side-quest-backend: the request handlers of [server.js]

    A shallow embedding of the Express handlers of [server.js] and of the
    two helpers [uploadImage] and [urlToStoragePath], together with the
    properties of the card service that the specification states.

    Conventions.
    - A JavaScript string is a [string]; each character stands for one code
      unit in the range 0..255 (Basic Latin and Latin-1).
    - A JavaScript value that reaches a handler through [req.body] is a
      [JS.value].
    - The hosted services (Supabase database and storage, the Groq endpoint)
      are modelled by an explicit [World]: a table of rows, a bucket of
      object names, a clock, and a script that fixes the outcome of the
      coming remote calls.  Every remote call is logged as an [Event]. *)

From Stdlib Require Import ZArith List String Ascii Bool Lia.
From Stdlib Require Import Permutation Sorted DecimalString.
Import ListNotations.

Local Open Scope string_scope.
Local Open Scope list_scope.
Local Open Scope Z_scope.

(* ------------------------------------------------------------------ *)
(** ** JavaScript built-ins used by the handlers *)

Module JS.

(** Values found in a parsed request body.  [Num] carries the integral
    numbers; the handlers only ever test a number for truthiness.  [Obj]
    stands for any array or object. *)
Inductive value : Type :=
| Undefined
| Null
| Bool (b : bool)
| Num (n : Z)
| Str (s : string)
| Obj.

(** [ToBoolean]: the test performed by [!v], [v || w] and [if (v)]. *)
Definition truthy (v : value) : bool :=
  match v with
  | Undefined | Null => false
  | Bool b => b
  | Num n => negb (n =? 0)
  | Str s => negb (s =? "")%string
  | Obj => true
  end.

(** [a || b] *)
Definition or (a b : value) : value := if truthy a then a else b.

(** White space and line terminators removed by [String.prototype.trim],
    within the code units 0..255: TAB, LF, VT, FF, CR, SPACE, NBSP. *)
Definition is_whitespace (c : ascii) : bool :=
  let n := nat_of_ascii c in
  (((9 <=? n) && (n <=? 13)) || (n =? 32) || (n =? 160))%nat.

Fixpoint trimStart (s : string) : string :=
  match s with
  | EmptyString => EmptyString
  | String c s' => if is_whitespace c then trimStart s' else s
  end.

Fixpoint trimEnd (s : string) : string :=
  match s with
  | EmptyString => EmptyString
  | String c s' =>
      match trimEnd s' with
      | EmptyString => if is_whitespace c then EmptyString else String c EmptyString
      | t => String c t
      end
  end.

(** [s.trim()] *)
Definition trim (s : string) : string := trimEnd (trimStart s).

(** Lower-case mapping of one code unit in 0..255: A-Z and the Latin-1
    capitals U+00C0..U+00DE (the multiplication sign U+00D7 apart). *)
Definition lower_char (c : ascii) : ascii :=
  let n := nat_of_ascii c in
  if (((65 <=? n) && (n <=? 90))
      || ((192 <=? n) && (n <=? 222) && negb (n =? 215)))%nat
  then ascii_of_nat (n + 32) else c.

(** [s.toLowerCase()] *)
Fixpoint toLowerCase (s : string) : string :=
  match s with
  | EmptyString => EmptyString
  | String c s' => String (lower_char c) (toLowerCase s')
  end.

(** First position, counted from [i], at which [pat] starts in [s]. *)
Fixpoint search (pat s : string) (i : nat) : option nat :=
  if prefix pat s then Some i
  else match s with
       | EmptyString => None
       | String _ s' => search pat s' (S i)
       end.

(** [s.indexOf(pat)]: the first index, or -1. *)
Definition indexOf (s pat : string) : Z :=
  match search pat s 0 with
  | Some i => Z.of_nat i
  | None => -1
  end.

(** [s.includes(pat)] *)
Definition includes (s pat : string) : bool := negb (indexOf s pat =? -1).

Fixpoint drop (n : nat) (s : string) : string :=
  match n, s with
  | O, _ => s
  | S _, EmptyString => EmptyString
  | S n', String _ s' => drop n' s'
  end.

(** [s.substring(start)]: a negative [start] counts as 0, one beyond the
    end as the length. *)
Definition substring (s : string) (start : Z) : string :=
  drop (Z.to_nat (Z.max 0 start)) s.

(** [arr.includes(x)] on an array of strings. *)
Definition arr_includes (arr : list string) (x : string) : bool :=
  existsb (String.eqb x) arr.

(** Decimal rendering of a non-negative integer, as in a template
    literal. *)
Definition of_N (n : N) : string := NilZero.string_of_uint (N.to_uint n).

(** [`${v}`] *)
Definition to_string (v : value) : string :=
  match v with
  | Undefined => "undefined"
  | Null => "null"
  | Bool true => "true"
  | Bool false => "false"
  | Num n => NilZero.string_of_int (Z.to_int n)
  | Str s => s
  | Obj => "[object Object]"
  end.

End JS.

(* ------------------------------------------------------------------ *)
(** ** Helpers of [server.js] *)

Definition bucket_name : string := "side-quest-images".

(** [const marker = '/side-quest-images/'] *)
Definition marker : string := "/side-quest-images/".

(** The marker less its closing slash. *)
Definition marker_stem : string := "/side-quest-images".

(** The path under which the storage service serves public objects. *)
Definition public_dir : string := "/storage/v1/object/public".

(** [function urlToStoragePath(url)] *)
Definition urlToStoragePath (url : string) : string :=
  let idx := JS.indexOf url marker in
  if negb (idx =? -1)
  then JS.substring url (idx + Z.of_nat (String.length marker))
  else url.

(** [supabase.storage.from('side-quest-images').getPublicUrl(filename)]:
    the URL-construction step of [uploadImage].  Public URLs look like
    [<project url>/storage/v1/object/public/side-quest-images/<filename>],
    as the comment in [urlToStoragePath] records.  This is the URL the
    storage client returns for a name that needs no escaping, such as the
    names [uploadImage] makes; [storage_getPublicUrl] below is the
    construction for an arbitrary name. *)
Definition getPublicUrl (supabase_url filename : string) : string :=
  (supabase_url ++ "/storage/v1/object/public/" ++ bucket_name ++ "/" ++ filename)%string.

(* ------------------------------------------------------------------ *)
(** ** Data model *)

(** The object literal handed to [.insert([...])] by [POST /cards]. *)
Module Draft.
Record t : Type := mk {
  business_name : JS.value;
  employee_name : JS.value;
  webpage_url : JS.value;
  description : JS.value;
  cover_image_url : option string;
  product_image_urls : list string
}.
End Draft.

(** A row of the [cards] table.  The two image columns are nullable; [id],
    [created_at] and [expires_at] are set by the database.  Times are
    milliseconds since the epoch. *)
Module Card.
Record t : Type := mk {
  id : string;
  business_name : JS.value;
  employee_name : JS.value;
  webpage_url : JS.value;
  description : JS.value;
  cover_image_url : option string;
  product_image_urls : option (list string);
  created_at : Z;
  expires_at : Z
}.
End Card.

(** An uploaded file as multer presents it: [file.fieldname],
    [file.mimetype], and the length of [file.buffer] in bytes. *)
Record File : Type := {
  fieldname : string;
  mimetype : string;
  size : N
}.

(** Remote calls, in the order in which a handler issues them. *)
Inductive Event : Type :=
| EvUpload (filename : string) (contentType : string)
| EvRemove (paths : list string)
| EvInsert (d : Draft.t)
| EvDeleteRow (id : string)
| EvSelectActive (now : Z)
| EvSelectExpired (now : Z)
| EvSelectSingle (id : string)
| EvFetch (authorization : string) (prompt : string).

(** What a remote call does: it answers normally, it answers with an
    [error] value, or the awaited promise rejects. *)
Inductive Outcome : Type :=
| Normal
| Fails (message : string)
| Throws (message : string).

(** The reply of the text-generation endpoint: [fetch] rejects, or a
    response arrives with its [ok] flag, its status, and
    [data.choices[0].message.content] ([None] when the body is not JSON or
    that path does not exist). *)
Inductive Upstream : Type :=
| NetworkError
| Reply (ok : bool) (status : N) (content : option JS.value).

Record World : Type := mkWorld {
  table : list Card.t;        (* rows of [cards] *)
  bucket : list string;       (* object names in [side-quest-images] *)
  now : Z;                    (* [Date.now()] *)
  ttl : Z;                    (* column default: [expires_at - created_at] *)
  next_id : N;                (* next generated [id] *)
  random : list string;       (* coming [Math.random().toString(36).substring(2, 9)] *)
  script : list Outcome;      (* outcomes of the coming remote calls *)
  upstream : Upstream;        (* what the text-generation endpoint answers *)
  log : list Event            (* remote calls issued so far, oldest first *)
}.

(** [process.env] *)
Record Env : Type := {
  SUPABASE_URL : string;
  GROQ_API_KEY : option string
}.

(** The [{ data, error }] pair every Supabase call resolves to. *)
Record Response (A : Type) : Type := mkResponse {
  data : option A;
  error : option string
}.
Arguments mkResponse {A} _ _.
Arguments data {A} _.
Arguments error {A} _.

(** Bodies passed to [res.json]. *)
Inductive Body : Type :=
| ErrorBody (error : string)                (* [{ error }] *)
| CardsBody (cards : list Card.t)
| CardBody (card : Card.t)
| NullBody
| SuccessBody                               (* [{ success: true }] *)
| DeletedBody (deleted : nat)               (* [{ success: true, deleted }] *)
| PolishedBody (polished : string)          (* [{ polished }] *)
| UnhandledError (message : string).        (* Express's own error page *)

Record HttpResponse : Type := {
  status : Z;
  body : Body
}.

(* ------------------------------------------------------------------ *)
(** ** Handlers run in a state-and-exception monad over the world *)

Inductive Result (A : Type) : Type :=
| Ok (a : A)
| Thrown (message : string).
Arguments Ok {A} _.
Arguments Thrown {A} _.

Definition M (A : Type) : Type := World -> Result A * World.

Definition ret {A} (a : A) : M A := fun w => (Ok a, w).

Definition throw {A} (message : string) : M A := fun w => (Thrown message, w).

Definition bind {A B} (m : M A) (k : A -> M B) : M B :=
  fun w => match m w with
           | (Ok a, w') => k a w'
           | (Thrown e, w') => (Thrown e, w')
           end.

Notation "x <- m ;; k" := (bind m (fun x => k))
  (at level 61, m at next level, right associativity).
Notation "m ;;; k" := (bind m (fun _ => k))
  (at level 61, right associativity).

(** [try { ... } catch (err) { handle(err) }] around a whole handler. *)
Definition try_catch (m : M HttpResponse) (handle : string -> HttpResponse)
  : World -> HttpResponse * World :=
  fun w => match m w with
           | (Ok r, w') => (r, w')
           | (Thrown e, w') => (handle e, w')
           end.

Definition get {A} (f : World -> A) : M A := fun w => (Ok (f w), w).

(** The world once the call [e] has been issued. *)
Definition logged (e : Event) (w : World) : World :=
  mkWorld (table w) (bucket w) (now w) (ttl w) (next_id w)
          (random w) (script w) (upstream w) (log w ++ [e]).

(** The world once the outcome of the current call has been drawn. *)
Definition popped (w : World) : World :=
  mkWorld (table w) (bucket w) (now w) (ttl w) (next_id w)
          (random w) (tl (script w)) (upstream w) (log w).

Definition emit (e : Event) : M unit := fun w => (Ok tt, logged e w).

(** The outcome of the remote call being made; calls beyond the script
    answer normally. *)
Definition next_outcome : M Outcome :=
  fun w => (Ok (hd Normal (script w)), popped w).

Definition next_random : M string :=
  fun w => match random w with
           | [] => (Ok "", w)
           | r :: rest =>
               (Ok r, mkWorld (table w) (bucket w) (now w) (ttl w) (next_id w)
                              rest (script w) (upstream w) (log w))
           end.

Definition with_table (t : list Card.t) (w : World) : World :=
  mkWorld t (bucket w) (now w) (ttl w) (next_id w)
          (random w) (script w) (upstream w) (log w).

Definition with_bucket (b : list string) (w : World) : World :=
  mkWorld (table w) b (now w) (ttl w) (next_id w)
          (random w) (script w) (upstream w) (log w).

Definition with_script (sc : list Outcome) (w : World) : World :=
  mkWorld (table w) (bucket w) (now w) (ttl w) (next_id w)
          (random w) sc (upstream w) (log w).

Definition with_upstream (u : Upstream) (w : World) : World :=
  mkWorld (table w) (bucket w) (now w) (ttl w) (next_id w)
          (random w) (script w) u (log w).

Definition set_table (t : list Card.t) : M unit :=
  fun w => (Ok tt, with_table t w).

Definition set_bucket (b : list string) : M unit :=
  fun w => (Ok tt, with_bucket b w).

Definition fresh_id : M string :=
  fun w => (Ok (JS.of_N (next_id w)),
            mkWorld (table w) (bucket w) (now w) (ttl w) (N.succ (next_id w))
                    (random w) (script w) (upstream w) (log w)).

(** A remote call: it is logged, its outcome is drawn, and [normal] says
    what it does and answers when nothing goes wrong. *)
Definition remote {A} (e : Event) (normal : M (Response A)) : M (Response A) :=
  emit e ;;;
  o <- next_outcome ;;
  match o with
  | Normal => normal
  | Fails m => ret (mkResponse None (Some m))
  | Throws m => throw m
  end.

(* ------------------------------------------------------------------ *)
(** ** The Supabase client, as the handlers use it *)

Definition has_id (id : string) (c : Card.t) : bool := (Card.id c =? id)%string.

(** Insertion into a list ordered by [created_at], newest first. *)
Fixpoint insert_desc (c : Card.t) (l : list Card.t) : list Card.t :=
  match l with
  | [] => [c]
  | d :: l' => if Card.created_at d <=? Card.created_at c
               then c :: l else d :: insert_desc c l'
  end.

(** [.order('created_at', { ascending: false })] *)
Definition order_created_desc (l : list Card.t) : list Card.t :=
  fold_right insert_desc [] l.

(** [from('cards').select('*').gt('expires_at', now).order('created_at',
    { ascending: false })] *)
Definition select_active (t : Z) : M (Response (list Card.t)) :=
  remote (EvSelectActive t)
    (rows <- get table ;;
     ret (mkResponse
            (Some (order_created_desc (filter (fun c => Card.expires_at c >? t) rows)))
            None)).

(** [from('cards').select('*').lt('expires_at', now)] *)
Definition select_expired (t : Z) : M (Response (list Card.t)) :=
  remote (EvSelectExpired t)
    (rows <- get table ;;
     ret (mkResponse (Some (filter (fun c => Card.expires_at c <? t) rows)) None)).

(** [from('cards').select('*').eq('id', id).single()]: the result must be
    exactly one row; with none, or several, the call answers with an error
    and no data. *)
Definition select_single (id : string) : M (Response Card.t) :=
  remote (EvSelectSingle id)
    (rows <- get table ;;
     match filter (has_id id) rows with
     | [c] => ret (mkResponse (Some c) None)
     | _ => ret (mkResponse None
                   (Some "JSON object requested, multiple (or no) rows returned"))
     end).

(** [from('cards').delete().eq('id', id)] *)
Definition delete_row (id : string) : M (Response unit) :=
  remote (EvDeleteRow id)
    (rows <- get table ;;
     set_table (filter (fun c => negb (has_id id c)) rows) ;;;
     ret (mkResponse None None)).

(** [from('cards').insert([draft]).select().single()] *)
Definition insert_card (d : Draft.t) : M (Response Card.t) :=
  remote (EvInsert d)
    (rows <- get table ;;
     t <- get now ;;
     life <- get ttl ;;
     i <- fresh_id ;;
     let c := Card.mk i (Draft.business_name d) (Draft.employee_name d)
                (Draft.webpage_url d) (Draft.description d)
                (Draft.cover_image_url d) (Some (Draft.product_image_urls d))
                t (t + life) in
     set_table (rows ++ [c]) ;;;
     ret (mkResponse (Some c) None)).

(** [storage.from('side-quest-images').upload(filename, buffer,
    { contentType, upsert: false })]: an existing name is not replaced. *)
Definition storage_upload (filename : string) (f : File) : M (Response unit) :=
  remote (EvUpload filename (mimetype f))
    (objs <- get bucket ;;
     if JS.arr_includes objs filename
     then ret (mkResponse None (Some "The resource already exists"))
     else set_bucket (objs ++ [filename]) ;;; ret (mkResponse None None)).

(** [storage.from('side-quest-images').remove(paths)] *)
Definition storage_remove (paths : list string) : M (Response unit) :=
  remote (EvRemove paths)
    (objs <- get bucket ;;
     set_bucket (filter (fun o => negb (JS.arr_includes paths o)) objs) ;;;
     ret (mkResponse None None)).

(* ------------------------------------------------------------------ *)
(** ** The upload middleware *)

(** [const allowed = ['image/jpeg', 'image/jpg', 'image/png']] *)
Definition allowed : list string := ["image/jpeg"; "image/jpg"; "image/png"].

(** [fileFilter]: [None] is [cb(null, true)], [Some m] is
    [cb(new Error(m))]. *)
Definition fileFilter (file : File) : option string :=
  if JS.arr_includes allowed (JS.toLowerCase (mimetype file))
  then None
  else Some "Only JPEG and PNG images are allowed".

(** [limits: { fileSize: 10 * 1024 * 1024 }] *)
Definition fileSize : N := 10 * 1024 * 1024.

(** [upload.fields([{ name: 'coverImage', maxCount: 1 },
                    { name: 'productImages', maxCount: 10 }])] *)
Definition upload_fields : list (string * nat) :=
  [("coverImage", 1%nat); ("productImages", 10%nat)].

Inductive MulterError : Type :=
| LIMIT_UNEXPECTED_FILE (field : string)
| LIMIT_FILE_SIZE (field : string)
| FilterError (message : string).

Definition multer_message (e : MulterError) : string :=
  match e with
  | LIMIT_UNEXPECTED_FILE _ => "Unexpected field"
  | LIMIT_FILE_SIZE _ => "File too large"
  | FilterError m => m
  end.

Fixpoint lookup {A} (k : string) (m : list (string * A)) : option A :=
  match m with
  | [] => None
  | (k', v) :: m' => if (k' =? k)%string then Some v else lookup k m'
  end.

Fixpoint update {A} (k : string) (v : A) (m : list (string * A)) : list (string * A) :=
  match m with
  | [] => [(k, v)]
  | (k', v') :: m' => if (k' =? k)%string then (k, v) :: m' else (k', v') :: update k v m'
  end.

(** multer takes the files of a multipart request in their order of
    arrival.  For each one it checks the count left for the field, then
    calls [fileFilter], then buffers the file, and appends it to
    [req.files[fieldname]].  The first failure aborts the request.
    Buffering fails as soon as the bytes read reach [limits.fileSize]: the
    parser under multer 1.4.5 raises its limit event when the count equals
    the limit, so a file of exactly that size is refused as well.  Only the
    files of the request are modelled; the parser's own limits on text
    fields are not, so a request refused here is refused by the middleware,
    and what the middleware lets through is let through here. *)
Fixpoint multer (filesLeft : list (string * nat)) (files : list (string * list File))
  (incoming : list File) : MulterError + list (string * list File) :=
  match incoming with
  | [] => inr files
  | f :: rest =>
      match lookup (fieldname f) filesLeft with
      | None | Some O => inl (LIMIT_UNEXPECTED_FILE (fieldname f))
      | Some (S n) =>
          match fileFilter f with
          | Some m => inl (FilterError m)
          | None =>
              if (fileSize <=? size f)%N then inl (LIMIT_FILE_SIZE (fieldname f))
              else
                let sofar := match lookup (fieldname f) files with
                             | Some fs => fs
                             | None => []
                             end in
                multer (update (fieldname f) n filesLeft)
                       (update (fieldname f) (sofar ++ [f]) files) rest
          end
      end
  end.

(* ------------------------------------------------------------------ *)
(** ** Requests *)

(** The four fields [POST /cards] reads from [req.body]. *)
Record CardForm : Type := {
  businessName : JS.value;
  employeeName : JS.value;
  webpageUrl : JS.value;
  description : JS.value
}.

(** [POST /cards] as the handler sees it: [req.files] is [undefined] unless
    the request was multipart. *)
Record CardsRequest : Type := {
  req_body : CardForm;
  req_files : option (list (string * list File))
}.

(** [POST /cards] as it arrives: [parts] are the files of a multipart
    request in their order of arrival, [None] when the request is not
    multipart. *)
Record RawCardsRequest : Type := {
  raw_body : CardForm;
  parts : option (list File)
}.

(* ------------------------------------------------------------------ *)
(** ** [server.js] *)

Section Server.

Variable env : Env.

Definition respond (code : Z) (b : Body) : HttpResponse :=
  {| status := code; body := b |}.

(** An [error] value is thrown when present: [if (error) throw error]. *)
Definition throw_if_error {A} (r : Response A) : M unit :=
  match error r with
  | Some e => throw e
  | None => ret tt
  end.

(** [async function uploadImage(file)] *)
Definition uploadImage (file : File) : M string :=
  let ext := if (mimetype file =? "image/png")%string then "png" else "jpg" in
  t <- get now ;;
  r <- next_random ;;
  let filename := (JS.of_N (Z.to_N t) ++ "-" ++ r ++ "." ++ ext)%string in
  resp <- storage_upload filename file ;;
  throw_if_error resp ;;;
  ret (getPublicUrl (SUPABASE_URL env) filename).

(** [for (const file of req.files.productImages) { ...push(url) }] *)
Fixpoint upload_each (files : list File) (productImageUrls : list string)
  : M (list string) :=
  match files with
  | [] => ret productImageUrls
  | file :: rest =>
      url <- uploadImage file ;;
      upload_each rest (productImageUrls ++ [url])
  end.

(** [req.files?.coverImage?.[0]] *)
Definition cover_file (req : CardsRequest) : option File :=
  match req_files req with
  | Some files =>
      match lookup "coverImage" files with
      | Some (f :: _) => Some f
      | _ => None
      end
  | None => None
  end.

(** [req.files?.productImages] *)
Definition product_files (req : CardsRequest) : option (list File) :=
  match req_files req with
  | Some files => lookup "productImages" files
  | None => None
  end.

Definition required_msg : string :=
  "businessName, employeeName, and description are required".

(** The handler of [POST /cards]. *)
Definition submit (req : CardsRequest) : World -> HttpResponse * World :=
  let b := req_body req in
  try_catch
    (if negb (JS.truthy (businessName b)) || negb (JS.truthy (employeeName b))
        || negb (JS.truthy (description b))
     then ret (respond 400 (ErrorBody required_msg))
     else
       coverImageUrl <-
         match cover_file req with
         | Some f => url <- uploadImage f ;; ret (Some url)
         | None => ret None
         end ;;
       productImageUrls <-
         match product_files req with
         | Some files => upload_each files []
         | None => ret []
         end ;;
       r <- insert_card
              (Draft.mk (businessName b) (employeeName b)
                 (JS.or (webpageUrl b) JS.Null) (description b)
                 coverImageUrl productImageUrls) ;;
       throw_if_error r ;;;
       ret (respond 201 (match data r with
                         | Some c => CardBody c
                         | None => NullBody
                         end)))
    (fun message =>
       respond 500 (ErrorBody (if (message =? "")%string
                               then "Failed to create card" else message))).

(** The route [POST /cards]: the upload middleware, then the handler.  An
    error of the middleware goes to Express's own error handler, and the
    handler is not called. *)
Definition post_cards (raw : RawCardsRequest) : World -> HttpResponse * World :=
  match parts raw with
  | None => submit {| req_body := raw_body raw; req_files := None |}
  | Some incoming =>
      match multer upload_fields [] incoming with
      | inl e => fun w => (respond 500 (UnhandledError (multer_message e)), w)
      | inr files => submit {| req_body := raw_body raw; req_files := Some files |}
      end
  end.

(** The handler of [GET /cards]. *)
Definition list_active : World -> HttpResponse * World :=
  try_catch
    (t <- get now ;;
     r <- select_active t ;;
     throw_if_error r ;;;
     ret (respond 200 (match data r with
                       | Some cards => CardsBody cards
                       | None => NullBody
                       end)))
    (fun _ => respond 500 (ErrorBody "Failed to fetch cards")).

(** [if (card.cover_image_url)] *)
Definition cover_paths (card : Card.t) : list string :=
  match Card.cover_image_url card with
  | Some url => if negb (url =? "")%string then [urlToStoragePath url] else []
  | None => []
  end.

(** [imagesToDelete] as [DELETE /cards/:id] builds it. *)
Definition imagesToDelete (card : Card.t) : list string :=
  cover_paths card ++
  match Card.product_image_urls card with
  | Some urls => if (0 <? List.length urls)%nat then map urlToStoragePath urls else []
  | None => []
  end.

(** [if (imagesToDelete.length > 0) await ...remove(imagesToDelete)] *)
Definition remove_images (paths : list string) : M unit :=
  if (0 <? List.length paths)%nat then storage_remove paths ;;; ret tt else ret tt.

(** The handler of [DELETE /cards/:id]. *)
Definition delete_one (id : string) : World -> HttpResponse * World :=
  try_catch
    (r <- select_single id ;;
     throw_if_error r ;;;
     match data r with
     | None => ret (respond 404 (ErrorBody "Card not found"))
     | Some card =>
         remove_images (imagesToDelete card) ;;;
         d <- delete_row id ;;
         throw_if_error d ;;;
         ret (respond 200 SuccessBody)
     end)
    (fun _ => respond 500 (ErrorBody "Failed to delete card")).

(** [imagesToDelete] as the cleanup loop builds it. *)
Definition imagesToDelete_expired (card : Card.t) : list string :=
  cover_paths card ++
  match Card.product_image_urls card with
  | Some urls => map urlToStoragePath urls
  | None => []
  end.

(** [for (const card of expired) { ...; deletedCount++ }] *)
Fixpoint cleanup_loop (expired : list Card.t) (deletedCount : nat) : M nat :=
  match expired with
  | [] => ret deletedCount
  | card :: rest =>
      remove_images (imagesToDelete_expired card) ;;;
      delete_row (Card.id card) ;;;
      cleanup_loop rest (S deletedCount)
  end.

(** The handler of [DELETE /cards/cleanup/expired]. *)
Definition cleanup_expired : World -> HttpResponse * World :=
  try_catch
    (t <- get now ;;
     r <- select_expired t ;;
     throw_if_error r ;;;
     match data r with
     | None => throw "expired is not iterable"
     | Some expired =>
         deletedCount <- cleanup_loop expired 0 ;;
         ret (respond 200 (DeletedBody deletedCount))
     end)
    (fun _ => respond 500 (ErrorBody "Cleanup failed")).

Definition nl : string := String (ascii_of_nat 10) EmptyString.

(** The template literal sent as the user message. *)
Definition polish_prompt (text : string) : string :=
  ("Polish this business/service description to be more professional, engaging, and compelling. Keep it concise (under 250 words). Maintain the original meaning and key details. Only return the polished description, no preamble or explanation."
   ++ nl ++ nl ++ "Original description:" ++ nl ++ text)%string.

(** [v.trim()]: a [TypeError] unless [v] is a string. *)
Definition call_trim (v : JS.value) : M string :=
  match v with
  | JS.Str s => ret (JS.trim s)
  | _ => throw "trim is not a function"
  end.

(** [!process.env.GROQ_API_KEY] *)
Definition api_key_missing : bool :=
  match GROQ_API_KEY env with
  | Some k => (k =? "")%string
  | None => true
  end.

(** [`Bearer ${process.env.GROQ_API_KEY}`] *)
Definition authorization : string :=
  ("Bearer " ++ match GROQ_API_KEY env with
                | Some k => k
                | None => "undefined"
                end)%string.

(** [await fetch(...)], [response.ok], [await response.json()] and
    [data.choices[0].message.content]. *)
Definition fetch_completion (text : string) : M JS.value :=
  emit (EvFetch authorization (polish_prompt text)) ;;;
  u <- get upstream ;;
  match u with
  | NetworkError => throw "fetch failed"
  | Reply ok code content =>
      if negb ok then throw ("Groq API error: " ++ JS.of_N code)%string
      else match content with
           | Some v => ret v
           | None => throw "Cannot read properties of undefined"
           end
  end.

(** [!description || !description.trim()] *)
Definition description_missing (text : JS.value) : M bool :=
  if negb (JS.truthy text) then ret true
  else trimmed <- call_trim text ;; ret (negb (JS.truthy (JS.Str trimmed))).

(** The handler of [POST /polish]; [text] is [req.body.description]. *)
Definition polish (text : JS.value) : World -> HttpResponse * World :=
  try_catch
    (missing <- description_missing text ;;
     if missing
     then ret (respond 400 (ErrorBody "Description is required"))
     else if api_key_missing
     then ret (respond 500 (ErrorBody "AI service not configured"))
     else
       content <- fetch_completion (JS.to_string text) ;;
       polishedText <- call_trim content ;;
       ret (respond 200 (PolishedBody polishedText)))
    (fun _ => respond 500 (ErrorBody "Failed to polish description")).

End Server.

(* ------------------------------------------------------------------ *)
(** ** Notions the properties are stated with *)

(** The answers of the [catch] blocks. *)
Definition delete_failed : HttpResponse :=
  respond 500 (ErrorBody "Failed to delete card").

Definition polish_failed : HttpResponse :=
  respond 500 (ErrorBody "Failed to polish description").

(** Every character of [s] is white space. *)
Definition all_whitespace (s : string) : bool :=
  forallb JS.is_whitespace (list_ascii_of_string s).

(** A description that [POST /polish] takes as not given: a falsy value
    (absent, [null], the empty string) or a string of white space. *)
Definition blank_description (text : JS.value) : Prop :=
  JS.truthy text = false
  \/ exists s, text = JS.Str s /\ all_whitespace s = true.

(** Equality of two strings up to the case of their letters. *)
Definition caseless_eq (a b : string) : Prop :=
  JS.toLowerCase a = JS.toLowerCase b.

(** The image URLs of a card: its cover, when it has one, then its product
    images. *)
Definition image_urls (card : Card.t) : list string :=
  match Card.cover_image_url card with
  | Some url => if (url =? "")%string then [] else [url]
  | None => []
  end ++
  match Card.product_image_urls card with
  | Some urls => urls
  | None => []
  end.

(** One batch delete for a non-empty list of paths, none for an empty one. *)
Definition remove_events (paths : list string) : list Event :=
  match paths with
  | [] => []
  | _ :: _ => [EvRemove paths]
  end.

(** The remote calls the cleanup makes for one card: the batch delete of
    its images, when it has any, then the delete of its row. *)
Definition card_calls (card : Card.t) : list Event :=
  remove_events (map urlToStoragePath (image_urls card))
  ++ [EvDeleteRow (Card.id card)].

(** The outcome of the [k]-th remote call to come, counted from 0. *)
Definition outcome_at (w : World) (k : nat) : Outcome := nth k (script w) Normal.

(** The row the database makes of a draft in the world [w]. *)
Definition new_card (d : Draft.t) (w : World) : Card.t :=
  Card.mk (JS.of_N (next_id w)) (Draft.business_name d) (Draft.employee_name d)
          (Draft.webpage_url d) (Draft.description d)
          (Draft.cover_image_url d) (Some (Draft.product_image_urls d))
          (now w) (now w + ttl w).

(** The table once the rows of [cards] have been deleted one by one. *)
Definition delete_rows (cards : list Card.t) (t : list Card.t) : list Card.t :=
  fold_left (fun rows c => filter (fun x => negb (has_id (Card.id c) x)) rows) cards t.

Definition no_throw (o : Outcome) : bool :=
  match o with
  | Throws _ => false
  | _ => true
  end.

Definition is_normal (o : Outcome) : bool :=
  match o with
  | Normal => true
  | _ => false
  end.

Definition is_fails (o : Outcome) : bool :=
  match o with
  | Fails _ => true
  | _ => false
  end.

(** The arguments of the batch deletes found in a log. *)
Fixpoint remove_calls (l : list Event) : list (list string) :=
  match l with
  | [] => []
  | EvRemove paths :: l' => paths :: remove_calls l'
  | _ :: l' => remove_calls l'
  end.

(** The drafts of the inserts found in a log. *)
Fixpoint insert_calls (l : list Event) : list Draft.t :=
  match l with
  | [] => []
  | EvInsert d :: l' => d :: insert_calls l'
  | _ :: l' => insert_calls l'
  end.

(** The names of the uploads found in a log. *)
Fixpoint upload_calls (l : list Event) : list string :=
  match l with
  | [] => []
  | EvUpload name _ :: l' => name :: upload_calls l'
  | _ :: l' => upload_calls l'
  end.

(** The row deletes found in a log. *)
Fixpoint delete_calls (l : list Event) : list string :=
  match l with
  | [] => []
  | EvDeleteRow id :: l' => id :: delete_calls l'
  | _ :: l' => delete_calls l'
  end.

(** The requests to the text-generation endpoint found in a log. *)
Fixpoint fetch_calls (l : list Event) : list string :=
  match l with
  | [] => []
  | EvFetch _ prompt :: l' => prompt :: fetch_calls l'
  | _ :: l' => fetch_calls l'
  end.

(** The computation [m] sends no insert to the database. *)
Definition keeps_inserts {A} (m : M A) : Prop :=
  forall w, insert_calls (log (snd (m w))) = insert_calls (log w).

(** [b] was not created after [a]. *)
Definition newest_first (a b : Card.t) : Prop :=
  Card.created_at b <= Card.created_at a.

Definition is_product_image (f : File) : bool :=
  (fieldname f =? "productImages")%string.

(* ------------------------------------------------------------------ *)
(** ** Sample data *)

Definition env0 : Env :=
  {| SUPABASE_URL := "https://abc.supabase.co"; GROQ_API_KEY := Some "gsk_test" |}.

Definition env_no_key : Env :=
  {| SUPABASE_URL := "https://abc.supabase.co"; GROQ_API_KEY := None |}.

Definition url_of (name : string) : string := getPublicUrl (SUPABASE_URL env0) name.

(** A card without images, still active at time 2000. *)
Definition card_plain : Card.t :=
  Card.mk "7" (JS.Str "Acme") (JS.Str "Jo") JS.Null (JS.Str "Great stuff")
          None (Some []) 100 5000.

(** An expired card with a cover and two product images. *)
Definition card_full : Card.t :=
  Card.mk "8" (JS.Str "Bolt") (JS.Str "Al") (JS.Str "https://bolt.example")
          (JS.Str "Fast") (Some (url_of "10-aaaaaaa.png"))
          (Some [url_of "11-bbbbbbb.jpg"; url_of "12-ccccccc.jpg"]) 10 1000.

(** An expired card without images. *)
Definition card_old : Card.t :=
  Card.mk "9" (JS.Str "Cog") (JS.Str "Di") JS.Null (JS.Str "Slow")
          None None 20 1500.

Definition world0 : World :=
  mkWorld [card_plain; card_full; card_old]
          ["10-aaaaaaa.png"; "11-bbbbbbb.jpg"; "12-ccccccc.jpg"]
          2000 604800000 10 ["x1y2z3a"; "q7w8e9r"] []
          (Reply true 200 (Some (JS.Str "  Polished text. ")))
          [].

(** A world in which the fetch of the expired cards succeeds and every
    later call answers with an error value. *)
Definition world_failing : World :=
  with_script (Normal :: repeat (Fails "service unavailable") 4) world0.

Definition form (a b c d : JS.value) : CardForm :=
  {| businessName := a; employeeName := b; webpageUrl := c; description := d |}.

(** A submission whose business name is a single space. *)
Definition request_blank_name : CardsRequest :=
  {| req_body := form (JS.Str " ") (JS.Str "Jo") JS.Undefined (JS.Str "Great stuff");
     req_files := None |}.

(** A submission without a business name. *)
Definition request_no_name : CardsRequest :=
  {| req_body := form JS.Undefined (JS.Str "Jo") JS.Undefined (JS.Str "Great stuff");
     req_files := None |}.

(** A submission without files and with an empty [webpageUrl]. *)
Definition request_plain : CardsRequest :=
  {| req_body := form (JS.Str "Acme") (JS.Str "Jo") (JS.Str "") (JS.Str "Great stuff");
     req_files := None |}.

Definition png (field : string) : File :=
  {| fieldname := field; mimetype := "image/png"; size := 2048 |}.

(** A multipart submission with eleven product images. *)
Definition request_eleven : RawCardsRequest :=
  {| raw_body := form (JS.Str "Acme") (JS.Str "Jo") JS.Undefined (JS.Str "Great stuff");
     parts := Some (repeat (png "productImages") 11) |}.

(** A URL in which the marker occurs twice. *)
Definition url_twice : string := "/side-quest-images//side-quest-images/a.png".

(* ------------------------------------------------------------------ *)
(** ** The allowed origins *)

(** [s.split(',')]: the pieces between the commas; a string without a
    comma is its only piece. *)
Fixpoint split_comma (s : string) : list string :=
  match s with
  | EmptyString => [EmptyString]
  | String c s' =>
      if (c =? ",")%char then EmptyString :: split_comma s'
      else match split_comma s' with
           | piece :: pieces => String c piece :: pieces
           | [] => [String c EmptyString]
           end
  end.

(** The [origin] option handed to [cors]: the string ['*'] or an array of
    origins. *)
Inductive Origins : Type :=
| AnyOrigin
| OriginList (origins : list string).

(** [process.env.FRONTEND_URL
       ? process.env.FRONTEND_URL.split(',').map(url => url.trim())
       : '*'] *)
Definition allowedOrigins (FRONTEND_URL : option string) : Origins :=
  match FRONTEND_URL with
  | Some urls =>
      if JS.truthy (JS.Str urls)
      then OriginList (map JS.trim (split_comma urls))
      else AnyOrigin
  | None => AnyOrigin
  end.

(* ------------------------------------------------------------------ *)
(** ** Further notions *)

(** The computation [m] leaves the observation [obs] of the world as it
    was. *)
Definition preserves {A B} (obs : World -> B) (m : M A) : Prop :=
  forall w, obs (snd (m w)) = obs w.

(** The characters of a string. *)
Definition chars (s : string) : list ascii := list_ascii_of_string s.

Definition comma : ascii := ","%char.

(** The world once a random value has been drawn. *)
Definition used_random (w : World) : World :=
  match random w with
  | [] => w
  | _ :: rest =>
      mkWorld (table w) (bucket w) (now w) (ttl w) (next_id w)
              rest (script w) (upstream w) (log w)
  end.

(** The name [uploadImage] gives to a file in the world [w]. *)
Definition upload_name (f : File) (w : World) : string :=
  (JS.of_N (Z.to_N (now w)) ++ "-" ++ hd "" (random w) ++ "."
   ++ (if (mimetype f =? "image/png")%string then "png" else "jpg"))%string.

(** The content types of the uploads found in a log. *)
Fixpoint upload_types (l : list Event) : list string :=
  match l with
  | [] => []
  | EvUpload _ contentType :: l' => contentType :: upload_types l'
  | _ :: l' => upload_types l'
  end.

Definition is_upload (e : Event) : bool :=
  match e with
  | EvUpload _ _ => true
  | _ => false
  end.

(** The files a submission asks to upload: the cover, then the product
    images. *)
Definition submitted_files (req : CardsRequest) : list File :=
  match cover_file req with
  | Some f => [f]
  | None => []
  end ++
  match product_files req with
  | Some files => files
  | None => []
  end.

(** [err.message || 'Failed to create card'] *)
Definition create_message (message : string) : string :=
  if (message =? "")%string then "Failed to create card" else message.

(** What is left of the handler of [POST /cards] once the images are
    uploaded: the insert and the answer. *)
Definition insert_phase (b : CardForm) (cover : option string) (urls : list string)
  : World -> HttpResponse * World :=
  try_catch
    (r <- insert_card
            (Draft.mk (businessName b) (employeeName b)
               (JS.or (webpageUrl b) JS.Null) (description b) cover urls) ;;
     throw_if_error r ;;;
     ret (respond 201 (match data r with
                       | Some c => CardBody c
                       | None => NullBody
                       end)))
    (fun message => respond 500 (ErrorBody (create_message message))).

(** What is left of the handler of [DELETE /cards/:id] once the card is
    fetched: the batch delete of its images and the delete of its row. *)
Definition delete_tail (paths : list string) (id : string)
  : World -> HttpResponse * World :=
  try_catch
    (remove_images paths ;;;
     d <- delete_row id ;;
     throw_if_error d ;;;
     ret (respond 200 SuccessBody))
    (fun _ => delete_failed).

(** The bucket without the objects named in [paths]. *)
Definition without (paths : list string) (objs : list string) : list string :=
  filter (fun o => negb (JS.arr_includes paths o)) objs.

(** The table without the rows of the given id. *)
Definition without_id (id : string) (rows : list Card.t) : list Card.t :=
  filter (fun c => negb (has_id id c)) rows.

(** The list made of an optional cover URL. *)
Definition cover_list (cover : option string) : list string :=
  match cover with
  | Some url => [url]
  | None => []
  end.

(** The three required fields are truthy. *)
Definition fields_given (b : CardForm) : bool :=
  JS.truthy (businessName b) && JS.truthy (employeeName b)
  && JS.truthy (description b).

(** Between [w] and [w'] the objects [names] were added to the bucket,
    some outcomes and random values were used up, and nothing else
    changed. *)
Definition only_uploaded (names : list string) (w w' : World) : Prop :=
  bucket w' = bucket w ++ names
  /\ table w' = table w
  /\ now w' = now w
  /\ ttl w' = ttl w
  /\ next_id w' = next_id w
  /\ exists k, script w' = skipn k (script w).

(** The files of [incoming] sent under the field [k], in order. *)
Definition of_field (k : string) (incoming : list File) : list File :=
  filter (fun f => (fieldname f =? k)%string) incoming.

(** How many files [upload.fields] admits under the field [k]. *)
Definition allowance (filesLeft : list (string * nat)) (k : string) : nat :=
  match lookup k filesLeft with
  | Some n => n
  | None => O
  end.

(** What multer has collected under the field [k]. *)
Definition collected (files : list (string * list File)) (k : string) : list File :=
  match lookup k files with
  | Some fs => fs
  | None => []
  end.

(** The file passes [fileFilter] and fits the size limit. *)
Definition file_ok (f : File) : Prop :=
  fileFilter f = None /\ (size f <= fileSize)%N.

(** The rows fetched as expired at the time of the world. *)
Definition expired_rows (w : World) : list Card.t :=
  filter (fun c => Card.expires_at c <? now w) (table w).

(** The rows fetched as active at the time of the world. *)
Definition active_rows (w : World) : list Card.t :=
  order_created_desc (filter (fun c => Card.expires_at c >? now w) (table w)).

Definition cleanup_failed : HttpResponse :=
  respond 500 (ErrorBody "Cleanup failed").

Definition fetch_failed : HttpResponse :=
  respond 500 (ErrorBody "Failed to fetch cards").

(** A world in which the second remote call answers with an error. *)
Definition world_second_fails : World :=
  with_script [Normal; Fails "storage unavailable"; Normal] world0.

(** A world in which the third remote call answers with an error. *)
Definition world_third_fails : World :=
  with_script [Normal; Normal; Fails "permission denied"] world0.

(** A world in which the third remote call throws. *)
Definition world_third_throws : World :=
  with_script [Normal; Normal; Throws "socket hang up"; Normal] world0.

(** A world in which the first remote call answers with an error. *)
Definition world_first_fails : World :=
  with_script [Fails "connection refused"] world0.

(** A multipart submission with a cover and two product images. *)
Definition request_three_files : CardsRequest :=
  {| req_body := form (JS.Str "Acme") (JS.Str "Jo") JS.Undefined (JS.Str "Great stuff");
     req_files :=
       Some [("coverImage", [png "coverImage"]);
             ("productImages",
              [png "productImages";
               {| fieldname := "productImages"; mimetype := "image/jpeg"; size := 7 |}])] |}.

(** A world whose clock shows the very time at which [card_plain]
    expires. *)
Definition world_at_expiry : World :=
  mkWorld [card_plain; card_old] [] 5000 0 1 [] [] NetworkError [].

(** A world with three random suffixes to come. *)
Definition world_three : World :=
  mkWorld [card_plain] ["10-aaaaaaa.png"] 2000 604800000 10
          ["x1y2z3a"; "q7w8e9r"; "m4n5b6v"] []
          (Reply true 200 (Some (JS.Str "ok"))) [].

(* ------------------------------------------------------------------ *)
(** ** The public URL of an arbitrary name *)

(** The characters [encodeURI] leaves as they are: letters, digits, and
    [; , / ? : @ & = + $ - _ . ! ~ * ' ( ) #]. *)
Definition uri_unescaped (c : ascii) : bool :=
  let n := nat_of_ascii c in
  ((48 <=? n)%nat && (n <=? 57)%nat) || ((65 <=? n)%nat && (n <=? 90)%nat)
  || ((97 <=? n)%nat && (n <=? 122)%nat)
  || existsb (Ascii.eqb c) (chars ";,/?:@&=+$-_.!~*'()#").

Definition hex_digit (n : nat) : ascii :=
  nth n (chars "0123456789ABCDEF") "0"%char.

(** [%XY], the escape of one byte. *)
Definition percent (n : nat) : string :=
  String "%" (String (hex_digit (n / 16)%nat) (String (hex_digit (n mod 16)%nat) "")).

(** What [encodeURI] makes of one code unit below 256: the unit itself
    when it is left as it is, and otherwise the escapes of the bytes of
    its UTF-8 encoding, one byte below 128 and two from there on. *)
Definition encode_unit (c : ascii) : string :=
  let n := nat_of_ascii c in
  if uri_unescaped c then String c ""
  else if (n <? 128)%nat then percent n
       else (percent (192 + n / 64)%nat ++ percent (128 + n mod 64)%nat)%string.

Fixpoint encodeURI (s : string) : string :=
  match s with
  | EmptyString => EmptyString
  | String c s' => (encode_unit c ++ encodeURI s')%string
  end.

(** [path.replace(/^\/+/, '')] *)
Fixpoint strip_slashes (s : string) : string :=
  match s with
  | EmptyString => EmptyString
  | String c s' => if (c =? "/")%char then strip_slashes s' else s
  end.

(** [getPublicUrl] as the storage client computes it for any name: the
    name loses its leading slashes, goes after the bucket under the
    public directory of the project, and the whole is passed through
    [encodeURI].  [project] is the project URL as the client keeps it. *)
Definition storage_getPublicUrl (project name : string) : string :=
  encodeURI (project ++ "/storage/v1/object/public/" ++ bucket_name ++ "/"
             ++ strip_slashes name)%string.

Definition leading_slash (s : string) : bool :=
  match s with
  | String c _ => (c =? "/")%char
  | EmptyString => false
  end.

(** A name that the URL construction leaves as it is: no character of it
    is escaped and it does not start with a slash. *)
Definition plain_name (s : string) : bool :=
  forallb uri_unescaped (chars s) && negb (leading_slash s).

(* ------------------------------------------------------------------ *)
(** ** The uploads of a request *)

(** The upload calls made for the first files of [files], sent under the
    names [names] in that order. *)
Definition upload_events (names : list string) (files : list File) : list Event :=
  map (fun nf => EvUpload (fst nf) (mimetype (snd nf))) (combine names files).

(** The files of a multipart request that the handler of [POST /cards]
    looks at: those sent under [coverImage], then those sent under
    [productImages], each group in its order of arrival. *)
Definition image_parts (incoming : list File) : list File :=
  of_field "coverImage" incoming ++ of_field "productImages" incoming.

(* ------------------------------------------------------------------ *)
(** ** Facts about strings *)

Section StringFacts.

Local Open Scope nat_scope.

Lemma append_nil_r (s : string) : (s ++ "")%string = s.
Proof. induction s as [|c s IH]; simpl; [reflexivity | now rewrite IH]. Qed.

Lemma append_assoc (a b c : string) :
  ((a ++ b) ++ c)%string = (a ++ (b ++ c))%string.
Proof. induction a as [|x a IH]; simpl; [reflexivity | now rewrite IH]. Qed.

Lemma length_append (a b : string) :
  String.length (a ++ b) = String.length a + String.length b.
Proof. induction a as [|x a IH]; simpl; [reflexivity | now rewrite IH]. Qed.

Lemma prefix_nil (s : string) : prefix "" s = true.
Proof. destruct s; reflexivity. Qed.

Lemma prefix_cons (a b : ascii) (p s : string) :
  prefix (String a p) (String b s) = true <-> a = b /\ prefix p s = true.
Proof.
  simpl. destruct (ascii_dec a b) as [->|N]; split; intros H.
  - now split.
  - now destruct H.
  - discriminate.
  - now destruct H.
Qed.

Lemma prefix_iff (p s : string) :
  prefix p s = true <-> exists suf, s = (p ++ suf)%string.
Proof.
  revert s. induction p as [|a p IH]; intros s.
  - split; [intros _; now exists s | intros _; apply prefix_nil].
  - destruct s as [|b s].
    + split; [discriminate | intros [suf H]; discriminate].
    + rewrite prefix_cons, IH. split.
      * intros [-> [suf ->]]. now exists suf.
      * intros [suf H]. simpl in H. injection H as -> ->. split; [reflexivity | now exists suf].
Qed.

Lemma prefix_append (p suf : string) : prefix p (p ++ suf) = true.
Proof. apply prefix_iff. now exists suf. Qed.

Lemma drop_append (pre s : string) : JS.drop (String.length pre) (pre ++ s) = s.
Proof. induction pre as [|c pre IH]; simpl; [now destruct s | exact IH]. Qed.

Lemma search_eq (pat s : string) (i : nat) :
  JS.search pat s i =
  if prefix pat s then Some i
  else match s with
       | EmptyString => None
       | String _ s' => JS.search pat s' (S i)
       end.
Proof. destruct s; reflexivity. Qed.

Lemma search_shift (pat s : string) (i : nat) :
  JS.search pat s i = option_map (fun k => i + k) (JS.search pat s 0).
Proof.
  revert i. induction s as [|c s IH]; intros i; rewrite (search_eq pat _ i), (search_eq pat _ 0).
  - destruct (prefix pat ""); simpl; [f_equal; lia | reflexivity].
  - destruct (prefix pat (String c s)); simpl; [f_equal; lia|].
    rewrite (IH (S i)), (IH 1). destruct (JS.search pat s 0); simpl; [f_equal; lia | reflexivity].
Qed.

(** [search] finds an occurrence, and the first one. *)
Lemma search_Some (pat s : string) (k : nat) :
  JS.search pat s 0 = Some k ->
  exists pre suf, s = (pre ++ pat ++ suf)%string /\ String.length pre = k /\
    forall pre' suf', s = (pre' ++ pat ++ suf')%string -> k <= String.length pre'.
Proof.
  revert k. induction s as [|c s IH]; intros k; rewrite search_eq.
  - destruct (prefix pat "") eqn:E; [|discriminate].
    intros [= <-]. apply prefix_iff in E as [suf E].
    exists "", suf. repeat split; [exact E | intros; lia].
  - destruct (prefix pat (String c s)) eqn:E.
    + intros [= <-]. apply prefix_iff in E as [suf E].
      exists "", suf. repeat split; [exact E | intros; lia].
    + rewrite search_shift. destruct (JS.search pat s 0) as [j|] eqn:Ej; [|discriminate].
      simpl. intros [= <-]. destruct (IH j eq_refl) as (pre & suf & -> & Hl & Hmin).
      exists (String c pre), suf. repeat split; [simpl; now rewrite Hl|].
      intros pre' suf' H. destruct pre' as [|c' pre'].
      * simpl in H. exfalso. assert (prefix pat (String c (pre ++ pat ++ suf)) = true) as E'
          by (apply prefix_iff; now exists suf').
        congruence.
      * simpl in H. injection H as _ H. simpl. apply Hmin in H. lia.
Qed.

Lemma search_None (pat s : string) :
  JS.search pat s 0 = None <->
  forall pre suf, s <> (pre ++ pat ++ suf)%string.
Proof.
  split.
  - induction s as [|c s IH]; rewrite search_eq.
    + destruct (prefix pat "") eqn:E; [discriminate|]. intros _ pre suf H.
      destruct pre; [|discriminate]. simpl in H.
      rewrite H, prefix_append in E. discriminate.
    + destruct (prefix pat (String c s)) eqn:E; [discriminate|].
      rewrite search_shift. destruct (JS.search pat s 0) eqn:Es; [discriminate|].
      intros _ pre suf H. destruct pre as [|c' pre]; simpl in H.
      * rewrite H, prefix_append in E. discriminate.
      * injection H as _ H. exact (IH eq_refl _ _ H).
  - intros H. destruct (JS.search pat s 0) as [k|] eqn:E; [|reflexivity].
    apply search_Some in E as (pre & suf & E & _). now apply H in E.
Qed.

Lemma search_first (pat pre suf : string) :
  (forall pre' suf', (pre ++ pat ++ suf)%string = (pre' ++ pat ++ suf')%string ->
                     String.length pre <= String.length pre') ->
  JS.search pat (pre ++ pat ++ suf) 0 = Some (String.length pre).
Proof.
  intros Hmin. destruct (JS.search pat (pre ++ pat ++ suf) 0) as [k|] eqn:E.
  - apply search_Some in E as (p & q & E & Hl & Hk).
    f_equal. specialize (Hmin _ _ E). specialize (Hk _ _ eq_refl). lia.
  - exfalso. exact (proj1 (search_None _ _) E _ _ eq_refl).
Qed.

End StringFacts.

(* ------------------------------------------------------------------ *)
(** ** [urlToStoragePath] *)

Section UrlToStoragePath.

Local Open Scope nat_scope.

Lemma includes_false (s pat : string) :
  JS.includes s pat = false <-> JS.search pat s 0 = None.
Proof.
  unfold JS.includes, JS.indexOf. destruct (JS.search pat s 0) as [k|].
  - split; [|discriminate]. intros H. apply negb_false_iff, Z.eqb_eq in H. lia.
  - split; reflexivity.
Qed.

Lemma includes_true (s pat : string) :
  JS.includes s pat = true <-> exists k, JS.search pat s 0 = Some k.
Proof.
  destruct (JS.includes s pat) eqn:E.
  - split; [intros _ | reflexivity].
    destruct (JS.search pat s 0) as [k|] eqn:Ek; [now exists k|].
    apply includes_false in Ek. congruence.
  - apply includes_false in E. rewrite E. split; [discriminate | intros [k H]; discriminate].
Qed.

(** When the marker is absent the input comes back unchanged. *)
Lemma urlToStoragePath_absent (url : string) :
  JS.includes url marker = false -> urlToStoragePath url = url.
Proof.
  intros H. apply includes_false in H. unfold urlToStoragePath, JS.indexOf.
  now rewrite H.
Qed.

(** When the first occurrence of the marker follows [pre], what follows
    the marker comes back. *)
Lemma urlToStoragePath_at (pre suf : string) :
  JS.search marker (pre ++ marker ++ suf) 0 = Some (String.length pre) ->
  urlToStoragePath (pre ++ marker ++ suf) = suf.
Proof.
  intros H. unfold urlToStoragePath, JS.indexOf. rewrite H.
  replace (negb (Z.of_nat (String.length pre) =? -1)%Z) with true
    by (symmetry; apply negb_true_iff, Z.eqb_neq; lia).
  unfold JS.substring.
  replace (Z.to_nat (Z.max 0 (Z.of_nat (String.length pre) + Z.of_nat (String.length marker))))
    with (String.length (pre ++ marker)) by (rewrite length_append; lia).
  rewrite <- append_assoc. apply drop_append.
Qed.

Lemma urlToStoragePath_present (url : string) :
  JS.includes url marker = true ->
  exists pre suf,
    url = (pre ++ marker ++ suf)%string
    /\ (forall pre' suf', url = (pre' ++ marker ++ suf')%string ->
                          String.length pre <= String.length pre')
    /\ urlToStoragePath url = suf.
Proof.
  intros H. apply includes_true in H as [k Hk].
  destruct (search_Some _ _ _ Hk) as (pre & suf & -> & Hl & Hmin).
  exists pre, suf. repeat split.
  - intros pre' suf' E. rewrite Hl. exact (Hmin _ _ E).
  - apply urlToStoragePath_at. now rewrite Hl.
Qed.

Lemma search_skip (pat : string) (c : ascii) (s : string) (i : nat) :
  prefix pat (String c s) = false ->
  JS.search pat (String c s) i = JS.search pat s (S i).
Proof. intros H. rewrite search_eq, H. reflexivity. Qed.

Lemma prefix_app_cases (p u x : string) :
  prefix p (u ++ x) = true ->
  prefix p u = true \/ exists q, p = (u ++ q)%string /\ prefix q x = true.
Proof.
  revert u. induction p as [|a p IH]; intros u H.
  - left. apply prefix_nil.
  - destruct u as [|b u].
    + right. now exists (String a p).
    + simpl append in H. apply prefix_cons in H as [-> H].
      destruct (IH _ H) as [Hp | (q & -> & Hq)].
      * left. now apply prefix_cons.
      * right. now exists q.
Qed.

Lemma marker_split (c : ascii) (u q rest : string) :
  marker = (String c u ++ q)%string ->
  prefix q (public_dir ++ rest) = true ->
  prefix marker_stem (String c u) = true.
Proof.
  unfold marker, public_dir. intros H Hq. simpl in H.
  injection H as <- H.
  repeat (destruct u as [|? u]; simpl in H;
          [ subst q; first [ reflexivity | simpl in Hq; discriminate ]
          | first [ discriminate | injection H as <- H ] ]).
Qed.

Lemma prefix_marker_base (base rest : string) (c : ascii) :
  prefix marker_stem (String c base) = false ->
  prefix marker (String c base ++ public_dir ++ rest) = false.
Proof.
  intros Hs. destruct (prefix marker (String c base ++ public_dir ++ rest)) eqn:E; [|reflexivity].
  apply prefix_app_cases in E as [E | (q & Hm & Hq)].
  - apply prefix_iff in E as [suf E].
    assert (prefix marker_stem (String c base) = true) as E'.
    { apply prefix_iff. exists ("/" ++ suf)%string. rewrite E. reflexivity. }
    congruence.
  - rewrite (marker_split _ _ _ _ Hm Hq) in Hs. discriminate.
Qed.

Lemma search_public_dir (rest : string) (i : nat) :
  JS.search marker (public_dir ++ marker ++ rest) i = Some (i + 25).
Proof.
  unfold public_dir. simpl append.
  do 25 (rewrite search_skip by reflexivity).
  rewrite search_eq.
  replace (prefix marker _) with true
    by (symmetry; apply prefix_iff; exists rest; reflexivity).
  f_equal. lia.
Qed.

Lemma search_public (base rest : string) :
  JS.includes base marker_stem = false ->
  JS.search marker (base ++ public_dir ++ marker ++ rest) 0
  = Some (String.length base + 25).
Proof.
  intros H. apply includes_false in H.
  induction base as [|c base IH].
  - apply search_public_dir.
  - rewrite search_eq in H. destruct (prefix marker_stem (String c base)) eqn:E; [discriminate|].
    rewrite search_shift in H. destruct (JS.search marker_stem base 0) eqn:Es; [discriminate|].
    change (String c base ++ public_dir ++ marker ++ rest)%string
      with (String c (base ++ public_dir ++ marker ++ rest)).
    rewrite search_skip by (apply (prefix_marker_base base (marker ++ rest) c E)).
    rewrite search_shift, (IH eq_refl). reflexivity.
Qed.

(** [urlToStoragePath] undoes [getPublicUrl] whenever the project URL does
    not itself contain [/side-quest-images]. *)
Lemma urlToStoragePath_getPublicUrl (base filename : string) :
  JS.includes base marker_stem = false ->
  urlToStoragePath (getPublicUrl base filename) = filename.
Proof.
  intros H.
  assert (getPublicUrl base filename
          = ((base ++ public_dir) ++ marker ++ filename)%string) as ->.
  { unfold getPublicUrl. rewrite append_assoc. reflexivity. }
  apply urlToStoragePath_at.
  rewrite append_assoc, length_append. simpl String.length.
  now apply search_public.
Qed.

End UrlToStoragePath.

(* ------------------------------------------------------------------ *)
(** ** The URL construction and [encodeURI] *)

Lemma encodeURI_append (a b : string) :
  encodeURI (a ++ b) = (encodeURI a ++ encodeURI b)%string.
Proof.
  induction a as [|c a IH]; [reflexivity|].
  cbn [append encodeURI]. now rewrite IH, append_assoc.
Qed.

Lemma encodeURI_unescaped (s : string) :
  forallb uri_unescaped (chars s) = true -> encodeURI s = s.
Proof.
  induction s as [|c s IH]; [reflexivity|].
  cbn [chars list_ascii_of_string forallb encodeURI]. intros H.
  apply andb_true_iff in H as [Hc Hs]. unfold encode_unit. rewrite Hc.
  cbn [append]. f_equal. exact (IH Hs).
Qed.

Lemma length_percent (n : nat) : String.length (percent n) = 3%nat.
Proof. reflexivity. Qed.

Lemma length_encode_unit (c : ascii) :
  uri_unescaped c = false -> (3 <= String.length (encode_unit c))%nat.
Proof.
  intros H. unfold encode_unit. rewrite H.
  destruct (nat_of_ascii c <? 128)%nat; rewrite ?length_append, !length_percent; lia.
Qed.

Lemma length_encodeURI (s : string) :
  (String.length s <= String.length (encodeURI s))%nat.
Proof.
  induction s as [|c s IH]; [reflexivity|].
  cbn [encodeURI]. rewrite length_append. cbn [String.length].
  destruct (uri_unescaped c) eqn:E.
  - unfold encode_unit. rewrite E. cbn [String.length]. lia.
  - pose proof (length_encode_unit c E). lia.
Qed.

(** [encodeURI] leaves a string as it is only if it escapes none of its
    characters. *)
Lemma encodeURI_fixed (s : string) :
  encodeURI s = s -> forallb uri_unescaped (chars s) = true.
Proof.
  induction s as [|c s IH]; [reflexivity|].
  cbn [chars list_ascii_of_string forallb encodeURI]. intros H.
  destruct (uri_unescaped c) eqn:E.
  - unfold encode_unit in H. rewrite E in H. cbn [append] in H.
    injection H as H. exact (IH H).
  - exfalso. apply (f_equal String.length) in H.
    rewrite length_append in H. cbn [String.length] in H.
    pose proof (length_encode_unit c E). pose proof (length_encodeURI s). lia.
Qed.

Lemma leading_slash_encode_unit (c : ascii) (s : string) :
  (c =? "/")%char = false -> leading_slash (encode_unit c ++ s) = false.
Proof.
  intros H. unfold encode_unit.
  destruct (uri_unescaped c); [exact H|].
  destruct (nat_of_ascii c <? 128)%nat; reflexivity.
Qed.

Lemma leading_slash_encodeURI (s : string) :
  leading_slash s = false -> leading_slash (encodeURI s) = false.
Proof.
  destruct s as [|c s]; [reflexivity|].
  cbn [leading_slash encodeURI]. apply leading_slash_encode_unit.
Qed.

Lemma leading_slash_strip (s : string) : leading_slash (strip_slashes s) = false.
Proof.
  induction s as [|c s IH]; [reflexivity|].
  cbn [strip_slashes]. destruct (c =? "/")%char eqn:E; [exact IH | exact E].
Qed.

Lemma strip_slashes_plain (s : string) :
  leading_slash s = false -> strip_slashes s = s.
Proof.
  destruct s as [|c s]; [reflexivity|].
  cbn [leading_slash strip_slashes]. now intros ->.
Qed.

(** The URL construction leaves a name as it is exactly when the name is
    plain. *)
Lemma plain_name_iff (name : string) :
  encodeURI (strip_slashes name) = name <-> plain_name name = true.
Proof.
  unfold plain_name. split.
  - intros H. destruct (leading_slash name) eqn:E.
    + exfalso. pose proof (leading_slash_encodeURI _ (leading_slash_strip name)) as Hl.
      rewrite H in Hl. congruence.
    + rewrite (strip_slashes_plain name E) in H.
      now rewrite (encodeURI_fixed name H).
  - intros H. apply andb_true_iff in H as [Hc Hl]. apply negb_true_iff in Hl.
    now rewrite (strip_slashes_plain name Hl), (encodeURI_unescaped name Hc).
Qed.

(** With a project URL that needs no escaping, the URL of a name is the
    public directory of the bucket followed by the name, escaped and less
    its leading slashes. *)
Lemma storage_getPublicUrl_eq (project name : string) :
  forallb uri_unescaped (chars project) = true ->
  storage_getPublicUrl project name
  = getPublicUrl project (encodeURI (strip_slashes name)).
Proof.
  intros H. unfold storage_getPublicUrl, getPublicUrl.
  rewrite !encodeURI_append, (encodeURI_unescaped project H). reflexivity.
Qed.

Lemma urlToStoragePath_storage_getPublicUrl (project name : string) :
  JS.includes project marker_stem = false ->
  forallb uri_unescaped (chars project) = true ->
  urlToStoragePath (storage_getPublicUrl project name)
  = encodeURI (strip_slashes name).
Proof.
  intros Hm Hp. rewrite (storage_getPublicUrl_eq project name Hp).
  now apply urlToStoragePath_getPublicUrl.
Qed.

(** [urlToStoragePath] returns its argument exactly when the marker is
    absent. *)
Lemma urlToStoragePath_fixed (url : string) :
  urlToStoragePath url = url <-> JS.includes url marker = false.
Proof.
  destruct (JS.includes url marker) eqn:E.
  - split; [|discriminate]. intros Heq. exfalso.
    destruct (urlToStoragePath_present url E) as (pre & suf & Hu & _ & Hr).
    assert (String.length url
            = (String.length (pre ++ marker) + String.length url)%nat) as Hl.
    { rewrite Hu at 1. rewrite <- append_assoc, length_append.
      now rewrite <- Hr, Heq. }
    rewrite length_append in Hl. simpl in Hl. lia.
  - split; [reflexivity|]. intros _. now apply urlToStoragePath_absent.
Qed.

Lemma chars_append (a b : string) : chars (a ++ b) = chars a ++ chars b.
Proof.
  unfold chars. induction a as [|c a IH]; [reflexivity|].
  simpl. now rewrite IH.
Qed.

Lemma digits_unescaped (d : Decimal.uint) :
  forallb uri_unescaped (chars (NilEmpty.string_of_uint d)) = true.
Proof. induction d; simpl; try exact IHd; reflexivity. Qed.

Lemma of_N_plain (n : N) :
  forallb uri_unescaped (chars (JS.of_N n)) = true
  /\ exists c s, JS.of_N n = String c s /\ (c =? "/")%char = false.
Proof.
  unfold JS.of_N. destruct (N.to_uint n) as [|d|d|d|d|d|d|d|d|d|d] eqn:E;
    (split; [try reflexivity; apply (digits_unescaped (_ d))
            | eexists; eexists; split; [reflexivity | reflexivity]]).
Qed.

(** The names [uploadImage] makes are plain whenever the random suffix
    is, as a suffix in base 36 is. *)
Lemma upload_name_plain (f : File) (w : World) :
  forallb uri_unescaped (chars (hd "" (random w))) = true ->
  plain_name (upload_name f w) = true.
Proof.
  intros Hr. unfold plain_name, upload_name.
  destruct (of_N_plain (Z.to_N (now w))) as (Hd & c & s & E & Hc).
  apply andb_true_iff. split.
  - rewrite !chars_append, !forallb_app, Hr, Hd.
    destruct (mimetype f =? "image/png")%string; reflexivity.
  - rewrite E. cbn [append leading_slash]. now rewrite Hc.
Qed.

(* ------------------------------------------------------------------ *)
(** ** Properties of [urlToStoragePath] *)

(** C5, as amended.  [urlToStoragePath] is a function of its argument alone.
    Applied to the public URL of a file name it returns the name as the
    URL construction has escaped it and less its leading slashes, provided
    the project URL needs no escaping and does not contain
    [/side-quest-images].  So it undoes the URL construction exactly for
    the plain names, those made of characters that are not escaped and
    not starting with a slash, which the names made by [uploadImage] are.
    On a URL that contains the marker it returns what follows the first
    occurrence of the marker; on any other input it returns the input.
    Applying it twice is the same as applying it once exactly when its
    result no longer contains the marker. *)
Theorem urlToStoragePath_spec (base filename url : string) :
  JS.includes base marker_stem = false ->
  forallb uri_unescaped (chars base) = true ->
  urlToStoragePath (storage_getPublicUrl base filename)
  = encodeURI (strip_slashes filename)
  /\ (urlToStoragePath (storage_getPublicUrl base filename) = filename
      <-> plain_name filename = true)
  /\ (forall (f : File) (w : World),
         forallb uri_unescaped (chars (hd "" (random w))) = true ->
         plain_name (upload_name f w) = true
         /\ storage_getPublicUrl base (upload_name f w)
            = getPublicUrl base (upload_name f w))
  /\ (JS.includes url marker = true ->
      exists pre suf,
        url = (pre ++ marker ++ suf)%string
        /\ (forall pre' suf', url = (pre' ++ marker ++ suf')%string ->
                              (String.length pre <= String.length pre')%nat)
        /\ urlToStoragePath url = suf)
  /\ (JS.includes url marker = false -> urlToStoragePath url = url)
  /\ (urlToStoragePath (urlToStoragePath url) = urlToStoragePath url
      <-> JS.includes (urlToStoragePath url) marker = false).
Proof.
  intros Hbase Hplain.
  pose proof (urlToStoragePath_storage_getPublicUrl base filename Hbase Hplain) as H1.
  split; [exact H1|]. split; [rewrite H1; apply plain_name_iff|].
  split; [|split; [|split]].
  - intros f w Hr. pose proof (upload_name_plain f w Hr) as Hn.
    split; [exact Hn|]. rewrite (storage_getPublicUrl_eq base _ Hplain).
    apply plain_name_iff in Hn. now rewrite Hn.
  - apply urlToStoragePath_present.
  - apply urlToStoragePath_absent.
  - apply urlToStoragePath_fixed.
Qed.

Lemma urlToStoragePath_spec_witness :
  JS.includes "https://abc.supabase.co" marker_stem = false
  /\ forallb uri_unescaped (chars "https://abc.supabase.co") = true
  /\ urlToStoragePath (storage_getPublicUrl "https://abc.supabase.co" "10-aaaaaaa.png")
     = "10-aaaaaaa.png"
  /\ urlToStoragePath "10-aaaaaaa.png" = "10-aaaaaaa.png"
  /\ urlToStoragePath (urlToStoragePath (url_of "10-aaaaaaa.png"))
     = urlToStoragePath (url_of "10-aaaaaaa.png").
Proof.
  split; [reflexivity|]. split; [reflexivity|].
  destruct (urlToStoragePath_spec "https://abc.supabase.co" "10-aaaaaaa.png"
              (url_of "10-aaaaaaa.png") eq_refl eq_refl)
    as (_ & H2 & _ & _ & _ & H6).
  destruct (urlToStoragePath_spec "https://abc.supabase.co" "10-aaaaaaa.png"
              "10-aaaaaaa.png" eq_refl eq_refl)
    as (_ & _ & _ & _ & H5 & _).
  split; [apply H2; reflexivity|].
  split; [exact (H5 eq_refl) | apply H6; reflexivity].
Defined.

(** C5 as stated fails.  The function is not idempotent on a URL in which
    the marker occurs twice.  It does not give back a file name that the
    URL construction changes: one with a space, which is escaped, or one
    that starts with a slash, which is dropped.  And it does not give
    back even a plain name when the project URL itself contains the
    marker. *)
Lemma urlToStoragePath_not_idempotent :
  urlToStoragePath (urlToStoragePath url_twice) <> urlToStoragePath url_twice
  /\ urlToStoragePath (storage_getPublicUrl "https://abc.supabase.co" "a b.png")
     = "a%20b.png"
  /\ urlToStoragePath (storage_getPublicUrl "https://abc.supabase.co" "/a.png")
     = "a.png"
  /\ urlToStoragePath (storage_getPublicUrl "https://host/side-quest-images/x" "a.png")
     <> "a.png".
Proof.
  split; [vm_compute; discriminate|]. split; [reflexivity|].
  split; [reflexivity | vm_compute; discriminate].
Qed.

(* ------------------------------------------------------------------ *)
(** ** [trim] and white space *)

Lemma all_whitespace_cons (c : ascii) (s : string) :
  all_whitespace (String c s) = JS.is_whitespace c && all_whitespace s.
Proof. reflexivity. Qed.

Lemma trimStart_empty (s : string) :
  JS.trimStart s = "" <-> all_whitespace s = true.
Proof.
  induction s as [|c s IH]; [now split|].
  rewrite all_whitespace_cons. simpl. destruct (JS.is_whitespace c); simpl.
  - exact IH.
  - split; discriminate.
Qed.

Lemma trimStart_head (s : string) (c : ascii) (t : string) :
  JS.trimStart s = String c t -> JS.is_whitespace c = false.
Proof.
  induction s as [|d s IH]; simpl; [discriminate|].
  destruct (JS.is_whitespace d) eqn:E; [exact IH|].
  intros [= <- _]. exact E.
Qed.

Lemma trimEnd_empty (s : string) :
  JS.trimEnd s = "" <-> all_whitespace s = true.
Proof.
  induction s as [|c s IH]; [now split|].
  rewrite all_whitespace_cons. simpl. destruct (JS.trimEnd s) as [|d t].
  - destruct (JS.is_whitespace c); simpl.
    + split; [intros _; now apply IH | reflexivity].
    + split; discriminate.
  - split; [discriminate|]. intros H. apply andb_true_iff in H as [_ H].
    apply IH in H. discriminate.
Qed.

(** A string trims to the empty string exactly when it consists of white
    space only. *)
Lemma trim_empty (s : string) :
  JS.trim s = "" <-> all_whitespace s = true.
Proof.
  unfold JS.trim. rewrite trimEnd_empty. split.
  - intros H. apply trimStart_empty. destruct (JS.trimStart s) as [|c t] eqn:E; [reflexivity|].
    apply trimStart_head in E. rewrite all_whitespace_cons, E in H. discriminate.
  - intros H. apply trimStart_empty in H. now rewrite H.
Qed.

Lemma trim_truthy (s : string) :
  JS.truthy (JS.Str (JS.trim s)) = negb (all_whitespace s).
Proof.
  simpl. destruct (all_whitespace s) eqn:E.
  - apply trim_empty in E. now rewrite E.
  - destruct (String.eqb_spec (JS.trim s) "") as [H|H]; [|reflexivity].
    apply trim_empty in H. congruence.
Qed.

Lemma all_whitespace_truthy (s : string) :
  all_whitespace s = false -> JS.truthy (JS.Str s) = true.
Proof. destruct s; [discriminate | reflexivity]. Qed.

(* ------------------------------------------------------------------ *)
(** ** [POST /cards]: validation *)

Section Validation.

Variable env : Env.

(** C1, as amended.  A submission in which [businessName], [employeeName]
    or [description] is missing, is the empty string, or is any other falsy
    value is answered with 400, and the world is left as it was: no image
    is uploaded and no row is inserted. *)
Theorem submit_requires_fields (req : CardsRequest) (w : World) :
  JS.truthy (businessName (req_body req)) = false
  \/ JS.truthy (employeeName (req_body req)) = false
  \/ JS.truthy (description (req_body req)) = false ->
  submit env req w = (respond 400 (ErrorBody required_msg), w).
Proof.
  intros H. unfold submit, try_catch.
  replace (negb (JS.truthy (businessName (req_body req)))
           || negb (JS.truthy (employeeName (req_body req)))
           || negb (JS.truthy (description (req_body req)))) with true; [reflexivity|].
  symmetry. destruct H as [H | [H | H]]; rewrite H; simpl;
    repeat rewrite orb_true_r; reflexivity.
Qed.

End Validation.

Lemma submit_requires_fields_witness :
  JS.truthy (businessName (req_body request_no_name)) = false
  /\ submit env0 request_no_name world0
     = (respond 400 (ErrorBody required_msg), world0).
Proof.
  split; [reflexivity|].
  apply submit_requires_fields. left. reflexivity.
Defined.

(** C1 as stated fails: a business name that is a single space is empty
    after trimming, yet the submission is answered with 201 and one row is
    inserted. *)
Lemma submit_accepts_blank_name :
  JS.trim " " = ""
  /\ businessName (req_body request_blank_name) = JS.Str " "
  /\ status (fst (submit env0 request_blank_name world0)) = 201
  /\ List.length (insert_calls (log (snd (submit env0 request_blank_name world0)))) = 1%nat.
Proof. repeat split. Qed.

(* ------------------------------------------------------------------ *)
(** ** Running the remote calls *)

Lemma try_catch_bind {A} (m : M A) (k : A -> M HttpResponse)
  (h : string -> HttpResponse) (w : World) :
  try_catch (bind m k) h w =
  match m w with
  | (Ok a, w') => try_catch (k a) h w'
  | (Thrown e, w') => (h e, w')
  end.
Proof. unfold try_catch, bind. destruct (m w) as [[a|e] w']; reflexivity. Qed.

Lemma bind_run {A B} (m : M A) (k : A -> M B) (w : World) :
  bind m k w =
  match m w with
  | (Ok a, w') => k a w'
  | (Thrown e, w') => (Thrown e, w')
  end.
Proof. reflexivity. Qed.

Lemma remote_run {A} (e : Event) (normal : M (Response A)) (w : World) :
  remote e normal w =
  match hd Normal (script w) with
  | Normal => normal (popped (logged e w))
  | Fails m => (Ok (mkResponse None (Some m)), popped (logged e w))
  | Throws m => (Thrown m, popped (logged e w))
  end.
Proof.
  unfold remote, bind, emit, next_outcome. simpl.
  destruct (hd Normal (script w)); reflexivity.
Qed.

Lemma select_single_run (id : string) (w : World) :
  select_single id w =
  match hd Normal (script w) with
  | Normal =>
      (Ok match filter (has_id id) (table w) with
          | [c] => mkResponse (Some c) None
          | _ => mkResponse None
                   (Some "JSON object requested, multiple (or no) rows returned")
          end,
       popped (logged (EvSelectSingle id) w))
  | Fails m => (Ok (mkResponse None (Some m)), popped (logged (EvSelectSingle id) w))
  | Throws m => (Thrown m, popped (logged (EvSelectSingle id) w))
  end.
Proof.
  unfold select_single. rewrite remote_run.
  destruct (hd Normal (script w)); try reflexivity.
  unfold bind, get. simpl.
  destruct (filter (has_id id) (table w)) as [|c [|d l]]; reflexivity.
Qed.

Lemma delete_row_run (id : string) (w : World) :
  delete_row id w =
  match hd Normal (script w) with
  | Normal =>
      (Ok (mkResponse None None),
       with_table (filter (fun c => negb (has_id id c)) (table w))
                  (popped (logged (EvDeleteRow id) w)))
  | Fails m => (Ok (mkResponse None (Some m)), popped (logged (EvDeleteRow id) w))
  | Throws m => (Thrown m, popped (logged (EvDeleteRow id) w))
  end.
Proof.
  unfold delete_row. rewrite remote_run.
  destruct (hd Normal (script w)); reflexivity.
Qed.

Lemma storage_remove_run (paths : list string) (w : World) :
  storage_remove paths w =
  match hd Normal (script w) with
  | Normal =>
      (Ok (mkResponse None None),
       with_bucket (filter (fun o => negb (JS.arr_includes paths o)) (bucket w))
                   (popped (logged (EvRemove paths) w)))
  | Fails m => (Ok (mkResponse None (Some m)), popped (logged (EvRemove paths) w))
  | Throws m => (Thrown m, popped (logged (EvRemove paths) w))
  end.
Proof.
  unfold storage_remove. rewrite remote_run.
  destruct (hd Normal (script w)); reflexivity.
Qed.

Lemma outcome_at_0 (w : World) : hd Normal (script w) = outcome_at w 0.
Proof. unfold outcome_at. now destruct (script w). Qed.

Lemma outcome_at_1 (w : World) : hd Normal (tl (script w)) = outcome_at w 1.
Proof. unfold outcome_at. now destruct (script w) as [|a [|b l]]. Qed.

Lemma outcome_at_2 (w : World) : hd Normal (tl (tl (script w))) = outcome_at w 2.
Proof. unfold outcome_at. now destruct (script w) as [|a [|b [|c l]]]. Qed.

(** The two handlers build the same list of paths: the storage path of
    every image URL of the card. *)
Lemma imagesToDelete_urls (card : Card.t) :
  imagesToDelete card = map urlToStoragePath (image_urls card).
Proof.
  unfold imagesToDelete, image_urls, cover_paths. rewrite map_app. f_equal.
  - destruct (Card.cover_image_url card) as [u|]; [|reflexivity].
    destruct (u =? "")%string; reflexivity.
  - destruct (Card.product_image_urls card) as [[|u l]|]; reflexivity.
Qed.

Lemma imagesToDelete_expired_urls (card : Card.t) :
  imagesToDelete_expired card = map urlToStoragePath (image_urls card).
Proof.
  unfold imagesToDelete_expired, image_urls, cover_paths. rewrite map_app. f_equal.
  - destruct (Card.cover_image_url card) as [u|]; [|reflexivity].
    destruct (u =? "")%string; reflexivity.
  - destruct (Card.product_image_urls card) as [l|]; reflexivity.
Qed.

Lemma remove_images_nil (w : World) : remove_images [] w = (Ok tt, w).
Proof. reflexivity. Qed.

Lemma remove_images_cons (p : string) (paths : list string) (w : World) :
  remove_images (p :: paths) w =
  match hd Normal (script w) with
  | Normal =>
      (Ok tt,
       with_bucket (filter (fun o => negb (JS.arr_includes (p :: paths) o)) (bucket w))
                   (popped (logged (EvRemove (p :: paths)) w)))
  | Fails m => (Ok tt, popped (logged (EvRemove (p :: paths)) w))
  | Throws m => (Thrown m, popped (logged (EvRemove (p :: paths)) w))
  end.
Proof.
  unfold remove_images. cbn [List.length Nat.ltb Nat.leb].
  rewrite bind_run, storage_remove_run.
  destruct (hd Normal (script w)); reflexivity.
Qed.

(* ------------------------------------------------------------------ *)
(** ** [DELETE /cards/:id] *)

(** When no row has the id, [.single()] answers with an error, which the
    handler throws before it tests [!card]. *)
Lemma delete_one_absent (id : string) (w : World) :
  outcome_at w 0 = Normal ->
  filter (has_id id) (table w) = [] ->
  delete_one id w = (delete_failed, popped (logged (EvSelectSingle id) w)).
Proof.
  intros H0 Hf. unfold delete_one.
  rewrite try_catch_bind, select_single_run, outcome_at_0, H0, Hf.
  reflexivity.
Qed.

(** The handler never answers 404. *)
Lemma delete_one_never_404 (id : string) (w : World) :
  status (fst (delete_one id w)) <> 404.
Proof.
  unfold delete_one.
  rewrite try_catch_bind, select_single_run.
  destruct (hd Normal (script w)); [|simpl; discriminate..].
  destruct (filter (has_id id) (table w)) as [|c [|d l]]; [simpl; discriminate| |simpl; discriminate].
  rewrite try_catch_bind. cbn [throw_if_error error ret data].
  rewrite try_catch_bind.
  destruct (remove_images (imagesToDelete c) _) as [[[]|e] w1]; [|simpl; discriminate].
  rewrite try_catch_bind, delete_row_run.
  destruct (hd Normal (script w1)); simpl; discriminate.
Qed.

(** C2, at [DELETE /cards/999] on a table without such a row: the answer is
    500 with [{error: "Failed to delete card"}], not 404; nothing is
    removed from storage and no row is deleted. *)
Theorem delete_one_unknown_id :
  filter (has_id "999") (table world0) = []
  /\ fst (delete_one "999" world0) = delete_failed
  /\ log (snd (delete_one "999" world0)) = [EvSelectSingle "999"]
  /\ remove_calls (log (snd (delete_one "999" world0))) = []
  /\ delete_calls (log (snd (delete_one "999" world0))) = [].
Proof.
  split; [reflexivity|].
  rewrite (delete_one_absent "999" world0 eq_refl eq_refl).
  repeat split.
Qed.

(** C3, as amended.  For an existing card with at least one image URL the
    handler issues one batch delete that lists the storage path of every
    image URL, cover first.  If that call throws, the answer is 500, the
    row is not deleted and no delete is sent to the database; otherwise the
    row delete follows the batch delete.  For a card without image URLs no
    storage call is made and the row delete follows the fetch. *)
Theorem delete_one_existing (id : string) (w : World) (card : Card.t) :
  outcome_at w 0 = Normal ->
  filter (has_id id) (table w) = [card] ->
  let paths := map urlToStoragePath (image_urls card) in
  let r := delete_one id w in
  List.length paths = List.length (image_urls card)
  /\ (image_urls card = [] ->
      log (snd r) = log w ++ [EvSelectSingle id; EvDeleteRow id])
  /\ (image_urls card <> [] ->
      (forall m, outcome_at w 1 = Throws m ->
         fst r = delete_failed
         /\ log (snd r) = log w ++ [EvSelectSingle id; EvRemove paths]
         /\ table (snd r) = table w)
      /\ (no_throw (outcome_at w 1) = true ->
          log (snd r) = log w ++ [EvSelectSingle id; EvRemove paths; EvDeleteRow id]
          /\ (outcome_at w 2 = Normal ->
              fst r = respond 200 SuccessBody
              /\ table (snd r) = filter (fun c => negb (has_id id c)) (table w)))).
Proof.
  intros H0 Hf paths r.
  assert (r = try_catch
                (remove_images paths ;;;
                 d <- delete_row id ;;
                 throw_if_error d ;;;
                 ret (respond 200 SuccessBody))
                (fun _ => delete_failed)
                (popped (logged (EvSelectSingle id) w))) as Hr.
  { subst r paths. unfold delete_one.
    rewrite try_catch_bind, select_single_run, outcome_at_0, H0, Hf.
    rewrite <- imagesToDelete_urls. reflexivity. }
  split; [apply length_map|]. split.
  - intros He. subst paths. rewrite He in Hr. simpl map in Hr.
    rewrite try_catch_bind, remove_images_nil, try_catch_bind, delete_row_run in Hr.
    rewrite Hr. destruct (hd Normal _); simpl; rewrite <- app_assoc; reflexivity.
  - intros Hne. destruct paths as [|p ps] eqn:Ep.
    { destruct (image_urls card); [now contradiction Hne | discriminate]. }
    rewrite try_catch_bind, remove_images_cons in Hr.
    change (hd Normal (script (popped (logged (EvSelectSingle id) w))))
      with (hd Normal (tl (script w))) in Hr.
    rewrite outcome_at_1 in Hr. split.
    + intros m Hm. rewrite Hm in Hr. rewrite Hr. simpl.
      rewrite <- app_assoc. repeat split.
    + intros Hnt. rewrite Hr.
      destruct (outcome_at w 1) eqn:E1; [| |discriminate];
        rewrite try_catch_bind, delete_row_run;
        match goal with
        | |- context [hd Normal (script ?x)] =>
            change (hd Normal (script x)) with (hd Normal (tl (tl (script w))))
        end;
        rewrite outcome_at_2;
        (split; [destruct (outcome_at w 2); simpl; rewrite <- !app_assoc; reflexivity
                | intros ->; simpl; split; reflexivity]).
Qed.

Lemma delete_one_existing_witness :
  outcome_at world0 0 = Normal
  /\ filter (has_id "8") (table world0) = [card_full]
  /\ List.length (image_urls card_full) = 3%nat
  /\ log (snd (delete_one "8" world0))
     = [EvSelectSingle "8";
        EvRemove ["10-aaaaaaa.png"; "11-bbbbbbb.jpg"; "12-ccccccc.jpg"];
        EvDeleteRow "8"]
  /\ fst (delete_one "8" world0) = respond 200 SuccessBody.
Proof.
  split; [reflexivity|]. split; [reflexivity|]. split; [reflexivity|].
  destruct (delete_one_existing "8" world0 card_full eq_refl eq_refl)
    as (_ & _ & H).
  destruct (H ltac:(discriminate)) as (_ & H').
  destruct (H' eq_refl) as (Hlog & Hok).
  split; [exact Hlog | exact (proj1 (Hok eq_refl))].
Defined.

(** C3 as stated fails for a card without images: the card exists, it is
    deleted, and no batch delete is issued at all. *)
Lemma delete_one_no_images_no_storage_call :
  filter (has_id "7") (table world0) = [card_plain]
  /\ image_urls card_plain = []
  /\ fst (delete_one "7" world0) = respond 200 SuccessBody
  /\ remove_calls (log (snd (delete_one "7" world0))) = []
  /\ List.length (remove_calls (log (snd (delete_one "7" world0)))) <> 1%nat.
Proof. repeat split. vm_compute. discriminate. Qed.

(* ------------------------------------------------------------------ *)
(** ** [DELETE /cards/cleanup/expired] *)

Lemma forallb_tl {A} (f : A -> bool) (l : list A) :
  forallb f l = true -> forallb f (tl l) = true.
Proof. destruct l as [|a l]; simpl; [trivial|]. intros H. now apply andb_true_iff in H. Qed.

Lemma forallb_hd (f : Outcome -> bool) (l : list Outcome) :
  f Normal = true -> forallb f l = true -> f (hd Normal l) = true.
Proof. destruct l as [|a l]; simpl; [trivial|]. intros _ H. now apply andb_true_iff in H. Qed.

Lemma is_normal_no_throw (l : list Outcome) :
  forallb is_normal l = true -> forallb no_throw l = true.
Proof.
  induction l as [|o l IH]; simpl; [trivial|].
  intros H. apply andb_true_iff in H as [Ho Hl].
  destruct o; try discriminate. simpl. now apply IH.
Qed.

(** Without a throw the image step completes, whatever the storage
    service answers. *)
Lemma remove_images_no_throw (paths : list string) (w : World) :
  forallb no_throw (script w) = true ->
  exists w', remove_images paths w = (Ok tt, w')
             /\ log w' = log w ++ remove_events paths
             /\ forallb no_throw (script w') = true.
Proof.
  intros H. destruct paths as [|p ps].
  - exists w. rewrite remove_images_nil. simpl. now rewrite app_nil_r.
  - rewrite remove_images_cons.
    pose proof (forallb_hd no_throw _ eq_refl H) as Hh.
    apply forallb_tl in H.
    destruct (hd Normal (script w)); [| |discriminate];
      eexists; (split; [reflexivity|]); split; [reflexivity | exact H | reflexivity | exact H].
Qed.

(** Without a throw the row delete completes, whatever the database
    answers. *)
Lemma delete_row_no_throw (id : string) (w : World) :
  forallb no_throw (script w) = true ->
  exists r w', delete_row id w = (Ok r, w')
               /\ log w' = log w ++ [EvDeleteRow id]
               /\ forallb no_throw (script w') = true.
Proof.
  intros H. rewrite delete_row_run.
  pose proof (forallb_hd no_throw _ eq_refl H) as Hh.
  apply forallb_tl in H.
  destruct (hd Normal (script w)); [| |discriminate];
    eexists; eexists; (split; [reflexivity|]); split; [reflexivity | exact H | reflexivity | exact H].
Qed.

Lemma card_calls_eq (card : Card.t) :
  card_calls card
  = remove_events (imagesToDelete_expired card) ++ [EvDeleteRow (Card.id card)].
Proof. rewrite imagesToDelete_expired_urls. reflexivity. Qed.

(** The loop visits the cards in order and counts every one of them. *)
Lemma cleanup_loop_no_throw (cards : list Card.t) :
  forall (n : nat) (w : World),
    forallb no_throw (script w) = true ->
    exists w', cleanup_loop cards n w = (Ok (n + List.length cards)%nat, w')
               /\ log w' = log w ++ flat_map card_calls cards.
Proof.
  induction cards as [|card cards IH]; intros n w H.
  - exists w. simpl. unfold ret. rewrite Nat.add_0_r, app_nil_r. now split.
  - cbn [cleanup_loop]. rewrite bind_run.
    destruct (remove_images_no_throw (imagesToDelete_expired card) w H)
      as (w1 & -> & Hl1 & H1).
    rewrite bind_run.
    destruct (delete_row_no_throw (Card.id card) w1 H1) as (r & w2 & -> & Hl2 & H2).
    destruct (IH (S n) w2 H2) as (w3 & -> & Hl3).
    exists w3. split; [f_equal; f_equal; simpl; lia|].
    rewrite Hl3, Hl2, Hl1. cbn [flat_map]. rewrite card_calls_eq, <- !app_assoc.
    reflexivity.
Qed.

(** When every call answers with an error value, no row is removed. *)
Lemma cleanup_loop_all_fail (cards : list Card.t) :
  forall (n : nat) (w : World),
    forallb is_fails (script w) = true ->
    (2 * List.length cards <= List.length (script w))%nat ->
    table (snd (cleanup_loop cards n w)) = table w
    /\ bucket (snd (cleanup_loop cards n w)) = bucket w.
Proof.
  induction cards as [|card cards IH]; intros n w H Hlen; [now split|].
  cbn [cleanup_loop]. rewrite bind_run.
  destruct (script w) as [|o1 [|o2 sc]] eqn:Es; [simpl in Hlen; lia | simpl in Hlen; lia|].
  simpl in H. apply andb_true_iff in H as [Ho1 H].
  apply andb_true_iff in H as [Ho2 H].
  destruct o1 as [|m1|m1]; try discriminate. destruct o2 as [|m2|m2]; try discriminate.
  destruct (imagesToDelete_expired card) as [|p ps].
  - rewrite remove_images_nil, bind_run, delete_row_run, Es. cbn [hd].
    destruct (IH (S n) (popped (logged (EvDeleteRow (Card.id card)) w))) as [Ht Hb].
    + simpl. rewrite Es. simpl. now rewrite H.
    + simpl. rewrite Es. simpl in *. lia.
    + now rewrite Ht, Hb.
  - rewrite remove_images_cons, Es. cbn [hd].
    rewrite bind_run, delete_row_run. simpl script. rewrite Es. cbn [hd tl].
    match goal with
    | |- context [cleanup_loop cards (S n) ?x] =>
        destruct (IH (S n) x) as [Ht Hb]
    end.
    + simpl. rewrite Es. exact H.
    + simpl. rewrite Es. simpl in *. lia.
    + now rewrite Ht, Hb.
Qed.

Lemma select_expired_run (w : World) :
  outcome_at w 0 = Normal ->
  select_expired (now w) w
  = (Ok (mkResponse (Some (filter (fun c => Card.expires_at c <? now w) (table w))) None),
     popped (logged (EvSelectExpired (now w)) w)).
Proof.
  intros H. unfold select_expired. rewrite remote_run, outcome_at_0, H. reflexivity.
Qed.

Lemma cleanup_expired_run (w : World) :
  outcome_at w 0 = Normal ->
  cleanup_expired w
  = try_catch
      (deletedCount <- cleanup_loop
                         (filter (fun c => Card.expires_at c <? now w) (table w)) 0 ;;
       ret (respond 200 (DeletedBody deletedCount)))
      (fun _ => respond 500 (ErrorBody "Cleanup failed"))
      (popped (logged (EvSelectExpired (now w)) w)).
Proof.
  intros H. unfold cleanup_expired.
  rewrite try_catch_bind. unfold get at 1. cbv beta.
  rewrite try_catch_bind, (select_expired_run w H). reflexivity.
Qed.

(** As long as no call throws, the cleanup answers with the number of
    cards it went through. *)
Lemma cleanup_expired_counts (w : World) :
  outcome_at w 0 = Normal ->
  forallb no_throw (tl (script w)) = true ->
  exists w',
    cleanup_loop (filter (fun c => Card.expires_at c <? now w) (table w)) 0
                 (popped (logged (EvSelectExpired (now w)) w))
    = (Ok (List.length (filter (fun c => Card.expires_at c <? now w) (table w))), w')
    /\ cleanup_expired w
       = (respond 200
            (DeletedBody (List.length (filter (fun c => Card.expires_at c <? now w) (table w)))),
          w')
    /\ log w' = log w ++ EvSelectExpired (now w)
                  :: flat_map card_calls (filter (fun c => Card.expires_at c <? now w) (table w)).
Proof.
  intros H0 Hnt. rewrite (cleanup_expired_run w H0), try_catch_bind.
  destruct (cleanup_loop_no_throw
              (filter (fun c => Card.expires_at c <? now w) (table w)) 0
              (popped (logged (EvSelectExpired (now w)) w)) Hnt)
    as (w' & Hrun & Hlog).
  exists w'. rewrite Hrun. repeat split.
  rewrite Hlog. simpl. now rewrite <- app_assoc.
Qed.

(** C9.  Once the expired cards have been fetched, and as long as no call
    throws, the cleanup answers 200 with [deleted] equal to the number of
    cards it went through, whatever the storage removes and the row deletes
    answer.  When each of them answers with an error value, no row and no
    stored object is removed, and the count is the same. *)
Theorem cleanup_expired_ignores_errors (w : World) :
  outcome_at w 0 = Normal ->
  forallb no_throw (tl (script w)) = true ->
  let expired := filter (fun c => Card.expires_at c <? now w) (table w) in
  let r := cleanup_expired w in
  fst r = respond 200 (DeletedBody (List.length expired))
  /\ log (snd r) = log w ++ EvSelectExpired (now w) :: flat_map card_calls expired
  /\ (forallb is_fails (tl (script w)) = true ->
      (2 * List.length expired <= List.length (tl (script w)))%nat ->
      table (snd r) = table w /\ bucket (snd r) = bucket w).
Proof.
  intros H0 Hnt expired r. subst r.
  destruct (cleanup_expired_counts w H0 Hnt) as (w' & Hrun & -> & Hlog).
  fold expired in Hrun, Hlog |- *.
  split; [reflexivity|]. split; [exact Hlog|].
  intros Hf Hlen.
  pose proof (cleanup_loop_all_fail expired 0
                (popped (logged (EvSelectExpired (now w)) w)) Hf Hlen) as [Ht Hb].
  rewrite Hrun in Ht, Hb. simpl in *. now split.
Qed.

Lemma cleanup_expired_ignores_errors_witness :
  outcome_at world_failing 0 = Normal
  /\ forallb is_fails (tl (script world_failing)) = true
  /\ fst (cleanup_expired world_failing) = respond 200 (DeletedBody 2)
  /\ table (snd (cleanup_expired world_failing)) = [card_plain; card_full; card_old].
Proof.
  split; [reflexivity|]. split; [reflexivity|].
  destruct (cleanup_expired_ignores_errors world_failing eq_refl eq_refl)
    as (Hr & _ & Hkeep).
  split; [exact Hr|].
  exact (proj1 (Hkeep eq_refl ltac:(simpl; lia))).
Defined.

Lemma delete_rows_In (cards : list Card.t) :
  forall (t : list Card.t) (x : Card.t),
    In x (delete_rows cards t) <->
    In x t /\ forallb (fun c => negb (has_id (Card.id c) x)) cards = true.
Proof.
  unfold delete_rows.
  induction cards as [|c cards IH]; intros t x; simpl.
  - tauto.
  - rewrite IH, filter_In, andb_true_iff. tauto.
Qed.

(** When every call succeeds, the loop leaves the table without the rows
    it went through. *)
Lemma cleanup_loop_all_normal (cards : list Card.t) :
  forall (n : nat) (w : World),
    forallb is_normal (script w) = true ->
    table (snd (cleanup_loop cards n w)) = delete_rows cards (table w).
Proof.
  induction cards as [|card cards IH]; intros n w H; [reflexivity|].
  cbn [cleanup_loop]. rewrite bind_run.
  assert (forall e, table (snd (cleanup_loop cards (S n)
            (with_table (filter (fun x => negb (has_id (Card.id card) x)) (table w))
                        (popped (logged e w)))))
          = delete_rows (card :: cards) (table w)) as Hdel.
  { intros e. rewrite IH; [reflexivity|]. simpl. now apply forallb_tl. }
  pose proof (forallb_hd is_normal _ eq_refl H) as Hh.
  destruct (imagesToDelete_expired card) as [|p ps].
  - rewrite remove_images_nil, bind_run, delete_row_run.
    destruct (hd Normal (script w)); try discriminate. apply Hdel.
  - rewrite remove_images_cons.
    destruct (hd Normal (script w)); try discriminate.
    rewrite bind_run, delete_row_run.
    pose proof (forallb_hd is_normal _ eq_refl (forallb_tl _ _ H)) as Hh2.
    simpl script.
    destruct (hd Normal (tl (script w))); try discriminate.
    rewrite IH; [reflexivity|]. simpl. now apply forallb_tl, forallb_tl.
Qed.

(** C4.  When every call succeeds, the cleanup goes through the expired
    cards in the order in which the fetch returned them; for each card it
    issues the batch delete of its images, when it has any, and then the
    delete of its row; it answers 200 with [deleted] equal to the number of
    those cards, cards without images included; and none of them is left
    in the table. *)
Theorem cleanup_expired_all_succeed (w : World) :
  forallb is_normal (script w) = true ->
  let expired := filter (fun c => Card.expires_at c <? now w) (table w) in
  let r := cleanup_expired w in
  fst (select_expired (now w) w) = Ok (mkResponse (Some expired) None)
  /\ fst r = respond 200 (DeletedBody (List.length expired))
  /\ log (snd r) = log w ++ EvSelectExpired (now w) :: flat_map card_calls expired
  /\ (forall c, In c expired -> ~ In c (table (snd r))).
Proof.
  intros H expired r. subst r.
  pose proof (forallb_hd is_normal _ eq_refl H) as H0.
  rewrite outcome_at_0 in H0.
  assert (outcome_at w 0 = Normal) as H0' by (destruct (outcome_at w 0); now try discriminate).
  destruct (cleanup_expired_counts w H0'
              (is_normal_no_throw _ (forallb_tl _ _ H))) as (w' & Hrun & -> & Hlog).
  fold expired in Hrun, Hlog |- *.
  split; [now rewrite (select_expired_run w H0')|].
  split; [reflexivity|]. split; [exact Hlog|].
  intros c Hc Hin. simpl in Hin.
  pose proof (cleanup_loop_all_normal expired 0
                (popped (logged (EvSelectExpired (now w)) w))
                (forallb_tl _ _ H)) as Ht.
  rewrite Hrun in Ht. simpl in Ht. rewrite Ht in Hin.
  apply delete_rows_In in Hin as [_ Hall].
  rewrite forallb_forall in Hall. specialize (Hall c Hc).
  unfold has_id in Hall. rewrite String.eqb_refl in Hall. discriminate.
Qed.

Lemma cleanup_expired_all_succeed_witness :
  forallb is_normal (script world0) = true
  /\ fst (cleanup_expired world0) = respond 200 (DeletedBody 2)
  /\ log (snd (cleanup_expired world0))
     = [EvSelectExpired 2000;
        EvRemove ["10-aaaaaaa.png"; "11-bbbbbbb.jpg"; "12-ccccccc.jpg"];
        EvDeleteRow "8"; EvDeleteRow "9"].
Proof.
  split; [reflexivity|].
  destruct (cleanup_expired_all_succeed world0 eq_refl) as (_ & Hr & Hlog & _).
  split; [exact Hr | exact Hlog].
Defined.

(* ------------------------------------------------------------------ *)
(** ** [POST /polish] *)

Section Polish.

Variable env : Env.

Lemma description_missing_str (s : string) (w : World) :
  description_missing (JS.Str s) w = (Ok (all_whitespace s), w).
Proof.
  unfold description_missing. destruct (JS.truthy (JS.Str s)) eqn:E; simpl.
  - unfold bind, ret. simpl. rewrite <- (negb_involutive (all_whitespace s)).
    rewrite <- trim_truthy. reflexivity.
  - destruct s; [reflexivity | discriminate].
Qed.

(** What the handler does once the description and the credential have
    passed: it calls the endpoint once and answers from its reply. *)
Lemma polish_upstream (s : string) (w : World) :
  all_whitespace s = false ->
  api_key_missing env = false ->
  polish env (JS.Str s) w
  = (match upstream w with
     | Reply true _ (Some (JS.Str t)) => respond 200 (PolishedBody (JS.trim t))
     | _ => polish_failed
     end,
     logged (EvFetch (authorization env) (polish_prompt s)) w).
Proof.
  intros Hs Hk. unfold polish.
  rewrite try_catch_bind, description_missing_str, Hs, Hk.
  rewrite try_catch_bind. unfold fetch_completion.
  rewrite bind_run. unfold emit. rewrite bind_run. unfold get.
  cbn [upstream logged].
  destruct (upstream w) as [|[|] code [[| | | |t|]|]]; reflexivity.
Qed.

Lemma not_blank_str (s : string) :
  ~ blank_description (JS.Str s) -> all_whitespace s = false.
Proof.
  intros H. destruct (all_whitespace s) eqn:E; [|reflexivity].
  exfalso. apply H. right. now exists s.
Qed.

(** C6.  A description that is missing, [null], empty or made of white
    space only is answered with 400 and [{error: "Description is
    required"}], and the world is left as it was: no request goes out.
    For any other description a missing credential is answered with 500,
    again without any request.  Past both tests one request goes out; if
    [fetch] rejects or the response is not [ok], the answer is 500; if the
    response is [ok] and carries a text, the answer is 200 with that text,
    trimmed and otherwise unchanged. *)
Theorem polish_spec :
  (forall (text : JS.value) (w : World),
      text = JS.Undefined \/ text = JS.Null \/ blank_description text ->
      polish env text w = (respond 400 (ErrorBody "Description is required"), w))
  /\ (forall (text : JS.value) (w : World),
         ~ blank_description text ->
         api_key_missing env = true ->
         status (fst (polish env text w)) = 500
         /\ snd (polish env text w) = w
         /\ (forall s, text = JS.Str s ->
                       fst (polish env text w)
                       = respond 500 (ErrorBody "AI service not configured")))
  /\ (forall (s : string) (w : World),
         ~ blank_description (JS.Str s) ->
         api_key_missing env = false ->
         upstream w = NetworkError
         \/ (exists code content, upstream w = Reply false code content) ->
         fst (polish env (JS.Str s) w) = polish_failed
         /\ fetch_calls (log (snd (polish env (JS.Str s) w)))
            = fetch_calls (log w) ++ [polish_prompt s])
  /\ (forall (s t : string) (code : N) (w : World),
         ~ blank_description (JS.Str s) ->
         api_key_missing env = false ->
         upstream w = Reply true code (Some (JS.Str t)) ->
         fst (polish env (JS.Str s) w) = respond 200 (PolishedBody (JS.trim t))).
Proof.
  assert (forall l e, fetch_calls (l ++ [e]) = fetch_calls l ++ fetch_calls [e]) as Happ.
  { induction l as [|x l IH]; intros e; [now rewrite app_nil_l|].
    destruct x; simpl; rewrite ?IH; reflexivity. }
  split; [|split; [|split]].
  - intros text w [-> | [-> | [Hf | (s & -> & Hs)]]]; try reflexivity.
    + unfold polish, description_missing. now rewrite try_catch_bind, Hf.
    + unfold polish. now rewrite try_catch_bind, description_missing_str, Hs.
  - intros text w Hnb Hk.
    destruct text as [| |[|]|n|s|];
      try (exfalso; apply Hnb; left; reflexivity);
      try (repeat split; discriminate).
    + destruct (Z.eqb_spec n 0) as [->|Hn]; [exfalso; apply Hnb; now left|].
      unfold polish, description_missing. simpl JS.truthy.
      replace (n =? 0) with false by (symmetry; now apply Z.eqb_neq).
      repeat split. discriminate.
    + apply not_blank_str in Hnb. unfold polish.
      rewrite try_catch_bind, description_missing_str, Hnb, Hk. repeat split.
  - intros s w Hs Hk Hu. apply not_blank_str in Hs.
    rewrite (polish_upstream s w Hs Hk). split.
    + destruct Hu as [-> | (code & content & ->)]; reflexivity.
    + simpl. now rewrite Happ.
  - intros s t code w Hs Hk Hu. apply not_blank_str in Hs.
    rewrite (polish_upstream s w Hs Hk), Hu. reflexivity.
Qed.

End Polish.

Lemma polish_spec_witness :
  polish env0 (JS.Str "") world0
  = (respond 400 (ErrorBody "Description is required"), world0)
  /\ fst (polish env_no_key (JS.Str "Great stuff") world0)
     = respond 500 (ErrorBody "AI service not configured")
  /\ snd (polish env_no_key (JS.Str "Great stuff") world0) = world0
  /\ fst (polish env0 (JS.Str "Great stuff") (with_upstream (Reply false 429 None) world0))
     = polish_failed
  /\ fst (polish env0 (JS.Str "Great stuff") world0)
     = respond 200 (PolishedBody "Polished text.").
Proof.
  assert (~ blank_description (JS.Str "Great stuff")) as Hnb.
  { intros [H | (s & H & Hs)]; [discriminate|].
    injection H as <-. discriminate. }
  destruct (polish_spec env0) as (H1 & _ & H3 & H4).
  destruct (polish_spec env_no_key) as (_ & H2 & _).
  split; [apply H1; right; right; left; reflexivity|].
  destruct (H2 (JS.Str "Great stuff") world0 Hnb eq_refl) as (_ & Hw & Hb).
  split; [exact (Hb _ eq_refl)|]. split; [exact Hw|].
  split.
  - apply (H3 "Great stuff" (with_upstream (Reply false 429 None) world0) Hnb eq_refl).
    right. exists 429%N, None. reflexivity.
  - exact (H4 "Great stuff" "  Polished text. " 200%N world0 Hnb eq_refl eq_refl).
Defined.

(* ------------------------------------------------------------------ *)
(** ** [GET /cards] *)

Lemma insert_desc_perm (c : Card.t) (l : list Card.t) :
  Permutation (insert_desc c l) (c :: l).
Proof.
  induction l as [|d l IH]; simpl; [apply Permutation_refl|].
  destruct (Card.created_at d <=? Card.created_at c).
  - apply Permutation_refl.
  - apply perm_trans with (d :: c :: l); [now apply perm_skip | apply perm_swap].
Qed.

Lemma order_created_desc_perm (l : list Card.t) :
  Permutation (order_created_desc l) l.
Proof.
  induction l as [|c l IH]; simpl; [apply perm_nil|].
  apply perm_trans with (c :: order_created_desc l);
    [apply insert_desc_perm | now apply perm_skip].
Qed.

Lemma insert_desc_sorted (c : Card.t) (l : list Card.t) :
  StronglySorted newest_first l -> StronglySorted newest_first (insert_desc c l).
Proof.
  induction l as [|d l IH]; intros Hs; simpl.
  - constructor; constructor.
  - inversion Hs as [|? ? Hl Hd]; subst.
    destruct (Z.leb_spec (Card.created_at d) (Card.created_at c)) as [Hle|Hgt].
    + constructor; [exact Hs|]. constructor; [exact Hle|].
      eapply Forall_impl; [|exact Hd]. unfold newest_first. intros x Hx. lia.
    + constructor; [now apply IH|].
      apply (Permutation_Forall (Permutation_sym (insert_desc_perm c l))).
      constructor; [unfold newest_first; lia | exact Hd].
Qed.

Lemma order_created_desc_sorted (l : list Card.t) :
  StronglySorted newest_first (order_created_desc l).
Proof.
  induction l as [|c l IH]; simpl; [constructor | now apply insert_desc_sorted].
Qed.

(** C7.  When the query succeeds, [GET /cards] answers 200 with the rows
    whose [expires_at] is later than the time of the call, each as often as
    the table holds it, newest [created_at] first; no row that expires at
    or before the time of the call is among them. *)
Theorem list_active_spec (w : World) :
  outcome_at w 0 = Normal ->
  exists cards,
    fst (list_active w) = respond 200 (CardsBody cards)
    /\ Permutation cards (filter (fun c => Card.expires_at c >? now w) (table w))
    /\ (forall c, In c cards <-> In c (table w) /\ now w < Card.expires_at c)
    /\ (forall c, In c cards -> ~ Card.expires_at c <= now w)
    /\ StronglySorted newest_first cards.
Proof.
  intros H0.
  exists (order_created_desc (filter (fun c => Card.expires_at c >? now w) (table w))).
  assert (forall c,
             In c (order_created_desc
                     (filter (fun c => Card.expires_at c >? now w) (table w)))
             <-> In c (table w) /\ now w < Card.expires_at c) as Hin.
  { intros c. split; intros H.
    - apply (Permutation_in _ (order_created_desc_perm _)), filter_In in H.
      destruct H as [H1 H2]. apply Z.gtb_lt in H2. now split.
    - apply (Permutation_in _ (Permutation_sym (order_created_desc_perm _))), filter_In.
      destruct H as [H1 H2]. apply Z.gtb_lt in H2. now split. }
  split; [|split; [|split; [|split]]].
  - unfold list_active. rewrite try_catch_bind. unfold get at 1. cbv beta.
    rewrite try_catch_bind. unfold select_active.
    rewrite remote_run, outcome_at_0, H0. reflexivity.
  - apply order_created_desc_perm.
  - exact Hin.
  - intros c Hc. apply Hin in Hc. lia.
  - apply order_created_desc_sorted.
Qed.

Lemma list_active_spec_witness :
  outcome_at world0 0 = Normal
  /\ exists cards,
       fst (list_active world0) = respond 200 (CardsBody cards)
       /\ Permutation cards [card_plain]
       /\ (forall c, In c cards <-> In c (table world0) /\ 2000 < Card.expires_at c)
       /\ (forall c, In c cards -> ~ Card.expires_at c <= 2000)
       /\ StronglySorted newest_first cards.
Proof.
  split; [reflexivity|].
  exact (list_active_spec world0 eq_refl).
Defined.

(* ------------------------------------------------------------------ *)
(** ** The upload middleware in front of [POST /cards] *)

Lemma lookup_update_same {A} (k : string) (v : A) (m : list (string * A)) :
  lookup k (update k v m) = Some v.
Proof.
  induction m as [|[k' v'] m IH]; simpl.
  - now rewrite String.eqb_refl.
  - destruct (k' =? k)%string eqn:E; simpl.
    + now rewrite String.eqb_refl.
    + now rewrite E.
Qed.

Lemma lookup_update_other {A} (k k' : string) (v : A) (m : list (string * A)) :
  k <> k' -> lookup k (update k' v m) = lookup k m.
Proof.
  intros Hne. apply not_eq_sym, String.eqb_neq in Hne.
  induction m as [|[k0 v0] m IH]; simpl.
  - now rewrite Hne.
  - destruct (k0 =? k')%string eqn:E; simpl.
    + apply String.eqb_eq in E. subst k0. now rewrite Hne.
    + destruct (k0 =? k)%string; [reflexivity | exact IH].
Qed.

Lemma allowed_lower (t : string) : In t allowed -> JS.toLowerCase t = t.
Proof. intros [<- | [<- | [<- | []]]]; reflexivity. Qed.

(** [fileFilter] accepts exactly the types that are one of the three
    allowed ones up to case. *)
Lemma fileFilter_accepts (f : File) :
  fileFilter f = None <->
  exists t, In t allowed /\ caseless_eq (mimetype f) t.
Proof.
  unfold fileFilter, JS.arr_includes, caseless_eq.
  destruct (existsb (String.eqb (JS.toLowerCase (mimetype f))) allowed) eqn:E.
  - split; [intros _ | reflexivity].
    apply existsb_exists in E as (t & Ht & Heq). apply String.eqb_eq in Heq.
    exists t. split; [exact Ht|]. now rewrite (allowed_lower t Ht).
  - split; [discriminate|]. intros (t & Ht & Heq). exfalso.
    rewrite (allowed_lower t Ht) in Heq.
    assert (existsb (String.eqb (JS.toLowerCase (mimetype f))) allowed = true) as E'.
    { apply existsb_exists. exists t. split; [exact Ht|]. now apply String.eqb_eq. }
    congruence.
Qed.

(** A file of a wrong type or above the size limit makes the middleware
    fail, wherever it stands in the request. *)
Lemma multer_rejects_file (incoming : list File) :
  forall (filesLeft : list (string * nat)) (files : list (string * list File)),
    (exists f, In f incoming /\ (fileFilter f <> None \/ (fileSize < size f)%N)) ->
    exists e, multer filesLeft files incoming = inl e.
Proof.
  induction incoming as [|f0 rest IH]; intros filesLeft files (f & Hin & Hbad).
  - destruct Hin.
  - simpl. destruct (lookup (fieldname f0) filesLeft) as [[|n]|]; try (eexists; reflexivity).
    destruct (fileFilter f0) as [m|] eqn:Ef; [eexists; reflexivity|].
    destruct (N.leb_spec fileSize (size f0)) as [Hle|Hgt]; [eexists; reflexivity|].
    apply IH. destruct Hin as [<- | Hin].
    + exfalso. destruct Hbad as [Hbad | Hbad]; [now apply Hbad | lia].
    + now exists f.
Qed.

(** More files for [productImages] than the field has left make the
    middleware fail. *)
Lemma multer_rejects_count (incoming : list File) :
  forall (filesLeft : list (string * nat)) (files : list (string * list File)) (n : nat),
    lookup "productImages" filesLeft = Some n ->
    (n < List.length (filter is_product_image incoming))%nat ->
    exists e, multer filesLeft files incoming = inl e.
Proof.
  induction incoming as [|f0 rest IH]; intros filesLeft files n Hl Hn.
  - simpl in Hn. lia.
  - simpl. simpl in Hn. unfold is_product_image at 1 in Hn.
    destruct (String.eqb_spec (fieldname f0) "productImages") as [Heq|Hne].
    + rewrite Heq, Hl. destruct n as [|n]; [eexists; reflexivity|].
      destruct (fileFilter f0); [eexists; reflexivity|].
      destruct (fileSize <=? size f0)%N; [eexists; reflexivity|].
      apply (IH _ _ n); [apply lookup_update_same | simpl in Hn; lia].
    + destruct (lookup (fieldname f0) filesLeft) as [[|k]|]; try (eexists; reflexivity).
      destruct (fileFilter f0); [eexists; reflexivity|].
      destruct (fileSize <=? size f0)%N; [eexists; reflexivity|].
      apply (IH _ _ n); [|exact Hn].
      rewrite lookup_update_other; [exact Hl | now apply not_eq_sym].
Qed.

Section Uploads.

Variable env : Env.

(** C8.  The file filter accepts the types [image/jpeg], [image/jpg] and
    [image/png], compared without regard to case, and no other.  The size
    limit is 10 MiB.  A multipart request that carries a file of another
    type, a file above the limit, or more than ten product images is
    answered by the error handler; the route handler does not run and the
    world is left as it was, so nothing is uploaded or inserted. *)
Theorem upload_constraints (raw : RawCardsRequest) (incoming : list File) (w : World) :
  parts raw = Some incoming ->
  (forall f, fileFilter f = None <->
             exists t, In t ["image/jpeg"; "image/jpg"; "image/png"]
                       /\ caseless_eq (mimetype f) t)
  /\ fileSize = (10 * 2 ^ 20)%N
  /\ ((exists f, In f incoming /\ fileFilter f <> None)
      \/ (exists f, In f incoming /\ (fileSize < size f)%N)
      \/ (10 < List.length (filter is_product_image incoming))%nat ->
      exists message,
        post_cards env raw w = (respond 500 (UnhandledError message), w)).
Proof.
  intros Hp. split; [exact fileFilter_accepts|]. split; [reflexivity|].
  intros Hbad. unfold post_cards. rewrite Hp.
  assert (exists e, multer upload_fields [] incoming = inl e) as [e ->].
  { destruct Hbad as [(f & Hin & Hf) | [(f & Hin & Hf) | Hn]].
    - apply multer_rejects_file. exists f. split; [exact Hin | now left].
    - apply multer_rejects_file. exists f. split; [exact Hin | now right].
    - now apply (multer_rejects_count incoming upload_fields [] 10%nat). }
  now exists (multer_message e).
Qed.

End Uploads.

Lemma upload_constraints_witness :
  parts request_eleven = Some (repeat (png "productImages") 11)
  /\ (10 < List.length (filter is_product_image (repeat (png "productImages") 11)))%nat
  /\ exists message,
       post_cards env0 request_eleven world0
       = (respond 500 (UnhandledError message), world0).
Proof.
  split; [reflexivity|]. split; [simpl; lia|].
  destruct (upload_constraints env0 request_eleven _ world0 eq_refl) as (_ & _ & H).
  apply H. right. right. simpl. lia.
Defined.

(* ------------------------------------------------------------------ *)
(** ** [POST /cards]: what is inserted *)

Lemma insert_calls_app (l l' : list Event) :
  insert_calls (l ++ l') = insert_calls l ++ insert_calls l'.
Proof.
  induction l as [|e l IH]; [reflexivity|].
  destruct e; simpl; rewrite ?IH; reflexivity.
Qed.

Lemma insert_card_run (d : Draft.t) (w : World) :
  exists w',
    log w' = log w ++ [EvInsert d]
    /\ match hd Normal (script w) with
       | Normal =>
           insert_card d w = (Ok (mkResponse (Some (new_card d w)) None), w')
           /\ table w' = table w ++ [new_card d w]
       | Fails m => insert_card d w = (Ok (mkResponse None (Some m)), w')
       | Throws m => insert_card d w = (Thrown m, w')
       end.
Proof.
  unfold insert_card. rewrite remote_run.
  destruct (hd Normal (script w)); eexists; (split; [|try split; reflexivity]); reflexivity.
Qed.

Section Inserted.

Variable env : Env.

Lemma keeps_bind {A B} (m : M A) (k : A -> M B) :
  keeps_inserts m -> (forall a, keeps_inserts (k a)) -> keeps_inserts (bind m k).
Proof.
  intros Hm Hk w. rewrite bind_run. specialize (Hm w).
  destruct (m w) as [[a|e] w1]; simpl in Hm; [|exact Hm].
  now rewrite Hk.
Qed.

Lemma keeps_ret {A} (a : A) : keeps_inserts (ret a).
Proof. intros w. reflexivity. Qed.

Lemma keeps_throw_if_error {A} (r : Response A) : keeps_inserts (throw_if_error r).
Proof. intros w. unfold throw_if_error. destruct (error r); reflexivity. Qed.

Lemma keeps_storage_upload (name : string) (f : File) :
  keeps_inserts (storage_upload name f).
Proof.
  intros w. unfold storage_upload. rewrite remote_run.
  destruct (hd Normal (script w)).
  - unfold bind at 1. unfold get at 1. cbv beta iota. cbn [bucket popped logged].
    destruct (JS.arr_includes (bucket w) name); simpl;
      rewrite insert_calls_app, app_nil_r; reflexivity.
  - simpl. rewrite insert_calls_app, app_nil_r. reflexivity.
  - simpl. rewrite insert_calls_app, app_nil_r. reflexivity.
Qed.

Lemma keeps_uploadImage (f : File) : keeps_inserts (uploadImage env f).
Proof.
  unfold uploadImage.
  apply keeps_bind; [intros w; reflexivity|]. intros t.
  apply keeps_bind; [intros w; unfold next_random; destruct (random w); reflexivity|].
  intros r.
  apply keeps_bind; [apply keeps_storage_upload|]. intros resp.
  apply keeps_bind; [apply keeps_throw_if_error|]. intros _.
  apply keeps_ret.
Qed.

Lemma uploadImage_inserts (f : File) (w : World) :
  insert_calls (log (snd (uploadImage env f w))) = insert_calls (log w).
Proof. apply keeps_uploadImage. Qed.

Lemma upload_each_inserts (files : list File) :
  forall (acc : list string) (w : World),
    insert_calls (log (snd (upload_each env files acc w))) = insert_calls (log w).
Proof.
  induction files as [|f files IH]; intros acc w; [reflexivity|].
  cbn [upload_each]. rewrite bind_run.
  pose proof (uploadImage_inserts f w) as H.
  destruct (uploadImage env f w) as [[url|e] w1]; simpl in H.
  - now rewrite IH.
  - exact H.
Qed.

(** Conversely, when the three fields are truthy the answer is never 400:
    it is 201, or the 500 of the [catch] block. *)
Lemma submit_400_only_if_missing (req : CardsRequest) (w : World) :
  JS.truthy (businessName (req_body req)) = true ->
  JS.truthy (employeeName (req_body req)) = true ->
  JS.truthy (description (req_body req)) = true ->
  status (fst (submit env req w)) <> 400.
Proof.
  intros Hb He Hd. unfold submit. rewrite Hb, He, Hd. cbn [negb orb].
  rewrite try_catch_bind.
  match goal with
  | |- context [match ?m w with _ => _ end] => destruct (m w) as [[cover|e] w1]
  end; [|simpl; discriminate].
  rewrite try_catch_bind.
  match goal with
  | |- context [match ?m w1 with _ => _ end] => destruct (m w1) as [[urls|e] w2]
  end; [|simpl; discriminate].
  rewrite try_catch_bind.
  match goal with
  | |- context [insert_card ?d w2] => destruct (insert_card d w2) as [[r|e] w3]
  end; [|simpl; discriminate].
  rewrite try_catch_bind. unfold throw_if_error.
  destruct (error r); simpl; discriminate.
Qed.

Ltac no_insert H :=
  exists []; simpl; rewrite app_nil_r;
  split; [exact H|]; split; [intros ? [] | discriminate].

(** C10.  Whatever [POST /cards] inserts carries the submitted
    [businessName], [employeeName] and [description] unchanged, and
    [webpageUrl || null] as [webpage_url]: when [webpageUrl] is absent or
    the empty string the draft holds [null].  A request answered with 201
    has inserted exactly one such draft, and the row made of it is the
    body of the answer and the last row of the table. *)
Theorem submit_inserted_fields (req : CardsRequest) (w : World) :
  let b := req_body req in
  let r := submit env req w in
  exists ds,
    insert_calls (log (snd r)) = insert_calls (log w) ++ ds
    /\ (forall d, In d ds ->
          Draft.business_name d = businessName b
          /\ Draft.employee_name d = employeeName b
          /\ Draft.description d = description b
          /\ Draft.webpage_url d = JS.or (webpageUrl b) JS.Null
          /\ (webpageUrl b = JS.Undefined \/ webpageUrl b = JS.Str "" ->
              Draft.webpage_url d = JS.Null))
    /\ (status (fst r) = 201 ->
        exists d c, ds = [d]
                    /\ body (fst r) = CardBody c
                    /\ table (snd r) = removelast (table (snd r)) ++ [c]
                    /\ Card.business_name c = businessName b
                    /\ Card.employee_name c = employeeName b
                    /\ Card.description c = description b
                    /\ Card.webpage_url c = JS.or (webpageUrl b) JS.Null).
Proof.
  intros b r. subst r. unfold submit. fold b.
  destruct (negb (JS.truthy (businessName b)) || negb (JS.truthy (employeeName b))
            || negb (JS.truthy (description b))).
  { no_insert (eq_refl (insert_calls (log w))). }
  rewrite try_catch_bind.
  assert (exists cover w1,
             (match cover_file req with
              | Some f => url <- uploadImage env f ;; ret (Some url)
              | None => ret None
              end w = (cover, w1))
             /\ insert_calls (log w1) = insert_calls (log w)) as (cover & w1 & -> & H1).
  { destruct (cover_file req) as [f|]; [|now exists (Ok None), w].
    rewrite bind_run. pose proof (uploadImage_inserts f w) as H.
    destruct (uploadImage env f w) as [[url|e] w1]; simpl in H; eexists; eexists; split;
      try reflexivity; exact H. }
  destruct cover as [coverImageUrl|e].
  2:{ no_insert H1. }
  rewrite try_catch_bind.
  assert (exists urls w2,
             (match product_files req with
              | Some files => upload_each env files []
              | None => ret []
              end w1 = (urls, w2))
             /\ insert_calls (log w2) = insert_calls (log w)) as (urls & w2 & -> & H2).
  { destruct (product_files req) as [files|]; [|now exists (Ok []), w1].
    pose proof (upload_each_inserts files [] w1) as H.
    destruct (upload_each env files [] w1) as [res w2]; simpl in H.
    exists res, w2. split; [reflexivity | now rewrite H]. }
  destruct urls as [productImageUrls|e].
  2:{ no_insert H2. }
  rewrite try_catch_bind.
  set (d := Draft.mk _ _ _ _ _ _).
  destruct (insert_card_run d w2) as (w3 & Hlog & Hrun).
  exists [d].
  assert (forall d', In d' [d] ->
            Draft.business_name d' = businessName b
            /\ Draft.employee_name d' = employeeName b
            /\ Draft.description d' = description b
            /\ Draft.webpage_url d' = JS.or (webpageUrl b) JS.Null
            /\ (webpageUrl b = JS.Undefined \/ webpageUrl b = JS.Str "" ->
                Draft.webpage_url d' = JS.Null)) as Hd.
  { intros d' [<- | []]. repeat split. intros [E | E]; subst d; simpl; now rewrite E. }
  assert (insert_calls (log w3) = insert_calls (log w) ++ [d]) as Hins
      by (rewrite Hlog, insert_calls_app, H2; reflexivity).
  destruct (hd Normal (script w2)).
  - destruct Hrun as [-> Ht]. simpl.
    split; [exact Hins|]. split; [exact Hd|].
    intros _. exists d, (new_card d w2). rewrite Ht, removelast_last.
    repeat split.
  - rewrite Hrun. simpl. split; [exact Hins|]. split; [exact Hd | discriminate].
  - rewrite Hrun. simpl. split; [exact Hins|]. split; [exact Hd | discriminate].
Qed.

End Inserted.

Lemma submit_inserted_fields_witness :
  webpageUrl (req_body request_plain) = JS.Str ""
  /\ status (fst (submit env0 request_plain world0)) = 201
  /\ exists ds,
       insert_calls (log (snd (submit env0 request_plain world0))) = ds
       /\ forall d, In d ds ->
            Draft.webpage_url d = JS.Null
            /\ Draft.business_name d = JS.Str "Acme"
            /\ Draft.employee_name d = JS.Str "Jo"
            /\ Draft.description d = JS.Str "Great stuff".
Proof.
  split; [reflexivity|]. split; [reflexivity|].
  destruct (submit_inserted_fields env0 request_plain world0) as (ds & Hlog & Hd & _).
  exists ds. split; [exact Hlog|].
  intros d Hin. destruct (Hd d Hin) as (Hb & He & Hdesc & _ & Hnull).
  repeat split; [apply Hnull; now right | exact Hb | exact He | exact Hdesc].
Defined.

(* ------------------------------------------------------------------ *)
(** ** Scenarios *)

Example storage_path_of_public_url :
  urlToStoragePath
    "https://abc.supabase.co/storage/v1/object/public/side-quest-images/10-aaaaaaa.png"
  = "10-aaaaaaa.png".
Proof. reflexivity. Qed.

(** The public URL of a name with a space, with a leading slash, and with
    a letter outside ASCII. *)
Example public_url_is_escaped :
  storage_getPublicUrl "https://abc.supabase.co" "a b.png"
  = "https://abc.supabase.co/storage/v1/object/public/side-quest-images/a%20b.png"
  /\ storage_getPublicUrl "https://abc.supabase.co" "//a.png"
     = "https://abc.supabase.co/storage/v1/object/public/side-quest-images/a.png"
  /\ encodeURI (String (ascii_of_nat 233) "") = "%C3%A9"
  /\ encodeURI "a%20b.png" = "a%2520b.png".
Proof. repeat split. Qed.

Example filter_accepts_upper_case :
  fileFilter {| fieldname := "coverImage"; mimetype := "IMAGE/PNG"; size := 1 |} = None.
Proof. reflexivity. Qed.

Example filter_rejects_gif :
  fileFilter {| fieldname := "coverImage"; mimetype := "image/gif"; size := 1 |}
  = Some "Only JPEG and PNG images are allowed".
Proof. reflexivity. Qed.

(** A file one byte short of 10 MiB passes the middleware; a file of
    10 MiB does not. *)
Example size_limit_is_exclusive :
  multer upload_fields []
    [{| fieldname := "coverImage"; mimetype := "image/jpeg"; size := 10485759 |}]
  = inr [("coverImage",
          [{| fieldname := "coverImage"; mimetype := "image/jpeg"; size := 10485759 |}])]
  /\ multer upload_fields []
       [{| fieldname := "coverImage"; mimetype := "image/jpeg"; size := 10485760 |}]
     = inl (LIMIT_FILE_SIZE "coverImage").
Proof. split; reflexivity. Qed.

(** [POST /cards] with businessName "Acme", employeeName "Jo", description
    "Great stuff" and no files. *)
Example submit_without_files :
  fst (submit env0 request_plain world0)
  = respond 201
      (CardBody (Card.mk "10" (JS.Str "Acme") (JS.Str "Jo") JS.Null
                   (JS.Str "Great stuff") None (Some []) 2000 604802000))
  /\ upload_calls (log (snd (submit env0 request_plain world0))) = [].
Proof. split; reflexivity. Qed.

(** Two uploads, then the insert; the file names carry the time and the
    random suffix, and the extension follows the exact content type. *)
Example submit_with_files :
  log (snd (post_cards env0
              {| raw_body := form (JS.Str "Acme") (JS.Str "Jo") JS.Undefined
                               (JS.Str "Great stuff");
                 parts := Some [png "coverImage";
                                {| fieldname := "productImages";
                                   mimetype := "image/jpeg"; size := 7 |}] |}
              world0))
  = [EvUpload "2000-x1y2z3a.png" "image/png";
     EvUpload "2000-q7w8e9r.jpg" "image/jpeg";
     EvInsert (Draft.mk (JS.Str "Acme") (JS.Str "Jo") JS.Null (JS.Str "Great stuff")
                 (Some (url_of "2000-x1y2z3a.png")) [url_of "2000-q7w8e9r.jpg"])].
Proof. reflexivity. Qed.

(** A failed upload aborts the submission: nothing is inserted, and the
    image uploaded before it stays in the bucket. *)
Example submit_upload_fails :
  let r := post_cards env0
             {| raw_body := form (JS.Str "Acme") (JS.Str "Jo") JS.Undefined
                              (JS.Str "Great stuff");
                parts := Some [png "coverImage"; png "productImages"] |}
             (with_script [Normal; Fails "Bucket not found"] world0) in
  fst r = respond 500 (ErrorBody "Bucket not found")
  /\ insert_calls (log (snd r)) = []
  /\ bucket (snd r) = bucket world0 ++ ["2000-x1y2z3a.png"].
Proof. repeat split. Qed.

Example polish_empty_description :
  fst (polish env0 (JS.Str "") world0)
  = respond 400 (ErrorBody "Description is required").
Proof. reflexivity. Qed.

(** A description that is not a string makes [trim] fail; the [catch]
    block answers. *)
Example polish_number :
  polish env0 (JS.Num 5) world0 = (polish_failed, world0).
Proof. reflexivity. Qed.

(* ------------------------------------------------------------------ *)
(** ** [uploadImage] *)

Lemma arr_includes_false (arr : list string) (x : string) :
  JS.arr_includes arr x = false <-> ~ In x arr.
Proof.
  unfold JS.arr_includes. split.
  - intros H Hin. assert (existsb (String.eqb x) arr = true) as E; [|congruence].
    apply existsb_exists. exists x. split; [exact Hin | apply String.eqb_refl].
  - intros H. destruct (existsb (String.eqb x) arr) eqn:E; [|reflexivity].
    apply existsb_exists in E as (y & Hy & Heq). apply String.eqb_eq in Heq. now subst y.
Qed.

Lemma skipn_tl {A} (l : list A) : tl l = skipn 1 l.
Proof. now destruct l. Qed.

Lemma skipn_skipn' {A} (a b : nat) (l : list A) :
  skipn a (skipn b l) = skipn (b + a) l.
Proof.
  revert l. induction b as [|b IH]; intros l; [reflexivity|].
  destruct l as [|x l]; [now rewrite !skipn_nil | apply IH].
Qed.

Lemma forallb_skipn {A} (f : A -> bool) (k : nat) (l : list A) :
  forallb f l = true -> forallb f (skipn k l) = true.
Proof.
  revert l. induction k as [|k IH]; intros l H; [exact H|].
  destruct l as [|x l]; [exact H|]. simpl in H. apply andb_true_iff in H as [_ H].
  now apply IH.
Qed.

Lemma only_uploaded_refl (w : World) : only_uploaded [] w w.
Proof. unfold only_uploaded. rewrite app_nil_r. repeat split. now exists 0%nat. Qed.

Lemma only_uploaded_trans (n1 n2 : list string) (w w1 w2 : World) :
  only_uploaded n1 w w1 -> only_uploaded n2 w1 w2 -> only_uploaded (n1 ++ n2) w w2.
Proof.
  intros (Hb1 & Ht1 & Hn1 & Hl1 & Hi1 & k1 & Hs1) (Hb2 & Ht2 & Hn2 & Hl2 & Hi2 & k2 & Hs2).
  unfold only_uploaded. rewrite Hb2, Hb1, Ht2, Ht1, Hn2, Hn1, Hl2, Hl1, Hi2, Hi1, app_assoc.
  repeat split. exists (k1 + k2)%nat. now rewrite Hs2, Hs1, skipn_skipn'.
Qed.

Ltac world_fields :=
  cbn [fst snd popped logged with_bucket with_table
       table bucket now ttl next_id random script upstream log].

Section UploadImage.

Variable env : Env.

Lemma used_random_fields (w : World) :
  table (used_random w) = table w /\ bucket (used_random w) = bucket w
  /\ now (used_random w) = now w /\ ttl (used_random w) = ttl w
  /\ next_id (used_random w) = next_id w /\ script (used_random w) = script w
  /\ log (used_random w) = log w /\ upstream (used_random w) = upstream w.
Proof. unfold used_random. destruct (random w); repeat split. Qed.

Lemma uploadImage_run (f : File) (w : World) :
  uploadImage env f w =
  match hd Normal (script w) with
  | Normal =>
      if JS.arr_includes (bucket w) (upload_name f w)
      then (Thrown "The resource already exists",
            popped (logged (EvUpload (upload_name f w) (mimetype f)) (used_random w)))
      else (Ok (getPublicUrl (SUPABASE_URL env) (upload_name f w)),
            with_bucket (bucket w ++ [upload_name f w])
              (popped (logged (EvUpload (upload_name f w) (mimetype f)) (used_random w))))
  | Fails m =>
      (Thrown m, popped (logged (EvUpload (upload_name f w) (mimetype f)) (used_random w)))
  | Throws m =>
      (Thrown m, popped (logged (EvUpload (upload_name f w) (mimetype f)) (used_random w)))
  end.
Proof.
  unfold uploadImage. rewrite bind_run. unfold get at 1. cbv beta iota.
  rewrite bind_run. unfold next_random, upload_name, used_random.
  destruct (random w) as [|r rs]; cbn [hd];
    rewrite bind_run; unfold storage_upload; rewrite remote_run; cbn [script];
    (destruct (hd Normal (script w)); [|reflexivity..]);
    unfold bind at 1; unfold get at 1; cbv beta iota; cbn [bucket popped logged];
    match goal with
    | |- context [JS.arr_includes (bucket w) ?n] =>
        destruct (JS.arr_includes (bucket w) n)
    end; reflexivity.
Qed.

(** One call of [uploadImage], case by case.  It always sends one upload,
    under the name made of the time, the random suffix and the extension.
    It returns the public URL of that name when the storage service
    answers normally and the name is new; in every other case it throws
    and the bucket is as before. *)
Lemma uploadImage_cases (f : File) (w : World) :
  exists w',
    snd (uploadImage env f w) = w'
    /\ log w' = log w ++ [EvUpload (upload_name f w) (mimetype f)]
    /\ table w' = table w /\ now w' = now w /\ ttl w' = ttl w
    /\ next_id w' = next_id w /\ script w' = tl (script w)
    /\ ((fst (uploadImage env f w)
         = Ok (getPublicUrl (SUPABASE_URL env) (upload_name f w))
         /\ hd Normal (script w) = Normal
         /\ ~ In (upload_name f w) (bucket w)
         /\ bucket w' = bucket w ++ [upload_name f w])
        \/ (exists m, fst (uploadImage env f w) = Thrown m
                      /\ bucket w' = bucket w
                      /\ (hd Normal (script w) = Normal ->
                          In (upload_name f w) (bucket w)))).
Proof.
  destruct (used_random_fields w) as (Ht & Hb & Hn & Hl & Hi & Hs & Hg & _).
  rewrite uploadImage_run.
  destruct (hd Normal (script w)) eqn:Eo.
  - destruct (JS.arr_includes (bucket w) (upload_name f w)) eqn:Ei.
    + eexists. split; [reflexivity|]. world_fields.
      rewrite ?Ht, ?Hb, ?Hn, ?Hl, ?Hi, ?Hs, ?Hg. repeat (split; [reflexivity|]).
      right. eexists. split; [reflexivity|]. split; [reflexivity|]. intros _.
      destruct (in_dec string_dec (upload_name f w) (bucket w)) as [Hin|Hnin]; [exact Hin|].
      apply arr_includes_false in Hnin. congruence.
    + eexists. split; [reflexivity|]. world_fields.
      rewrite ?Ht, ?Hb, ?Hn, ?Hl, ?Hi, ?Hs, ?Hg. repeat (split; [reflexivity|]).
      left. split; [reflexivity|]. split; [reflexivity|].
      split; [now apply arr_includes_false | reflexivity].
  - eexists. split; [reflexivity|]. world_fields.
    rewrite ?Ht, ?Hb, ?Hn, ?Hl, ?Hi, ?Hs, ?Hg. repeat (split; [reflexivity|]).
    right. eexists. split; [reflexivity|]. split; [reflexivity | discriminate].
  - eexists. split; [reflexivity|]. world_fields.
    rewrite ?Ht, ?Hb, ?Hn, ?Hl, ?Hi, ?Hs, ?Hg. repeat (split; [reflexivity|]).
    right. eexists. split; [reflexivity|]. split; [reflexivity | discriminate].
Qed.

(** X1.  What [uploadImage] returns is the public URL of the object it
    has just stored: [urlToStoragePath] maps it back to the name of that
    object, which was not in the bucket before and is its last entry
    afterwards; the table is untouched. *)
Theorem uploadImage_returns_stored_object (f : File) (w w' : World) (url : string) :
  JS.includes (SUPABASE_URL env) marker_stem = false ->
  uploadImage env f w = (Ok url, w') ->
  urlToStoragePath url = upload_name f w
  /\ ~ In (urlToStoragePath url) (bucket w)
  /\ bucket w' = bucket w ++ [urlToStoragePath url]
  /\ upload_calls (log w') = upload_calls (log w) ++ [urlToStoragePath url]
  /\ table w' = table w.
Proof.
  intros Hbase Hrun.
  destruct (uploadImage_cases f w) as (w1 & Hw & Hlog & Ht & _ & _ & _ & _ & Hcase).
  rewrite Hrun in Hw, Hcase. simpl in Hw, Hcase. subst w1.
  destruct Hcase as [(Hurl & _ & Hfresh & Hb) | (m & Hm & _)]; [|discriminate].
  injection Hurl as ->. rewrite (urlToStoragePath_getPublicUrl _ _ Hbase).
  repeat split; try assumption.
  rewrite Hlog. clear. induction (log w) as [|e l IH]; [reflexivity|].
  destruct e; simpl; now rewrite ?IH.
Qed.

(** X2.  [uploadImage] throws exactly when the storage service does not
    answer normally or an object of the generated name exists already; it
    then leaves the bucket and the table as they were.  In every case it
    sends exactly one upload. *)
Theorem uploadImage_throws_iff (f : File) (w : World) :
  ((exists m, fst (uploadImage env f w) = Thrown m) <->
   hd Normal (script w) <> Normal \/ In (upload_name f w) (bucket w))
  /\ ((exists m, fst (uploadImage env f w) = Thrown m) ->
      bucket (snd (uploadImage env f w)) = bucket w
      /\ table (snd (uploadImage env f w)) = table w)
  /\ log (snd (uploadImage env f w))
     = log w ++ [EvUpload (upload_name f w) (mimetype f)].
Proof.
  destruct (uploadImage_cases f w) as (w1 & Hw & Hlog & Ht & _ & _ & _ & _ & Hcase).
  rewrite Hw. split; [|split; [|exact Hlog]].
  - split.
    + intros (m & Hm).
      destruct Hcase as [(Hurl & _) | (m' & _ & _ & Hin)]; [congruence|].
      destruct (hd Normal (script w)) eqn:Eo; [right; now apply Hin | left.. ]; discriminate.
    + intros Hbad. destruct Hcase as [(_ & Hn & Hfresh & _) | (m & Hm & _)].
      * destruct Hbad as [Hbad | Hbad]; [now contradiction Hbad | now contradiction Hfresh].
      * now exists m.
  - intros (m & Hm). destruct Hcase as [(Hurl & _) | (m' & _ & Hb & _)]; [congruence|].
    now split.
Qed.

Lemma forallb_is_upload_calls (evs : list Event) :
  forallb is_upload evs = true ->
  remove_calls evs = [] /\ delete_calls evs = [] /\ insert_calls evs = []
  /\ fetch_calls evs = [].
Proof.
  induction evs as [|e evs IH]; [now repeat split|].
  simpl. intros H. apply andb_true_iff in H as [He H].
  destruct e; try discriminate. simpl. now apply IH.
Qed.

(** The loop over the product images, case by case: it attempts the files
    in order and stops at the first upload that throws. *)
Lemma upload_each_cases (files : list File) :
  forall (acc : list string) (w : World),
  exists names evs k,
    only_uploaded names w (snd (upload_each env files acc w))
    /\ (forall n, In n names -> ~ In n (bucket w))
    /\ log (snd (upload_each env files acc w)) = log w ++ evs
    /\ forallb is_upload evs = true
    /\ upload_types evs = map mimetype (firstn k files)
    /\ match fst (upload_each env files acc w) with
       | Ok urls => urls = acc ++ map (getPublicUrl (SUPABASE_URL env)) names
                    /\ k = List.length files
       | Thrown _ => (k <= List.length files)%nat
       end.
Proof.
  induction files as [|f files IH]; intros acc w.
  - exists [], [], 0%nat. simpl. rewrite !app_nil_r.
    split; [apply only_uploaded_refl|]. split; [intros n []|]. repeat split.
  - cbn [upload_each]. rewrite bind_run.
    destruct (uploadImage_cases f w) as (w1 & Hw & Hlog & Ht & Hn & Hl & Hi & Hs & Hcase).
    destruct (uploadImage env f w) as [r w1'] eqn:Erun. simpl in Hw, Hcase. subst w1'.
    destruct Hcase as [(-> & _ & Hfresh & Hb) | (m & -> & Hb & _)].
    + destruct (IH (acc ++ [getPublicUrl (SUPABASE_URL env) (upload_name f w)]) w1)
        as (names & evs & k & Hup & Hfr & Hlog2 & Hev & Hty & Hres).
      exists (upload_name f w :: names), (EvUpload (upload_name f w) (mimetype f) :: evs), (S k).
      split; [|split; [|split; [|split; [|split]]]].
      * apply (only_uploaded_trans [upload_name f w] names w w1); [|exact Hup].
        unfold only_uploaded. repeat split; try assumption.
        exists 1%nat. now rewrite Hs, skipn_tl.
      * intros n [<- | Hin]; [exact Hfresh|].
        intros Hb0. apply (Hfr n Hin). rewrite Hb. apply in_or_app. now left.
      * rewrite Hlog2, Hlog, <- app_assoc. reflexivity.
      * exact Hev.
      * simpl. now rewrite Hty.
      * destruct (fst (upload_each env files _ w1)) as [urls|e].
        -- destruct Hres as [-> ->]. split; [|reflexivity].
           rewrite <- app_assoc. reflexivity.
        -- simpl. lia.
    + exists [], [EvUpload (upload_name f w) (mimetype f)], 1%nat. simpl.
      split; [|split; [intros n []|]].
      * unfold only_uploaded. rewrite app_nil_r. repeat split; try assumption.
        exists 1%nat. now rewrite Hs, skipn_tl.
      * repeat split; [exact Hlog | lia].
Qed.

End UploadImage.

(* ------------------------------------------------------------------ *)
(** ** [POST /cards]: uploads, then the insert *)

Lemma upload_types_app (l l' : list Event) :
  upload_types (l ++ l') = upload_types l ++ upload_types l'.
Proof.
  induction l as [|e l IH]; [reflexivity|].
  destruct e; simpl; rewrite ?IH; reflexivity.
Qed.

Lemma remove_calls_app (l l' : list Event) :
  remove_calls (l ++ l') = remove_calls l ++ remove_calls l'.
Proof.
  induction l as [|e l IH]; [reflexivity|].
  destruct e; simpl; rewrite ?IH; reflexivity.
Qed.

Lemma delete_calls_app (l l' : list Event) :
  delete_calls (l ++ l') = delete_calls l ++ delete_calls l'.
Proof.
  induction l as [|e l IH]; [reflexivity|].
  destruct e; simpl; rewrite ?IH; reflexivity.
Qed.

Lemma fetch_calls_app (l l' : list Event) :
  fetch_calls (l ++ l') = fetch_calls l ++ fetch_calls l'.
Proof.
  induction l as [|e l IH]; [reflexivity|].
  destruct e; simpl; rewrite ?IH; reflexivity.
Qed.

Lemma firstn_app_all {A} (l1 l2 : list A) (k : nat) :
  l1 ++ firstn k l2 = firstn (List.length l1 + k) (l1 ++ l2).
Proof. induction l1 as [|x l1 IH]; simpl; [reflexivity | now rewrite IH]. Qed.

Lemma fields_given_cond (b : CardForm) :
  negb (JS.truthy (businessName b)) || negb (JS.truthy (employeeName b))
  || negb (JS.truthy (description b)) = negb (fields_given b).
Proof.
  unfold fields_given.
  destruct (JS.truthy (businessName b)), (JS.truthy (employeeName b)),
    (JS.truthy (description b)); reflexivity.
Qed.

(** The insert, case by case. *)
Lemma insert_phase_cases (b : CardForm) (cover : option string) (urls : list string)
  (w : World) :
  let d := Draft.mk (businessName b) (employeeName b)
             (JS.or (webpageUrl b) JS.Null) (description b) cover urls in
  let r := insert_phase b cover urls w in
  log (snd r) = log w ++ [EvInsert d]
  /\ bucket (snd r) = bucket w
  /\ script (snd r) = tl (script w)
  /\ match hd Normal (script w) with
     | Normal => fst r = respond 201 (CardBody (new_card d w))
                 /\ table (snd r) = table w ++ [new_card d w]
     | Fails m => fst r = respond 500 (ErrorBody (create_message m))
                  /\ table (snd r) = table w
     | Throws m => fst r = respond 500 (ErrorBody (create_message m))
                   /\ table (snd r) = table w
     end.
Proof.
  intros d r. subst r. unfold insert_phase. fold d.
  rewrite try_catch_bind. unfold insert_card. rewrite remote_run.
  destruct (hd Normal (script w)); repeat split.
Qed.

Section Submit.

Variable env : Env.

(** The two upload steps of the handler, case by case: either an upload
    threw and the [catch] block answered, or all the files are stored and
    the insert is what remains. *)
Lemma submit_uploads (req : CardsRequest) (w : World) :
  fields_given (req_body req) = true ->
  exists names evs k w2,
    only_uploaded names w w2
    /\ (forall n, In n names -> ~ In n (bucket w))
    /\ log w2 = log w ++ evs
    /\ forallb is_upload evs = true
    /\ upload_types evs = map mimetype (firstn k (submitted_files req))
    /\ ((exists m, submit env req w = (respond 500 (ErrorBody (create_message m)), w2))
        \/ (exists cover urls,
               k = List.length (submitted_files req)
               /\ cover_list cover ++ urls
                  = map (getPublicUrl (SUPABASE_URL env)) names
               /\ submit env req w = insert_phase (req_body req) cover urls w2)).
Proof.
  intros Hv. unfold submit, submitted_files.
  rewrite fields_given_cond, Hv. cbn [negb]. rewrite try_catch_bind.
  destruct (cover_file req) as [f|].
  - rewrite bind_run.
    destruct (uploadImage_cases env f w)
      as (w1 & Hw & Hlog & Ht & Hn & Hl & Hi & Hs & Hcase).
    destruct (uploadImage env f w) as [r w1'] eqn:Erun. simpl in Hw, Hcase. subst w1'.
    destruct Hcase as [(-> & _ & Hfresh & Hb) | (m & -> & Hb & _)].
    + assert (only_uploaded [upload_name f w] w w1) as Hup1.
      { unfold only_uploaded. repeat split; try assumption.
        exists 1%nat. now rewrite Hs, skipn_tl. }
      cbn [ret]. rewrite try_catch_bind.
      destruct (product_files req) as [files|].
      * destruct (upload_each_cases env files [] w1)
          as (names & evs & k & Hup & Hfr & Hlog2 & Hev & Hty & Hres).
        destruct (upload_each env files [] w1) as [res w2] eqn:Eeach.
        simpl in Hup, Hlog2, Hres.
        exists (upload_name f w :: names),
               (EvUpload (upload_name f w) (mimetype f) :: evs), (S k), w2.
        split; [exact (only_uploaded_trans _ _ _ _ _ Hup1 Hup)|].
        split.
        { intros n [<- | Hin]; [exact Hfresh|]. intros Hb0.
          apply (Hfr n Hin). rewrite Hb. apply in_or_app. now left. }
        split; [rewrite Hlog2, Hlog, <- app_assoc; reflexivity|].
        split; [exact Hev|]. split; [simpl; now rewrite Hty|].
        destruct res as [urls|e].
        -- right. destruct Hres as [-> ->].
           exists (Some (getPublicUrl (SUPABASE_URL env) (upload_name f w))),
                  (map (getPublicUrl (SUPABASE_URL env)) names).
           repeat split.
        -- left. now exists e.
      * exists [upload_name f w], [EvUpload (upload_name f w) (mimetype f)], 1%nat, w1.
        split; [exact Hup1|].
        split; [intros n [<- | []]; exact Hfresh|].
        split; [exact Hlog|]. split; [reflexivity|]. split; [reflexivity|].
        right. exists (Some (getPublicUrl (SUPABASE_URL env) (upload_name f w))), [].
        repeat split.
    + exists [], [EvUpload (upload_name f w) (mimetype f)], 1%nat, w1.
      split.
      { unfold only_uploaded. rewrite app_nil_r. repeat split; try assumption.
        exists 1%nat. now rewrite Hs, skipn_tl. }
      split; [intros n []|]. split; [exact Hlog|].
      split; [reflexivity|]. split; [reflexivity|].
      left. now exists m.
  - cbn [ret]. rewrite try_catch_bind.
    destruct (product_files req) as [files|].
    + destruct (upload_each_cases env files [] w)
        as (names & evs & k & Hup & Hfr & Hlog2 & Hev & Hty & Hres).
      destruct (upload_each env files [] w) as [res w2] eqn:Eeach.
      simpl in Hup, Hlog2, Hres.
      exists names, evs, k, w2.
      split; [exact Hup|]. split; [exact Hfr|]. split; [exact Hlog2|].
      split; [exact Hev|]. split; [exact Hty|].
      destruct res as [urls|e].
      * right. destruct Hres as [-> ->]. exists None, (map (getPublicUrl (SUPABASE_URL env)) names).
        repeat split.
      * left. now exists e.
    + exists [], [], 0%nat, w.
      split; [apply only_uploaded_refl|]. split; [intros n []|].
      split; [now rewrite app_nil_r|]. split; [reflexivity|]. split; [reflexivity|].
      right. exists None, []. repeat split.
Qed.

Lemma hd_skipn {A} (d : A) (k : nat) (l : list A) : hd d (skipn k l) = nth k l d.
Proof.
  revert l. induction k as [|k IH]; intros [|x l]; try reflexivity. apply IH.
Qed.

Lemma skipn_S_tl {A} (k : nat) (l : list A) : skipn k (tl l) = skipn (S k) l.
Proof. destruct l; [now rewrite skipn_nil | reflexivity]. Qed.

Lemma outcome_at_S (w w1 : World) (i : nat) :
  script w1 = tl (script w) -> outcome_at w (S i) = outcome_at w1 i.
Proof.
  unfold outcome_at. intros ->. destruct (script w); [now destruct i | reflexivity].
Qed.

(** The loop over the files, call by call.  When it returns, every file
    was uploaded, in order, and every upload was answered normally.  When
    it throws, the uploads before the failing one were answered normally
    and stored their objects, the failing upload is the last call made,
    and it failed because the storage service did not answer normally or
    because an object of its name was there already. *)
Lemma upload_each_trace (files : list File) :
  forall (acc : list string) (w : World),
    match upload_each env files acc w with
    | (Ok urls, w') =>
        exists names,
          List.length names = List.length files
          /\ urls = acc ++ map (getPublicUrl (SUPABASE_URL env)) names
          /\ log w' = log w ++ upload_events names files
          /\ bucket w' = bucket w ++ names
          /\ script w' = skipn (List.length files) (script w)
          /\ (forall i, (i < List.length files)%nat -> outcome_at w i = Normal)
    | (Thrown m, w') =>
        exists names name,
          (List.length names < List.length files)%nat
          /\ log w' = log w ++ upload_events (names ++ [name]) files
          /\ bucket w' = bucket w ++ names
          /\ (forall i, (i < List.length names)%nat -> outcome_at w i = Normal)
          /\ (outcome_at w (List.length names) <> Normal
              \/ In name (bucket w ++ names))
    end.
Proof.
  induction files as [|f files IH]; intros acc w.
  - cbn. exists []. rewrite !app_nil_r. repeat split. intros i Hi. lia.
  - cbn [upload_each]. rewrite bind_run.
    destruct (uploadImage_cases env f w)
      as (w1 & Hw & Hlog & _ & _ & _ & _ & Hs & Hcase).
    destruct (uploadImage env f w) as [r w1'] eqn:Erun. simpl in Hw, Hcase. subst w1'.
    destruct Hcase as [(-> & Ho & _ & Hb) | (m & -> & Hb & Hin)].
    + rewrite outcome_at_0 in Ho.
      specialize (IH (acc ++ [getPublicUrl (SUPABASE_URL env) (upload_name f w)]) w1).
      destruct (upload_each env files _ w1) as [[urls|m] w2].
      * destruct IH as (names & Hlen & -> & Hlog2 & Hb2 & Hs2 & Hout).
        exists (upload_name f w :: names).
        split; [simpl; now rewrite Hlen|].
        split; [now rewrite <- app_assoc|].
        split; [rewrite Hlog2, Hlog, <- app_assoc; reflexivity|].
        split; [rewrite Hb2, Hb, <- app_assoc; reflexivity|].
        split; [rewrite Hs2, Hs; apply skipn_S_tl|].
        intros [|i] Hi; [exact Ho|]. rewrite (outcome_at_S w w1 i Hs).
        apply Hout. simpl in Hi. lia.
      * destruct IH as (names & name & Hlen & Hlog2 & Hb2 & Hout & Hlast).
        exists (upload_name f w :: names), name.
        split; [simpl; lia|].
        split; [rewrite Hlog2, Hlog, <- app_assoc; reflexivity|].
        split; [rewrite Hb2, Hb, <- app_assoc; reflexivity|].
        split.
        -- intros [|i] Hi; [exact Ho|]. rewrite (outcome_at_S w w1 i Hs).
           apply Hout. simpl in Hi. lia.
        -- cbn [List.length]. rewrite (outcome_at_S w w1 _ Hs).
           rewrite Hb, <- app_assoc in Hlast. exact Hlast.
    + exists [], (upload_name f w).
      split; [simpl; lia|]. split; [exact Hlog|].
      split; [now rewrite app_nil_r|]. split; [intros i Hi; simpl in Hi; lia|].
      rewrite app_nil_r. cbn [List.length]. rewrite <- outcome_at_0.
      destruct (hd Normal (script w)); [right; now apply Hin | left; discriminate..].
Qed.

(** The accumulator of the loop only collects. *)
Lemma upload_each_acc (files : list File) :
  forall (acc : list string) (w : World),
    upload_each env files acc w
    = match upload_each env files [] w with
      | (Ok urls, w') => (Ok (acc ++ urls), w')
      | (Thrown m, w') => (Thrown m, w')
      end.
Proof.
  induction files as [|f files IH]; intros acc w.
  - cbn. now rewrite app_nil_r.
  - cbn [upload_each]. rewrite !bind_run.
    destruct (uploadImage env f w) as [[url|m] w1]; [|reflexivity].
    rewrite (IH (acc ++ [url])), (IH ([] ++ [url])).
    destruct (upload_each env files [] w1) as [[urls|m] w2]; [|reflexivity].
    now rewrite <- app_assoc.
Qed.

(** The two upload steps of the handler are one loop over the submitted
    files, the cover first; the insert follows when the loop returns, and
    the [catch] block answers when it throws. *)
Lemma submit_run (req : CardsRequest) (w : World) :
  fields_given (req_body req) = true ->
  match upload_each env (submitted_files req) [] w with
  | (Ok all, w2) =>
      exists cover urls,
        cover_list cover ++ urls = all
        /\ submit env req w = insert_phase (req_body req) cover urls w2
  | (Thrown m, w2) =>
      submit env req w = (respond 500 (ErrorBody (create_message m)), w2)
  end.
Proof.
  intros Hv. unfold submit, submitted_files.
  rewrite fields_given_cond, Hv. cbn [negb]. rewrite try_catch_bind.
  destruct (cover_file req) as [f|].
  - rewrite bind_run. cbn [app upload_each]. rewrite bind_run.
    destruct (uploadImage env f w) as [[url|m] w1]; [|reflexivity].
    cbn [ret]. rewrite try_catch_bind.
    destruct (product_files req) as [files|].
    + rewrite (upload_each_acc files ([] ++ [url])).
      destruct (upload_each env files [] w1) as [[urls|m] w2]; [|reflexivity].
      exists (Some url), urls. now split.
    + cbn. exists (Some url), []. now split.
  - cbn [ret app]. rewrite try_catch_bind.
    destruct (product_files req) as [files|].
    + destruct (upload_each env files [] w) as [[urls|m] w2]; [|reflexivity].
      exists None, urls. now split.
    + cbn. exists None, []. now split.
Qed.

(** The handler of [POST /cards], call by call. *)
Lemma submit_trace (req : CardsRequest) (w : World) :
  (fields_given (req_body req) = false /\ snd (submit env req w) = w)
  \/ (fields_given (req_body req) = true
      /\ exists names,
           bucket (snd (submit env req w)) = bucket w ++ names
           /\ (forall i, (i < List.length names)%nat -> outcome_at w i = Normal)
           /\ ((List.length names = List.length (submitted_files req)
                /\ (exists d,
                       log (snd (submit env req w))
                       = log w ++ upload_events names (submitted_files req)
                               ++ [EvInsert d]
                       /\ cover_list (Draft.cover_image_url d)
                          ++ Draft.product_image_urls d
                          = map (getPublicUrl (SUPABASE_URL env)) names)
                /\ (status (fst (submit env req w)) = 201
                    <-> outcome_at w (List.length (submitted_files req)) = Normal)
                /\ (status (fst (submit env req w)) = 201
                    \/ status (fst (submit env req w)) = 500))
               \/ (exists name,
                      (List.length names < List.length (submitted_files req))%nat
                      /\ log (snd (submit env req w))
                         = log w ++ upload_events (names ++ [name]) (submitted_files req)
                      /\ (outcome_at w (List.length names) <> Normal
                          \/ In name (bucket w ++ names))
                      /\ status (fst (submit env req w)) = 500))).
Proof.
  destruct (fields_given (req_body req)) eqn:Hv.
  - right. split; [reflexivity|].
    pose proof (submit_run req w Hv) as Hrun.
    pose proof (upload_each_trace (submitted_files req) [] w) as Htr.
    destruct (upload_each env (submitted_files req) [] w) as [[all|m] w2].
    + destruct Hrun as (cover & urls & Hall & ->).
      destruct Htr as (names & Hlen & Hurls & Hlog & Hb & Hs & Hout).
      cbn [app] in Hurls.
      destruct (insert_phase_cases (req_body req) cover urls w2)
        as (Hl & Hbk & _ & Hins).
      rewrite Hs, hd_skipn in Hins.
      change (nth (List.length (submitted_files req)) (script w) Normal)
        with (outcome_at w (List.length (submitted_files req))) in Hins.
      exists names. split; [now rewrite Hbk|].
      split; [intros i Hi; apply Hout; lia|].
      left. split; [exact Hlen|]. split.
      { eexists. split; [rewrite Hl, Hlog, <- app_assoc; reflexivity|].
        cbn [Draft.cover_image_url Draft.product_image_urls]. congruence. }
      destruct (outcome_at w (List.length (submitted_files req)));
        destruct Hins as [-> _]; cbn [status respond fst].
      * split; [now split | now left].
      * split; [split; discriminate | now right].
      * split; [split; discriminate | now right].
    + rewrite Hrun. cbn [fst snd].
      destruct Htr as (names & name & Hlen & Hlog & Hb & Hout & Hlast).
      exists names. split; [exact Hb|]. split; [exact Hout|].
      right. exists name. repeat split; assumption.
  - left. split; [reflexivity|]. unfold submit. now rewrite fields_given_cond, Hv.
Qed.

(** X3.  [POST /cards] uploads the cover first and then the product
    images as supplied, one upload per file, each with the content type
    of its file, and it stops at the first upload that fails.  Precisely,
    when the required fields are given one of two things happens.  Either
    every file is uploaded and every upload is answered normally; the
    insert then follows as the last call, its row carries the public URLs
    of the stored objects in the order of the files, and the answer is
    201 exactly when the insert is answered normally and 500 otherwise.
    Or some upload fails: every upload before it was answered normally
    and stored its object, the failing upload is the last call of the
    request, so that no later file is uploaded and nothing is inserted,
    it stored nothing, it failed because the storage service did not
    answer normally or because an object of its name existed, and the
    answer is 500.  When a required field is missing nothing is called at
    all. *)
Theorem submit_uploads_in_order (req : CardsRequest) (w : World) :
  (fields_given (req_body req) = false /\ snd (submit env req w) = w)
  \/ (fields_given (req_body req) = true
      /\ exists names,
           bucket (snd (submit env req w)) = bucket w ++ names
           /\ (forall i, (i < List.length names)%nat -> outcome_at w i = Normal)
           /\ ((List.length names = List.length (submitted_files req)
                /\ (exists d,
                       log (snd (submit env req w))
                       = log w ++ upload_events names (submitted_files req)
                               ++ [EvInsert d]
                       /\ cover_list (Draft.cover_image_url d)
                          ++ Draft.product_image_urls d
                          = map (getPublicUrl (SUPABASE_URL env)) names)
                /\ (status (fst (submit env req w)) = 201
                    <-> outcome_at w (List.length (submitted_files req)) = Normal)
                /\ (status (fst (submit env req w)) = 201
                    \/ status (fst (submit env req w)) = 500))
               \/ (exists name,
                      (List.length names < List.length (submitted_files req))%nat
                      /\ log (snd (submit env req w))
                         = log w ++ upload_events (names ++ [name]) (submitted_files req)
                      /\ (outcome_at w (List.length names) <> Normal
                          \/ In name (bucket w ++ names))
                      /\ status (fst (submit env req w)) = 500))).
Proof. exact (submit_trace req w). Qed.

(** X4.  [POST /cards] never removes anything: it sends no batch delete to
    storage and no row delete to the database, the bucket only gains
    objects that were not in it, and the table is unchanged unless the
    answer is 201, in which case the returned card is its one new, last
    row.  Images uploaded before a failure stay in the bucket. *)
Theorem submit_only_adds (req : CardsRequest) (w : World) :
  remove_calls (log (snd (submit env req w))) = remove_calls (log w)
  /\ delete_calls (log (snd (submit env req w))) = delete_calls (log w)
  /\ (exists names,
         bucket (snd (submit env req w)) = bucket w ++ names
         /\ forall n, In n names -> ~ In n (bucket w))
  /\ ((status (fst (submit env req w)) <> 201
       /\ table (snd (submit env req w)) = table w)
      \/ (exists c, fst (submit env req w) = respond 201 (CardBody c)
                    /\ table (snd (submit env req w)) = table w ++ [c])).
Proof.
  destruct (fields_given (req_body req)) eqn:Hv.
  - destruct (submit_uploads req w Hv)
      as (names & evs & k & w2 & Hup & Hfr & Hlog & Hev & _ & Hcase).
    destruct Hup as (Hb & Ht & _).
    destruct (forallb_is_upload_calls evs Hev) as (Hr & Hd & _).
    destruct Hcase as [(m & ->) | (cover & urls & _ & _ & ->)].
    + simpl. rewrite Hlog, remove_calls_app, delete_calls_app, Hr, Hd, !app_nil_r.
      split; [reflexivity|]. split; [reflexivity|].
      split; [now exists names|]. left. split; [discriminate | exact Ht].
    + destruct (insert_phase_cases (req_body req) cover urls w2) as (Hl & Hbk & _ & Hins).
      rewrite Hl, !remove_calls_app, !delete_calls_app, Hlog,
        remove_calls_app, delete_calls_app, Hr, Hd. simpl. rewrite !app_nil_r.
      split; [reflexivity|]. split; [reflexivity|].
      split; [exists names; rewrite Hbk; now split|].
      destruct (hd Normal (script w2)).
      * right. destruct Hins as [Hresp Htab]. eexists. split; [exact Hresp|].
        now rewrite Htab, Ht.
      * left. destruct Hins as [Hresp Htab]. rewrite Hresp, Htab. split; [discriminate | exact Ht].
      * left. destruct Hins as [Hresp Htab]. rewrite Hresp, Htab. split; [discriminate | exact Ht].
  - unfold submit. rewrite fields_given_cond, Hv. simpl.
    split; [reflexivity|]. split; [reflexivity|].
    split; [exists []; rewrite app_nil_r; split; [reflexivity | intros n []]|].
    left. split; [discriminate | reflexivity].
Qed.



End Submit.

(* ------------------------------------------------------------------ *)
(** ** [DELETE /cards/:id]: what it removes *)

Lemma filter_all {A} (f : A -> bool) (l : list A) :
  (forall x, In x l -> f x = true) -> filter f l = l.
Proof.
  induction l as [|x l IH]; intros H; [reflexivity|].
  simpl. rewrite (H x (or_introl eq_refl)). f_equal. apply IH.
  intros y Hy. apply H. now right.
Qed.

Lemma filter_none {A} (f : A -> bool) (l : list A) :
  (forall x, In x l -> f x = false) -> filter f l = [].
Proof.
  induction l as [|x l IH]; intros H; [reflexivity|].
  simpl. rewrite (H x (or_introl eq_refl)). apply IH.
  intros y Hy. apply H. now right.
Qed.

Lemma without_nil (objs : list string) : without [] objs = objs.
Proof. unfold without. apply filter_all. reflexivity. Qed.

(** Removing names that were appended to a bucket they were not in gives
    the bucket back. *)
Lemma without_appended (names objs : list string) :
  (forall n, In n names -> ~ In n objs) ->
  without names (objs ++ names) = objs.
Proof.
  intros H. unfold without. rewrite filter_app.
  rewrite (filter_all _ objs), (filter_none _ names); [apply app_nil_r | |].
  - intros n Hn. apply negb_false_iff.
    destruct (JS.arr_includes names n) eqn:E; [reflexivity|].
    apply arr_includes_false in E. now contradiction E.
  - intros o Ho. apply negb_true_iff, arr_includes_false.
    intros Hin. exact (H o Hin Ho).
Qed.

Lemma delete_one_after_fetch (id : string) (w : World) (card : Card.t) :
  outcome_at w 0 = Normal ->
  filter (has_id id) (table w) = [card] ->
  delete_one id w
  = delete_tail (map urlToStoragePath (image_urls card)) id
      (popped (logged (EvSelectSingle id) w)).
Proof.
  intros H0 Hf. unfold delete_one, delete_tail.
  rewrite try_catch_bind, select_single_run, outcome_at_0, H0, Hf.
  rewrite <- imagesToDelete_urls. reflexivity.
Qed.

Lemma delete_tail_nil (id : string) (w : World) :
  delete_tail [] id w =
  match hd Normal (script w) with
  | Normal => (respond 200 SuccessBody,
               with_table (without_id id (table w)) (popped (logged (EvDeleteRow id) w)))
  | Fails _ => (delete_failed, popped (logged (EvDeleteRow id) w))
  | Throws _ => (delete_failed, popped (logged (EvDeleteRow id) w))
  end.
Proof.
  unfold delete_tail. rewrite try_catch_bind, remove_images_nil.
  rewrite try_catch_bind, delete_row_run.
  destruct (hd Normal (script w)); reflexivity.
Qed.

Lemma delete_tail_cons (p : string) (ps : list string) (id : string) (w : World) :
  delete_tail (p :: ps) id w =
  match hd Normal (script w) with
  | Normal =>
      delete_tail [] id
        (with_bucket (without (p :: ps) (bucket w))
                     (popped (logged (EvRemove (p :: ps)) w)))
  | Fails _ => delete_tail [] id (popped (logged (EvRemove (p :: ps)) w))
  | Throws _ => (delete_failed, popped (logged (EvRemove (p :: ps)) w))
  end.
Proof.
  unfold delete_tail at 1. rewrite try_catch_bind, remove_images_cons.
  destruct (hd Normal (script w)); try reflexivity;
    unfold delete_tail; rewrite try_catch_bind, remove_images_nil; reflexivity.
Qed.

(** The table after the tail of the handler: unchanged with a 500, or
    without the rows of the id with a 200. *)
Lemma delete_tail_table (paths : list string) (id : string) (w : World) :
  (fst (delete_tail paths id w) = delete_failed
   /\ table (snd (delete_tail paths id w)) = table w)
  \/ (fst (delete_tail paths id w) = respond 200 SuccessBody
      /\ table (snd (delete_tail paths id w)) = without_id id (table w)).
Proof.
  assert (forall w0, (fst (delete_tail [] id w0) = delete_failed
                      /\ table (snd (delete_tail [] id w0)) = table w0)
                     \/ (fst (delete_tail [] id w0) = respond 200 SuccessBody
                         /\ table (snd (delete_tail [] id w0)) = without_id id (table w0)))
    as Hnil.
  { intros w0. rewrite delete_tail_nil.
    destruct (hd Normal (script w0)); [right | left | left]; now split. }
  destruct paths as [|p ps]; [apply Hnil|].
  rewrite delete_tail_cons. destruct (hd Normal (script w)).
  - exact (Hnil (with_bucket (without (p :: ps) (bucket w))
                             (popped (logged (EvRemove (p :: ps)) w)))).
  - exact (Hnil (popped (logged (EvRemove (p :: ps)) w))).
  - left. now split.
Qed.

Lemma delete_one_rows_cases (id : string) (w : World) :
  (forall c, In c (table w) -> Card.id c <> id ->
             In c (table (snd (delete_one id w))))
  /\ (status (fst (delete_one id w)) = 200 ->
      (exists card, filter (has_id id) (table w) = [card])
      /\ table (snd (delete_one id w)) = without_id id (table w)
      /\ forall c, In c (table (snd (delete_one id w))) -> Card.id c <> id)
  /\ (status (fst (delete_one id w)) <> 200 ->
      fst (delete_one id w) = delete_failed
      /\ table (snd (delete_one id w)) = table w).
Proof.
  assert ((fst (delete_one id w) = delete_failed
           /\ table (snd (delete_one id w)) = table w)
          \/ (fst (delete_one id w) = respond 200 SuccessBody
              /\ table (snd (delete_one id w)) = without_id id (table w)
              /\ exists card, filter (has_id id) (table w) = [card])) as Hcases.
  { destruct (outcome_at w 0) eqn:H0.
    - destruct (filter (has_id id) (table w)) as [|card [|c2 l]] eqn:Hf.
      + left. unfold delete_one.
        rewrite try_catch_bind, select_single_run, outcome_at_0, H0, Hf. now split.
      + rewrite (delete_one_after_fetch id w card H0 Hf).
        destruct (delete_tail_table (map urlToStoragePath (image_urls card)) id
                    (popped (logged (EvSelectSingle id) w))) as [[Hr Ht] | [Hr Ht]].
        * left. now split.
        * right. split; [exact Hr|]. split; [exact Ht | now exists card].
      + left. unfold delete_one.
        rewrite try_catch_bind, select_single_run, outcome_at_0, H0, Hf. now split.
    - left. unfold delete_one.
      rewrite try_catch_bind, select_single_run, outcome_at_0, H0. now split.
    - left. unfold delete_one.
      rewrite try_catch_bind, select_single_run, outcome_at_0, H0. now split. }
  split; [|split].
  - intros c Hc Hid. destruct Hcases as [[_ ->] | [_ [-> _]]]; [exact Hc|].
    apply filter_In. split; [exact Hc|]. apply negb_true_iff, String.eqb_neq. exact Hid.
  - intros Hs. destruct Hcases as [[Hr _] | [_ [Ht Hex]]]; [rewrite Hr in Hs; discriminate|].
    split; [exact Hex|]. split; [exact Ht|].
    intros c Hc. rewrite Ht in Hc. apply filter_In in Hc as [_ Hc].
    apply negb_true_iff, String.eqb_neq in Hc. exact Hc.
  - intros Hs. destruct Hcases as [[Hr Ht] | [Hr _]]; [now split|].
    rewrite Hr in Hs. now contradiction Hs.
Qed.

(** X6.  [DELETE /cards/:id] touches no row of another id, whatever
    happens.  When it answers 200, exactly one row had the id, and the
    table afterwards is the table before without that row; in every other
    case it answers 500 and the table is as before. *)
Theorem delete_one_rows (id : string) (w : World) :
  (forall c, In c (table w) -> Card.id c <> id ->
             In c (table (snd (delete_one id w))))
  /\ (status (fst (delete_one id w)) = 200 ->
      (exists card, filter (has_id id) (table w) = [card])
      /\ table (snd (delete_one id w)) = without_id id (table w)
      /\ forall c, In c (table (snd (delete_one id w))) -> Card.id c <> id)
  /\ (status (fst (delete_one id w)) <> 200 ->
      fst (delete_one id w) = delete_failed
      /\ table (snd (delete_one id w)) = table w).
Proof. exact (delete_one_rows_cases id w). Qed.

(** X7.  [DELETE /cards/:id] is not atomic and does not look at what the
    batch delete answers.  For an existing card with images: when the
    batch delete answers with an error value and the row delete succeeds,
    the answer is 200, the row is gone and every object is still in the
    bucket; when the batch delete succeeds and the row delete answers with
    an error, the answer is 500, the row is still there and its objects
    are gone. *)
Theorem delete_one_partial_failures (id : string) (w : World) (card : Card.t) :
  outcome_at w 0 = Normal ->
  filter (has_id id) (table w) = [card] ->
  image_urls card <> [] ->
  let paths := map urlToStoragePath (image_urls card) in
  (is_fails (outcome_at w 1) = true -> outcome_at w 2 = Normal ->
   fst (delete_one id w) = respond 200 SuccessBody
   /\ table (snd (delete_one id w)) = without_id id (table w)
   /\ bucket (snd (delete_one id w)) = bucket w)
  /\ (outcome_at w 1 = Normal -> is_fails (outcome_at w 2) = true ->
      fst (delete_one id w) = delete_failed
      /\ table (snd (delete_one id w)) = table w
      /\ bucket (snd (delete_one id w)) = without paths (bucket w)).
Proof.
  intros H0 Hf Hne paths.
  rewrite (delete_one_after_fetch id w card H0 Hf). fold paths.
  destruct paths as [|p ps] eqn:Ep.
  { destruct (image_urls card); [now contradiction Hne | discriminate]. }
  rewrite delete_tail_cons.
  change (hd Normal (script (popped (logged (EvSelectSingle id) w))))
    with (hd Normal (tl (script w))).
  rewrite outcome_at_1. split.
  - intros H1 H2. destruct (outcome_at w 1); try discriminate.
    rewrite delete_tail_nil.
    change (hd Normal (script (popped (logged (EvRemove (p :: ps))
                                         (popped (logged (EvSelectSingle id) w))))))
      with (hd Normal (tl (tl (script w)))).
    rewrite outcome_at_2, H2. repeat split.
  - intros H1 H2. rewrite H1, delete_tail_nil.
    change (hd Normal (script (with_bucket
                                 (without (p :: ps)
                                    (bucket (popped (logged (EvSelectSingle id) w))))
                                 (popped (logged (EvRemove (p :: ps))
                                            (popped (logged (EvSelectSingle id) w)))))))
      with (hd Normal (tl (tl (script w)))).
    rewrite outcome_at_2. destruct (outcome_at w 2); try discriminate. repeat split.
Qed.

Lemma delete_one_partial_failures_witness :
  outcome_at world_second_fails 0 = Normal
  /\ filter (has_id "8") (table world_second_fails) = [card_full]
  /\ image_urls card_full <> []
  /\ fst (delete_one "8" world_second_fails) = respond 200 SuccessBody
  /\ bucket (snd (delete_one "8" world_second_fails)) = bucket world_second_fails
  /\ fst (delete_one "8" world_third_fails) = delete_failed
  /\ table (snd (delete_one "8" world_third_fails)) = table world_third_fails
  /\ bucket (snd (delete_one "8" world_third_fails)) = [].
Proof.
  assert (image_urls card_full <> []) as Hne by discriminate.
  split; [reflexivity|]. split; [reflexivity|]. split; [exact Hne|].
  destruct (delete_one_partial_failures "8" world_second_fails card_full
              eq_refl eq_refl Hne) as (H1 & _).
  destruct (delete_one_partial_failures "8" world_third_fails card_full
              eq_refl eq_refl Hne) as (_ & H2).
  destruct (H1 eq_refl eq_refl) as (Ha & _ & Hb).
  destruct (H2 eq_refl eq_refl) as (Hc & Hd & He).
  split; [exact Ha|]. split; [exact Hb|]. split; [exact Hc|]. split; [exact Hd|].
  rewrite He. reflexivity.
Defined.

(* ------------------------------------------------------------------ *)
(** ** Submitting a card, then deleting it *)

Lemma all_normal_hd (l : list Outcome) :
  forallb is_normal l = true -> hd Normal l = Normal.
Proof.
  intros H. pose proof (forallb_hd is_normal l eq_refl H) as Hh.
  destruct (hd Normal l); [reflexivity | discriminate..].
Qed.

Lemma getPublicUrl_nonempty (base name : string) :
  (getPublicUrl base name =? "")%string = false.
Proof. unfold getPublicUrl. destruct base; reflexivity. Qed.

Lemma image_urls_new_card (a b c e : JS.value) (cover : option string)
  (urls names : list string) (base : string) (w : World) :
  cover_list cover ++ urls = map (getPublicUrl base) names ->
  image_urls (new_card (Draft.mk a b c e cover urls) w) = map (getPublicUrl base) names.
Proof.
  intros H. unfold image_urls, new_card. cbn [Card.cover_image_url Card.product_image_urls
    Draft.cover_image_url Draft.product_image_urls].
  destruct cover as [u|]; [|exact H].
  destruct names as [|n names]; [discriminate|].
  simpl in H. injection H as -> ->.
  now rewrite getPublicUrl_nonempty.
Qed.

Lemma storage_paths_of_public_urls (base : string) (names : list string) :
  JS.includes base marker_stem = false ->
  map urlToStoragePath (map (getPublicUrl base) names) = names.
Proof.
  intros H. induction names as [|n names IH]; [reflexivity|].
  simpl. now rewrite IH, (urlToStoragePath_getPublicUrl _ _ H).
Qed.

Lemma without_id_appended (id : string) (rows : list Card.t) (c : Card.t) :
  (forall x, In x rows -> Card.id x <> id) -> Card.id c = id ->
  without_id id (rows ++ [c]) = rows /\ filter (has_id id) (rows ++ [c]) = [c].
Proof.
  intros Hrows Hc. unfold without_id. rewrite !filter_app. split.
  - rewrite (filter_all _ rows).
    + simpl. unfold has_id. rewrite Hc, String.eqb_refl. apply app_nil_r.
    + intros x Hx. apply negb_true_iff, String.eqb_neq. now apply Hrows.
  - rewrite (filter_none _ rows).
    + simpl. unfold has_id. now rewrite Hc, String.eqb_refl.
    + intros x Hx. apply String.eqb_neq. now apply Hrows.
Qed.

Section RoundTrip.

Variable env : Env.

(** X8.  Deleting a card that has just been created undoes the creation.
    When every remote call succeeds, the project URL does not contain
    [/side-quest-images], and no row carries the id about to be generated:
    after a [POST /cards] answered with 201, [DELETE /cards/:id] with the
    id of the new card answers 200 and leaves the table and the bucket
    exactly as they were before the submission.  Every image uploaded for
    the card is found again through its URL and removed. *)
Theorem submit_then_delete_restores (req : CardsRequest) (w : World) :
  JS.includes (SUPABASE_URL env) marker_stem = false ->
  forallb is_normal (script w) = true ->
  (forall c, In c (table w) -> Card.id c <> JS.of_N (next_id w)) ->
  status (fst (submit env req w)) = 201 ->
  (exists c, fst (submit env req w) = respond 201 (CardBody c)
             /\ Card.id c = JS.of_N (next_id w))
  /\ fst (delete_one (JS.of_N (next_id w)) (snd (submit env req w)))
     = respond 200 SuccessBody
  /\ table (snd (delete_one (JS.of_N (next_id w)) (snd (submit env req w)))) = table w
  /\ bucket (snd (delete_one (JS.of_N (next_id w)) (snd (submit env req w)))) = bucket w.
Proof.
  intros Hbase Hall Hids H201.
  destruct (fields_given (req_body req)) eqn:Hv.
  2:{ exfalso. revert H201. unfold submit. rewrite fields_given_cond, Hv. discriminate. }
  destruct (submit_uploads env req w Hv)
    as (names & evs & k & w2 & Hup & Hfr & _ & _ & _ & Hcase).
  destruct Hcase as [(m & Hm) | (cover & urls & _ & Hurls & Hsub)].
  { rewrite Hm in H201. discriminate. }
  destruct Hup as (Hb2 & Ht2 & _ & _ & Hi2 & k0 & Hs2).
  assert (forallb is_normal (script w2) = true) as Hall2
      by (rewrite Hs2; now apply forallb_skipn).
  destruct (insert_phase_cases (req_body req) cover urls w2) as (_ & Hb1 & Hs1 & Hins).
  rewrite (all_normal_hd _ Hall2) in Hins. destruct Hins as [Hresp Ht1].
  rewrite <- Hsub in Hresp, Ht1, Hb1, Hs1.
  set (d := Draft.mk _ _ _ _ cover urls) in *.
  set (c := new_card d w2) in *.
  assert (Card.id c = JS.of_N (next_id w)) as Hid by (subst c; simpl; now rewrite Hi2).
  split; [now exists c|].
  set (w1 := snd (submit env req w)) in *. clearbody w1.
  set (id := JS.of_N (next_id w)) in *.
  assert (forallb is_normal (script w1) = true) as Hall1
      by (rewrite Hs1; now apply forallb_tl).
  destruct (without_id_appended id (table w) c Hids Hid) as [Hwo Hfil].
  assert (map urlToStoragePath (image_urls c) = names) as Hpaths.
  { subst c d. rewrite (image_urls_new_card _ _ _ _ _ _ _ _ _ Hurls).
    now apply storage_paths_of_public_urls. }
  rewrite (delete_one_after_fetch id w1 c).
  2:{ rewrite <- outcome_at_0. now apply all_normal_hd. }
  2:{ now rewrite Ht1, Ht2. }
  rewrite Hpaths.
  assert (hd Normal (tl (script w1)) = Normal) as Hh1
      by (apply all_normal_hd; now apply forallb_tl).
  assert (hd Normal (tl (tl (script w1))) = Normal) as Hh2
      by (apply all_normal_hd; now do 2 apply forallb_tl).
  destruct names as [|n names].
  - rewrite delete_tail_nil. world_fields. rewrite Hh1. world_fields.
    rewrite Ht1, Ht2, Hwo, Hb1, Hb2, app_nil_r. repeat split.
  - rewrite delete_tail_cons. world_fields. rewrite Hh1.
    rewrite delete_tail_nil. world_fields. rewrite Hh2. world_fields.
    rewrite Ht1, Ht2, Hwo, Hb1, Hb2, (without_appended _ _ Hfr). repeat split.
Qed.

End RoundTrip.

Lemma submit_then_delete_restores_witness :
  JS.includes (SUPABASE_URL env0) marker_stem = false
  /\ forallb is_normal (script world_three) = true
  /\ status (fst (submit env0 request_three_files world_three)) = 201
  /\ List.length (bucket (snd (submit env0 request_three_files world_three))) = 4%nat
  /\ fst (delete_one "10" (snd (submit env0 request_three_files world_three)))
     = respond 200 SuccessBody
  /\ table (snd (delete_one "10" (snd (submit env0 request_three_files world_three))))
     = table world_three
  /\ bucket (snd (delete_one "10" (snd (submit env0 request_three_files world_three))))
     = bucket world_three.
Proof.
  split; [reflexivity|]. split; [reflexivity|]. split; [reflexivity|].
  split; [reflexivity|].
  assert (forall c, In c (table world_three) -> Card.id c <> JS.of_N (next_id world_three))
    as Hids.
  { intros c [<- | []]. discriminate. }
  destruct (submit_then_delete_restores env0 request_three_files world_three
              eq_refl eq_refl Hids eq_refl) as (_ & H1 & H2 & H3).
  split; [exact H1|]. split; [exact H2 | exact H3].
Defined.

(* ------------------------------------------------------------------ *)
(** ** [DELETE /cards/cleanup/expired]: a throw, and what is spared *)

Lemma remove_images_table (paths : list string) (w : World) :
  table (snd (remove_images paths w)) = table w.
Proof.
  destruct paths as [|p ps]; [reflexivity|].
  rewrite remove_images_cons. destruct (hd Normal (script w)); reflexivity.
Qed.

Lemma remove_images_bucket (paths : list string) (w : World) :
  bucket (snd (remove_images paths w)) = bucket w
  \/ bucket (snd (remove_images paths w)) = without paths (bucket w).
Proof.
  destruct paths as [|p ps]; [now left|].
  rewrite remove_images_cons. destruct (hd Normal (script w)); [right | left | left]; reflexivity.
Qed.

Lemma delete_row_table (id : string) (w : World) :
  (table (snd (delete_row id w)) = table w
   \/ table (snd (delete_row id w)) = without_id id (table w))
  /\ bucket (snd (delete_row id w)) = bucket w.
Proof.
  rewrite delete_row_run. destruct (hd Normal (script w)); split;
    try reflexivity; [right | left | left]; reflexivity.
Qed.

(** The loop spares every row whose id is not the id of a card it goes
    through, and every object that none of those cards names. *)
Lemma cleanup_loop_spares (cards : list Card.t) :
  forall (n : nat) (w : World),
    (forall c, In c (table w) ->
               (forall e, In e cards -> Card.id e <> Card.id c) ->
               In c (table (snd (cleanup_loop cards n w))))
    /\ (forall o, In o (bucket w) ->
                  (forall e, In e cards ->
                             ~ In o (map urlToStoragePath (image_urls e))) ->
                  In o (bucket (snd (cleanup_loop cards n w)))).
Proof.
  induction cards as [|card cards IH]; intros n w; [split; intros; assumption|].
  cbn [cleanup_loop]. rewrite bind_run.
  pose proof (remove_images_table (imagesToDelete_expired card) w) as Ht1.
  pose proof (remove_images_bucket (imagesToDelete_expired card) w) as Hb1.
  destruct (remove_images (imagesToDelete_expired card) w) as [[u|e] w1];
    simpl in Ht1, Hb1; rewrite imagesToDelete_expired_urls in Hb1.
  2:{ cbn [snd]. split.
      - intros c Hc _. now rewrite Ht1.
      - intros o Ho Hn. destruct Hb1 as [-> | ->]; [exact Ho|].
        apply filter_In. split; [exact Ho|].
        apply negb_true_iff, arr_includes_false. apply Hn. now left. }
  rewrite bind_run.
  destruct (delete_row_table (Card.id card) w1) as [Ht2 Hb2].
  destruct (delete_row (Card.id card) w1) as [[r|e] w2]; simpl in Ht2, Hb2; cbn [snd].
  - destruct (IH (S n) w2) as [IHt IHb]. split.
    + intros c Hc Hn. apply IHt; [|intros e He; apply Hn; now right].
      destruct Ht2 as [-> | ->]; rewrite Ht1; [exact Hc|].
      apply filter_In. split; [exact Hc|].
      apply negb_true_iff, String.eqb_neq, not_eq_sym, Hn. now left.
    + intros o Ho Hn. apply IHb; [|intros e He; apply Hn; now right].
      rewrite Hb2. destruct Hb1 as [-> | ->]; [exact Ho|].
      apply filter_In. split; [exact Ho|].
      apply negb_true_iff, arr_includes_false. apply Hn. now left.
  - split.
    + intros c Hc Hn. destruct Ht2 as [-> | ->]; rewrite Ht1; [exact Hc|].
      apply filter_In. split; [exact Hc|].
      apply negb_true_iff, String.eqb_neq, not_eq_sym, Hn. now left.
    + intros o Ho Hn. rewrite Hb2. destruct Hb1 as [-> | ->]; [exact Ho|].
      apply filter_In. split; [exact Ho|].
      apply negb_true_iff, arr_includes_false. apply Hn. now left.
Qed.

Lemma cleanup_expired_fetch_fails (w : World) :
  is_normal (outcome_at w 0) = false ->
  cleanup_expired w = (cleanup_failed, popped (logged (EvSelectExpired (now w)) w)).
Proof.
  intros H. unfold cleanup_expired. rewrite try_catch_bind. unfold get at 1. cbv beta iota.
  rewrite try_catch_bind. unfold select_expired. rewrite remote_run, outcome_at_0.
  destruct (outcome_at w 0); [discriminate | reflexivity..].
Qed.

Lemma cleanup_expired_keeps (w : World) :
  (forall c, In c (table w) ->
             (forall e, In e (expired_rows w) -> Card.id e <> Card.id c) ->
             In c (table (snd (cleanup_expired w))))
  /\ (forall o, In o (bucket w) ->
                (forall e, In e (expired_rows w) ->
                           ~ In o (map urlToStoragePath (image_urls e))) ->
                In o (bucket (snd (cleanup_expired w)))).
Proof.
  destruct (is_normal (outcome_at w 0)) eqn:H0.
  - assert (outcome_at w 0 = Normal) as H0'
        by (destruct (outcome_at w 0); [reflexivity | discriminate..]).
    rewrite (cleanup_expired_run w H0'), try_catch_bind.
    destruct (cleanup_loop_spares (expired_rows w) 0
                (popped (logged (EvSelectExpired (now w)) w))) as [Ht Hb].
    unfold expired_rows in *.
    destruct (cleanup_loop _ 0 _) as [[n|e] w']; simpl in Ht, Hb |- *; split; assumption.
  - rewrite (cleanup_expired_fetch_fails w H0). split; intros; assumption.
Qed.

(** X9.  The cleanup removes nothing but what belongs to expired cards,
    whatever the remote calls answer: a row stays in the table unless an
    expired row carries its id, and an object stays in the bucket unless
    it is the storage path of an image of an expired card. *)
Theorem cleanup_expired_spares (w : World) :
  (forall c, In c (table w) ->
             (forall e, In e (expired_rows w) -> Card.id e <> Card.id c) ->
             In c (table (snd (cleanup_expired w))))
  /\ (forall o, In o (bucket w) ->
                (forall e, In e (expired_rows w) ->
                           ~ In o (map urlToStoragePath (image_urls e))) ->
                In o (bucket (snd (cleanup_expired w)))).
Proof. exact (cleanup_expired_keeps w). Qed.

Lemma card_calls_length (card : Card.t) :
  card_calls card = [EvDeleteRow (Card.id card)]
  \/ exists p ps, imagesToDelete_expired card = p :: ps
                  /\ card_calls card = [EvRemove (p :: ps); EvDeleteRow (Card.id card)].
Proof.
  rewrite card_calls_eq. destruct (imagesToDelete_expired card) as [|p ps] eqn:E.
  - now left.
  - right. now exists p, ps.
Qed.

(** When the call number [length pre] throws and none before it does, the
    loop stops there. *)
Lemma cleanup_loop_throws (cards : list Card.t) :
  forall (n : nat) (w : World) (pre post : list Outcome) (m : string),
    script w = pre ++ Throws m :: post ->
    forallb no_throw pre = true ->
    (List.length pre < List.length (flat_map card_calls cards))%nat ->
    exists w',
      cleanup_loop cards n w = (Thrown m, w')
      /\ log w' = log w ++ firstn (S (List.length pre)) (flat_map card_calls cards).
Proof.
  induction cards as [|card cards IH]; intros n w pre post m Hs Hpre Hlen.
  - simpl in Hlen. lia.
  - cbn [cleanup_loop flat_map]. cbn [flat_map] in Hlen. rewrite bind_run.
    assert (forall (w0 : World) (pre0 : list Outcome),
               script w0 = pre0 ++ Throws m :: post ->
               forallb no_throw pre0 = true ->
               (List.length pre0 < 1 + List.length (flat_map card_calls cards))%nat ->
               exists w',
                 (delete_row (Card.id card) ;;; cleanup_loop cards (S n)) w0
                 = (Thrown m, w')
                 /\ log w' = log w0 ++ firstn (S (List.length pre0))
                                         (EvDeleteRow (Card.id card)
                                            :: flat_map card_calls cards)) as Hdel.
    { intros w0 pre0 Hs0 Hpre0 Hlen0. rewrite bind_run, delete_row_run, Hs0.
      destruct pre0 as [|o pre0].
      - cbn [app hd]. eexists. split; reflexivity.
      - cbn [app hd]. simpl in Hpre0. apply andb_true_iff in Hpre0 as [Ho Hpre0].
        destruct o; try discriminate.
        + edestruct (IH (S n)) as (w' & -> & Hl);
            [| exact Hpre0 | simpl in Hlen0; lia | ].
          * world_fields. rewrite Hs0. reflexivity.
          * exists w'. split; [reflexivity|]. rewrite Hl. world_fields.
            rewrite <- app_assoc. reflexivity.
        + edestruct (IH (S n)) as (w' & -> & Hl);
            [| exact Hpre0 | simpl in Hlen0; lia | ].
          * world_fields. rewrite Hs0. reflexivity.
          * exists w'. split; [reflexivity|]. rewrite Hl. world_fields.
            rewrite <- app_assoc. reflexivity. }
    destruct (card_calls_length card) as [Hc | (p & ps & Hp & Hc)].
    + rewrite Hc in *. rewrite card_calls_eq in Hc.
      destruct (imagesToDelete_expired card) as [|p ps]; [|discriminate].
      rewrite remove_images_nil. apply (Hdel w pre Hs Hpre). simpl in Hlen. lia.
    + rewrite Hc in *. rewrite Hp, remove_images_cons, Hs.
      destruct pre as [|o pre].
      * cbn [app hd]. eexists. split; reflexivity.
      * cbn [app hd]. simpl in Hpre. apply andb_true_iff in Hpre as [Ho Hpre].
        destruct o; try discriminate.
        -- edestruct Hdel as (w' & -> & Hl); [| exact Hpre | simpl in Hlen; lia |].
           ++ world_fields. rewrite Hs. reflexivity.
           ++ exists w'. split; [reflexivity|]. rewrite Hl. world_fields.
              rewrite <- app_assoc. reflexivity.
        -- edestruct Hdel as (w' & -> & Hl); [| exact Hpre | simpl in Hlen; lia |].
           ++ world_fields. rewrite Hs. reflexivity.
           ++ exists w'. split; [reflexivity|]. rewrite Hl. world_fields.
              rewrite <- app_assoc. reflexivity.
Qed.

(** X10.  A remote call that throws stops the cleanup where it stands:
    when, after the fetch, the call number [length pre] is the first one
    to throw, the answer is 500 with [{error: "Cleanup failed"}], the log
    holds the fetch and the calls up to and including that one, and no
    call is made for the cards that follow.  No count is reported. *)
Theorem cleanup_expired_halts_on_throw (w : World) (pre post : list Outcome)
  (m : string) :
  outcome_at w 0 = Normal ->
  tl (script w) = pre ++ Throws m :: post ->
  forallb no_throw pre = true ->
  (List.length pre < List.length (flat_map card_calls (expired_rows w)))%nat ->
  fst (cleanup_expired w) = cleanup_failed
  /\ log (snd (cleanup_expired w))
     = log w ++ EvSelectExpired (now w)
         :: firstn (S (List.length pre)) (flat_map card_calls (expired_rows w)).
Proof.
  intros H0 Hs Hpre Hlen. rewrite (cleanup_expired_run w H0), try_catch_bind.
  destruct (cleanup_loop_throws (expired_rows w) 0
              (popped (logged (EvSelectExpired (now w)) w)) pre post m Hs Hpre Hlen)
    as (w' & Hrun & Hlog).
  unfold expired_rows in *. rewrite Hrun. split; [reflexivity|].
  simpl. rewrite Hlog. world_fields. rewrite <- app_assoc. reflexivity.
Qed.

Lemma cleanup_expired_halts_on_throw_witness :
  outcome_at world_third_throws 0 = Normal
  /\ tl (script world_third_throws) = [Normal] ++ Throws "socket hang up" :: [Normal]
  /\ fst (cleanup_expired world_third_throws) = cleanup_failed
  /\ log (snd (cleanup_expired world_third_throws))
     = [EvSelectExpired 2000;
        EvRemove ["10-aaaaaaa.png"; "11-bbbbbbb.jpg"; "12-ccccccc.jpg"];
        EvDeleteRow "8"].
Proof.
  split; [reflexivity|]. split; [reflexivity|].
  exact (cleanup_expired_halts_on_throw world_third_throws [Normal] [Normal]
           "socket hang up" eq_refl eq_refl eq_refl ltac:(simpl; lia)).
Defined.

(* ------------------------------------------------------------------ *)
(** ** When the fetch fails; reading without writing *)

Lemma list_active_run (w : World) :
  list_active w =
  (match outcome_at w 0 with
   | Normal => respond 200 (CardsBody (active_rows w))
   | _ => fetch_failed
   end,
   popped (logged (EvSelectActive (now w)) w)).
Proof.
  unfold list_active. rewrite try_catch_bind. unfold get at 1. cbv beta iota.
  rewrite try_catch_bind. unfold select_active. rewrite remote_run, outcome_at_0.
  destruct (outcome_at w 0); reflexivity.
Qed.

Lemma delete_one_fetch_fails (id : string) (w : World) :
  is_normal (outcome_at w 0) = false ->
  delete_one id w = (delete_failed, popped (logged (EvSelectSingle id) w)).
Proof.
  intros H. unfold delete_one. rewrite try_catch_bind, select_single_run, outcome_at_0.
  destruct (outcome_at w 0); [discriminate | reflexivity..].
Qed.

(** X11.  When the first query answers with an error, or throws, each of
    the three handlers that start with a query answers 500 with its own
    fixed message, whatever the message of the error, and does nothing
    else: the query is the only call made, and the table and the bucket
    are as before. *)
Theorem first_query_fails (w : World) (id : string) :
  is_normal (outcome_at w 0) = false ->
  list_active w = (fetch_failed, popped (logged (EvSelectActive (now w)) w))
  /\ delete_one id w = (delete_failed, popped (logged (EvSelectSingle id) w))
  /\ cleanup_expired w
     = (cleanup_failed, popped (logged (EvSelectExpired (now w)) w)).
Proof.
  intros H. split; [|split].
  - rewrite list_active_run. destruct (outcome_at w 0); [discriminate | reflexivity..].
  - now apply delete_one_fetch_fails.
  - now apply cleanup_expired_fetch_fails.
Qed.

Lemma first_query_fails_witness :
  is_normal (outcome_at world_first_fails 0) = false
  /\ fst (list_active world_first_fails) = fetch_failed
  /\ fst (delete_one "8" world_first_fails) = delete_failed
  /\ fst (cleanup_expired world_first_fails) = cleanup_failed
  /\ table (snd (cleanup_expired world_first_fails)) = table world_first_fails
  /\ log (snd (delete_one "8" world_first_fails)) = [EvSelectSingle "8"].
Proof.
  split; [reflexivity|].
  destruct (first_query_fails world_first_fails "8" eq_refl) as (H1 & H2 & H3).
  rewrite H1, H2, H3. repeat split.
Defined.

(** X12.  [GET /cards] reads and does not write: in every world it makes
    exactly one query, leaves the table and the bucket as they were, and
    answers 200 with the active rows when the query succeeds and 500 with
    [{error: "Failed to fetch cards"}] otherwise. *)
Theorem list_active_read_only (w : World) :
  log (snd (list_active w)) = log w ++ [EvSelectActive (now w)]
  /\ table (snd (list_active w)) = table w
  /\ bucket (snd (list_active w)) = bucket w
  /\ ((outcome_at w 0 = Normal
       /\ fst (list_active w) = respond 200 (CardsBody (active_rows w)))
      \/ (is_normal (outcome_at w 0) = false
          /\ fst (list_active w) = fetch_failed)).
Proof.
  rewrite list_active_run. repeat split.
  destruct (outcome_at w 0); [left | right | right]; now split.
Qed.

(** X13.  A card whose [expires_at] is exactly the time of the call is in
    neither query: [GET /cards] does not list it, and the cleanup leaves
    its row in the table, provided no expired row carries its id. *)
Theorem expiring_now_is_neither (w : World) (c : Card.t) :
  In c (table w) ->
  Card.expires_at c = now w ->
  (forall e, In e (expired_rows w) -> Card.id e <> Card.id c) ->
  ~ In c (active_rows w)
  /\ ~ In c (expired_rows w)
  /\ (forall cards, fst (list_active w) = respond 200 (CardsBody cards) -> ~ In c cards)
  /\ In c (table (snd (cleanup_expired w))).
Proof.
  intros Hc Hexp Hids.
  assert (~ In c (active_rows w)) as Hna.
  { unfold active_rows. intros Hin.
    apply (Permutation_in _ (order_created_desc_perm _)), filter_In in Hin.
    destruct Hin as [_ Hgt]. apply Z.gtb_lt in Hgt. lia. }
  split; [exact Hna|]. split.
  - unfold expired_rows. intros Hin. apply filter_In in Hin as [_ Hlt].
    apply Z.ltb_lt in Hlt. lia.
  - split.
    + intros cards Hr. rewrite list_active_run in Hr. simpl in Hr.
      destruct (outcome_at w 0); [|discriminate..].
      injection Hr as <-. exact Hna.
    + exact (proj1 (cleanup_expired_keeps w) c Hc Hids).
Qed.

Lemma expiring_now_is_neither_witness :
  In card_plain (table world_at_expiry)
  /\ Card.expires_at card_plain = now world_at_expiry
  /\ ~ In card_plain (active_rows world_at_expiry)
  /\ In card_plain (table (snd (cleanup_expired world_at_expiry))).
Proof.
  split; [now left|]. split; [reflexivity|].
  assert (forall e, In e (expired_rows world_at_expiry)
                    -> Card.id e <> Card.id card_plain) as Hids.
  { intros e [<- | []]. discriminate. }
  destruct (expiring_now_is_neither world_at_expiry card_plain
              (or_introl eq_refl) eq_refl Hids) as (H1 & _ & _ & H4).
  split; [exact H1 | exact H4].
Defined.

(* ------------------------------------------------------------------ *)
(** ** What the upload middleware lets through *)

Lemma allowance_update (fl : list (string * nat)) (k0 k : string) (n : nat) :
  allowance (update k0 n fl) k = if (k0 =? k)%string then n else allowance fl k.
Proof.
  unfold allowance. destruct (String.eqb_spec k0 k) as [->|Hne].
  - now rewrite lookup_update_same.
  - rewrite lookup_update_other; [reflexivity | now apply not_eq_sym].
Qed.

Lemma collected_update (files : list (string * list File)) (k0 k : string)
  (fs : list File) :
  collected (update k0 fs files) k = if (k0 =? k)%string then fs else collected files k.
Proof.
  unfold collected. destruct (String.eqb_spec k0 k) as [->|Hne].
  - now rewrite lookup_update_same.
  - rewrite lookup_update_other; [reflexivity | now apply not_eq_sym].
Qed.

Lemma of_field_cons (k : string) (f : File) (rest : list File) :
  of_field k (f :: rest)
  = if (fieldname f =? k)%string then f :: of_field k rest else of_field k rest.
Proof. reflexivity. Qed.

(** What the middleware lets through is in order: every file passes the
    filter and the size limit, no field exceeds what it has left, and the
    files are collected per field in their order of arrival. *)
Lemma multer_sound (incoming : list File) :
  forall (filesLeft : list (string * nat)) (acc files : list (string * list File)),
    multer filesLeft acc incoming = inr files ->
    Forall file_ok incoming
    /\ (forall k, (List.length (of_field k incoming) <= allowance filesLeft k)%nat)
    /\ (forall k, collected files k = collected acc k ++ of_field k incoming).
Proof.
  induction incoming as [|f rest IH]; intros filesLeft acc files H.
  - simpl in H. injection H as <-. split; [constructor|]. split.
    + intros k0. simpl. lia.
    + intros k0. simpl. now rewrite app_nil_r.
  - simpl in H.
    destruct (lookup (fieldname f) filesLeft) as [[|n]|] eqn:El; try discriminate.
    destruct (fileFilter f) eqn:Ef; [discriminate|].
    destruct (N.leb_spec fileSize (size f)) as [Hle|Hgt]; [discriminate|].
    apply IH in H as (Hall & Hcount & Hcoll).
    split; [constructor; [split; [exact Ef | lia] | exact Hall]|]. split.
    + intros k. specialize (Hcount k). rewrite allowance_update in Hcount.
      rewrite of_field_cons. destruct (String.eqb_spec (fieldname f) k) as [E|Hne]; [subst k|].
      * unfold allowance. rewrite El. simpl. lia.
      * exact Hcount.
    + intros k. rewrite Hcoll, collected_update, of_field_cons.
      destruct (String.eqb_spec (fieldname f) k) as [E|Hne]; [subst k|reflexivity].
      unfold collected. now rewrite <- app_assoc.
Qed.

(* ------------------------------------------------------------------ *)
(** ** [POST /polish]: requests made, and when it succeeds *)

Section PolishEffects.

Variable env : Env.

Lemma polish_not_string (text : JS.value) (w : World) :
  (forall s, text <> JS.Str s) ->
  snd (polish env text w) = w
  /\ status (fst (polish env text w)) <> 200.
Proof.
  intros H. destruct text as [| |[|]|n|s|];
    try (split; [reflexivity | intros E; cbv in E; discriminate E]).
  - unfold polish, description_missing. simpl JS.truthy.
    destruct (negb (negb (n =? 0))); split; try reflexivity;
      intros E; cbv in E; discriminate E.
  - now contradiction (H s).
Qed.

Lemma polish_string (s : string) (w : World) :
  polish env (JS.Str s) w =
  if all_whitespace s then (respond 400 (ErrorBody "Description is required"), w)
  else if api_key_missing env then (respond 500 (ErrorBody "AI service not configured"), w)
  else (match upstream w with
        | Reply true _ (Some (JS.Str t)) => respond 200 (PolishedBody (JS.trim t))
        | _ => polish_failed
        end,
        logged (EvFetch (authorization env) (polish_prompt s)) w).
Proof.
  destruct (all_whitespace s) eqn:Hs.
  - unfold polish. now rewrite try_catch_bind, description_missing_str, Hs.
  - destruct (api_key_missing env) eqn:Hk.
    + unfold polish. now rewrite try_catch_bind, description_missing_str, Hs, Hk.
    + now apply polish_upstream.
Qed.

(** X15.  [POST /polish] makes at most one request to the endpoint and
    touches nothing else: the table, the bucket and the script of the
    database and storage calls are as before, and the log is unchanged or
    longer by the one request, which carries the description as given.  A
    request is made only for a description that is a string with something
    other than white space, and only when the credential is set. *)
Theorem polish_at_most_one_request (text : JS.value) (w : World) :
  table (snd (polish env text w)) = table w
  /\ bucket (snd (polish env text w)) = bucket w
  /\ script (snd (polish env text w)) = script w
  /\ (log (snd (polish env text w)) = log w
      \/ exists s, text = JS.Str s
                   /\ all_whitespace s = false
                   /\ api_key_missing env = false
                   /\ log (snd (polish env text w))
                      = log w ++ [EvFetch (authorization env) (polish_prompt s)]).
Proof.
  destruct text as [| |b|n|s|].
  1-4, 6: match goal with
          | |- context [polish env ?t ?w0] =>
              destruct (polish_not_string t w0) as [-> _]; [intros s0; discriminate|]
          end; repeat split; now left.
  rewrite polish_string.
  destruct (all_whitespace s) eqn:Hs; [repeat split; now left|].
  destruct (api_key_missing env) eqn:Hk; [repeat split; now left|].
  repeat split. right. now exists s.
Qed.

(** X16.  [POST /polish] answers 200 exactly when the description is a
    string with something other than white space, the credential is set,
    and the endpoint answers [ok] with a string as content; the body is
    then that string, trimmed.  An [ok] answer whose content is missing or
    is not a string is answered with 500 like any other failure. *)
Theorem polish_succeeds_iff (text : JS.value) (w : World) :
  (status (fst (polish env text w)) = 200 <->
   exists s code t,
     text = JS.Str s /\ all_whitespace s = false /\ api_key_missing env = false
     /\ upstream w = Reply true code (Some (JS.Str t)))
  /\ (forall s code t,
         text = JS.Str s -> all_whitespace s = false -> api_key_missing env = false ->
         upstream w = Reply true code (Some (JS.Str t)) ->
         fst (polish env text w) = respond 200 (PolishedBody (JS.trim t)))
  /\ (forall s code content,
         text = JS.Str s -> all_whitespace s = false -> api_key_missing env = false ->
         upstream w = Reply true code content ->
         (forall t, content <> Some (JS.Str t)) ->
         fst (polish env text w) = polish_failed).
Proof.
  split; [split|split].
  - intros H200. destruct text as [| |b|n|s|].
    1-4, 6: exfalso; revert H200;
      match goal with
      | |- context [polish env ?t ?w0] =>
          apply (polish_not_string t w0); intros s0; discriminate
      end.
    rewrite polish_string in H200.
    destruct (all_whitespace s) eqn:Hs; [discriminate|].
    destruct (api_key_missing env) eqn:Hk; [discriminate|].
    simpl in H200.
    destruct (upstream w) as [|[|] code [[| | | |t|]|]]; try discriminate.
    now exists s, code, t.
  - intros (s & code & t & -> & Hs & Hk & Hu).
    now rewrite polish_string, Hs, Hk, Hu.
  - intros s code t -> Hs Hk Hu. now rewrite polish_string, Hs, Hk, Hu.
  - intros s code content -> Hs Hk Hu Hc. rewrite polish_string, Hs, Hk, Hu. simpl.
    destruct code; destruct content as [[| | | |t|]|]; try reflexivity;
      now contradiction (Hc t).
Qed.

End PolishEffects.

(* ------------------------------------------------------------------ *)
(** ** The allowed origins *)

Lemma split_comma_nonempty (s : string) : split_comma s <> [].
Proof.
  induction s as [|c s IH]; simpl; [discriminate|].
  destruct (c =? ",")%char; [discriminate|].
  destruct (split_comma s); discriminate.
Qed.

(** Joining the pieces with commas gives the string back. *)
Lemma split_comma_join (s : string) : String.concat "," (split_comma s) = s.
Proof.
  induction s as [|c s IH]; [reflexivity|].
  simpl split_comma. pose proof (split_comma_nonempty s) as Hn.
  destruct (Ascii.eqb_spec c ",") as [->|Hne];
    destruct (split_comma s) as [|p ps]; try (now contradiction Hn).
  - change (String "," (String.concat "," (p :: ps)) = String "," s). now rewrite IH.
  - destruct ps as [|q ps].
    + change (String c p = String c s). change (p = s) in IH. now rewrite IH.
    + change (String c (p ++ "," ++ String.concat "," (q :: ps)) = String c s).
      change ((p ++ "," ++ String.concat "," (q :: ps))%string = s) in IH.
      now rewrite IH.
Qed.

Lemma split_comma_no_comma (s p : string) :
  In p (split_comma s) -> ~ In comma (chars p).
Proof.
  revert p. induction s as [|c s IH]; intros p; simpl.
  - intros [<- | []]. intros [].
  - destruct (Ascii.eqb_spec c ",") as [->|Hne].
    + intros [<- | Hin]; [intros [] | now apply IH].
    + pose proof (split_comma_nonempty s) as Hn.
      destruct (split_comma s) as [|q qs]; [now contradiction Hn|].
      intros [<- | Hin].
      * simpl. intros [E | Hin]; [now apply Hne|].
        apply (IH q); [now left | exact Hin].
      * apply IH. now right.
Qed.

Lemma split_comma_length (s : string) :
  List.length (split_comma s) = S (count_occ ascii_dec (chars s) comma).
Proof.
  induction s as [|c s IH]; [reflexivity|].
  simpl split_comma. unfold chars in *. cbn [list_ascii_of_string count_occ].
  destruct (Ascii.eqb_spec c ",") as [->|Hne].
  - destruct (ascii_dec "," comma) as [_|N]; [|now contradiction N].
    simpl. now rewrite IH.
  - destruct (ascii_dec c comma) as [E|_]; [now contradiction Hne|].
    pose proof (split_comma_nonempty s) as Hn.
    destruct (split_comma s) as [|q qs]; [now contradiction Hn|]. exact IH.
Qed.

Lemma trimStart_chars (s : string) (c : ascii) :
  In c (chars (JS.trimStart s)) -> In c (chars s).
Proof.
  induction s as [|d s IH]; simpl; [trivial|].
  destruct (JS.is_whitespace d); [intros H; right; now apply IH | trivial].
Qed.

Lemma trimEnd_chars (s : string) (c : ascii) :
  In c (chars (JS.trimEnd s)) -> In c (chars s).
Proof.
  induction s as [|d s IH]; simpl; [trivial|].
  destruct (JS.trimEnd s) as [|e t].
  - destruct (JS.is_whitespace d); simpl; [intros [] | intros [<- | []]; now left].
  - intros [<- | H]; [now left | right; now apply IH].
Qed.

Lemma trimEnd_cons (d : ascii) (s : string) :
  JS.trimEnd (String d s) =
  match JS.trimEnd s with
  | EmptyString => if JS.is_whitespace d then EmptyString else String d EmptyString
  | String e t => String d (String e t)
  end.
Proof. reflexivity. Qed.

Lemma trimEnd_idem (s : string) : JS.trimEnd (JS.trimEnd s) = JS.trimEnd s.
Proof.
  induction s as [|d s IH]; [reflexivity|].
  rewrite trimEnd_cons. destruct (JS.trimEnd s) as [|e t] eqn:E.
  - destruct (JS.is_whitespace d) eqn:Ed; [reflexivity|].
    rewrite trimEnd_cons. simpl JS.trimEnd. now rewrite Ed.
  - rewrite trimEnd_cons, IH. reflexivity.
Qed.

Lemma trimEnd_head (d : ascii) (s : string) :
  JS.is_whitespace d = false -> exists t, JS.trimEnd (String d s) = String d t.
Proof.
  intros Hd. simpl. destruct (JS.trimEnd s) as [|e t].
  - rewrite Hd. now exists "".
  - now exists (String e t).
Qed.

(** Trimming twice is trimming once. *)
Lemma trim_idem (s : string) : JS.trim (JS.trim s) = JS.trim s.
Proof.
  unfold JS.trim. destruct (JS.trimStart s) as [|d t] eqn:E; [reflexivity|].
  pose proof (trimStart_head s d t E) as Hd.
  destruct (trimEnd_head d t Hd) as (t' & Ht). rewrite Ht.
  assert (JS.trimStart (String d t') = String d t') as -> by (simpl; now rewrite Hd).
  rewrite <- Ht. apply trimEnd_idem.
Qed.

Lemma trimEnd_no_whitespace (s : string) :
  (forall c, In c (chars s) -> JS.is_whitespace c = false) -> JS.trimEnd s = s.
Proof.
  induction s as [|d s IH]; intros H; [reflexivity|].
  simpl. rewrite IH by (intros c Hc; apply H; now right).
  destruct s; [|reflexivity]. now rewrite (H d (or_introl eq_refl)).
Qed.

Lemma trim_no_whitespace (s : string) :
  (forall c, In c (chars s) -> JS.is_whitespace c = false) -> JS.trim s = s.
Proof.
  intros H. unfold JS.trim.
  assert (JS.trimStart s = s) as ->.
  { destruct s as [|d s]; [reflexivity|]. simpl. now rewrite (H d (or_introl eq_refl)). }
  now apply trimEnd_no_whitespace.
Qed.

Lemma split_comma_chars (s p : string) (c : ascii) :
  In p (split_comma s) -> In c (chars p) -> In c (chars s).
Proof.
  revert p. induction s as [|d s IH]; intros p; simpl.
  - intros [<- | []]. trivial.
  - destruct (d =? ",")%char.
    + intros [<- | Hin]; [intros [] | intros Hc; right; now apply (IH p)].
    + pose proof (split_comma_nonempty s) as Hn.
      destruct (split_comma s) as [|q qs]; [now contradiction Hn|].
      intros [<- | Hin].
      * simpl. intros [E | Hc]; [now left | right; apply (IH q); [now left | exact Hc]].
      * intros Hc. right. apply (IH p); [now right | exact Hc].
Qed.

(** X17.  The origins handed to [cors].  With [FRONTEND_URL] unset or
    empty every origin is allowed.  Otherwise the list has one entry per
    comma-separated piece (one more than there are commas); each entry is
    trimmed, so trimming it again changes nothing, and contains no comma;
    and when the variable contains no white space the entries joined by
    commas are the variable itself. *)
Theorem allowedOrigins_spec (urls : string) :
  urls <> "" ->
  allowedOrigins None = AnyOrigin
  /\ allowedOrigins (Some "") = AnyOrigin
  /\ exists origins,
       allowedOrigins (Some urls) = OriginList origins
       /\ List.length origins = S (count_occ ascii_dec (chars urls) comma)
       /\ (forall o, In o origins -> JS.trim o = o /\ ~ In comma (chars o))
       /\ ((forall c, In c (chars urls) -> JS.is_whitespace c = false) ->
           String.concat "," origins = urls).
Proof.
  intros Hne. split; [reflexivity|]. split; [reflexivity|].
  exists (map JS.trim (split_comma urls)). split.
  - unfold allowedOrigins. simpl. destruct urls; [now contradiction Hne | reflexivity].
  - split; [now rewrite length_map, split_comma_length|]. split.
    + intros o Ho. apply in_map_iff in Ho as (p & <- & Hp). split; [apply trim_idem|].
      intros Hc. apply (split_comma_no_comma urls p Hp).
      unfold JS.trim in Hc. now apply trimStart_chars, trimEnd_chars.
    + intros Hws. rewrite <- (split_comma_join urls) at 2. f_equal.
      rewrite <- (map_id (split_comma urls)) at 2. apply map_ext_in.
      intros p Hp. apply trim_no_whitespace.
      intros c Hc. apply Hws. now apply (split_comma_chars urls p).
Qed.

Lemma allowedOrigins_spec_witness :
  "https://a.example, https://b.example" <> ""
  /\ allowedOrigins (Some "https://a.example, https://b.example")
     = OriginList ["https://a.example"; "https://b.example"]
  /\ exists origins,
       allowedOrigins (Some "https://a.example,https://b.example") = OriginList origins
       /\ List.length origins = 2%nat.
Proof.
  split; [discriminate|]. split; [reflexivity|].
  destruct (allowedOrigins_spec "https://a.example,https://b.example" ltac:(discriminate))
    as (_ & _ & origins & Ho & Hl & _).
  exists origins. split; [exact Ho | exact Hl].
Defined.

(* ------------------------------------------------------------------ *)
(** ** [urlToStoragePath] cuts and never adds *)

(** X18.  What [urlToStoragePath] returns is always an end piece of its
    argument, so it is never longer than the argument; it is the whole
    argument exactly when the marker is absent. *)
Theorem urlToStoragePath_is_suffix (url : string) :
  (exists pre, url = (pre ++ urlToStoragePath url)%string)
  /\ (String.length (urlToStoragePath url) <= String.length url)%nat
  /\ (urlToStoragePath url = url <-> JS.includes url marker = false).
Proof.
  destruct (JS.includes url marker) eqn:E.
  - destruct (urlToStoragePath_present url E) as (pre & suf & Hu & _ & Hr).
    assert (url = ((pre ++ marker) ++ urlToStoragePath url)%string) as Hs
        by (rewrite Hr, append_assoc; exact Hu).
    split; [now exists (pre ++ marker)%string|]. split.
    + rewrite Hs at 2. rewrite length_append. lia.
    + split; [|discriminate]. intros Heq. exfalso.
      assert (String.length url
              = (String.length (pre ++ marker) + String.length url)%nat) as Hl
          by (rewrite Hs at 1; rewrite length_append, Heq; reflexivity).
      rewrite length_append in Hl. simpl in Hl. lia.
  - rewrite (urlToStoragePath_absent url E).
    split; [now exists ""|]. split; [lia | now split].
Qed.

(* ------------------------------------------------------------------ *)
(** ** More scenarios and compositions *)

Lemma uploadImage_returns_stored_object_witness :
  JS.includes (SUPABASE_URL env0) marker_stem = false
  /\ fst (uploadImage env0 (png "coverImage") world0) = Ok (url_of "2000-x1y2z3a.png")
  /\ urlToStoragePath (url_of "2000-x1y2z3a.png") = "2000-x1y2z3a.png"
  /\ bucket (snd (uploadImage env0 (png "coverImage") world0))
     = bucket world0 ++ [urlToStoragePath (url_of "2000-x1y2z3a.png")].
Proof.
  split; [reflexivity|]. split; [reflexivity|].
  destruct (uploadImage_returns_stored_object env0 (png "coverImage") world0
              (snd (uploadImage env0 (png "coverImage") world0))
              (url_of "2000-x1y2z3a.png") eq_refl eq_refl) as (H1 & _ & H3 & _).
  split; [exact H1 | exact H3].
Defined.

(** X20.  Deleting the same card twice: once [DELETE /cards/:id] has
    answered 200, a second call with the same id finds no row, so with the
    database answering normally it answers 500 with
    [{error: "Failed to delete card"}], removes nothing, and leaves the
    table as the first call left it. *)
Theorem delete_one_twice (id : string) (w : World) :
  status (fst (delete_one id w)) = 200 ->
  outcome_at (snd (delete_one id w)) 0 = Normal ->
  fst (delete_one id (snd (delete_one id w))) = delete_failed
  /\ table (snd (delete_one id (snd (delete_one id w)))) = table (snd (delete_one id w))
  /\ bucket (snd (delete_one id (snd (delete_one id w)))) = bucket (snd (delete_one id w))
  /\ remove_calls (log (snd (delete_one id (snd (delete_one id w)))))
     = remove_calls (log (snd (delete_one id w))).
Proof.
  intros H200 H0.
  destruct (delete_one_rows_cases id w) as (_ & Hok & _).
  destruct (Hok H200) as (_ & _ & Hnone).
  set (w1 := snd (delete_one id w)) in *. clearbody w1.
  rewrite (delete_one_absent id w1 H0).
  - split; [reflexivity|]. split; [reflexivity|]. split; [reflexivity|].
    world_fields. rewrite remove_calls_app. simpl. now rewrite app_nil_r.
  - apply filter_none. intros c Hc. apply String.eqb_neq. now apply Hnone.
Qed.

Lemma delete_one_twice_witness :
  status (fst (delete_one "8" world0)) = 200
  /\ outcome_at (snd (delete_one "8" world0)) 0 = Normal
  /\ fst (delete_one "8" (snd (delete_one "8" world0))) = delete_failed
  /\ table (snd (delete_one "8" (snd (delete_one "8" world0)))) = [card_plain; card_old].
Proof.
  split; [reflexivity|]. split; [reflexivity|].
  destruct (delete_one_twice "8" world0 eq_refl eq_refl) as (H1 & H2 & _).
  split; [exact H1|]. rewrite H2. reflexivity.
Defined.

Lemma remove_images_clock (paths : list string) (w : World) :
  now (snd (remove_images paths w)) = now w
  /\ exists k, script (snd (remove_images paths w)) = skipn k (script w).
Proof.
  destruct paths as [|p ps]; [split; [reflexivity | now exists 0%nat]|].
  rewrite remove_images_cons.
  destruct (hd Normal (script w)); (split; [reflexivity|]); exists 1%nat;
    world_fields; apply skipn_tl.
Qed.

Lemma delete_row_clock (id : string) (w : World) :
  now (snd (delete_row id w)) = now w
  /\ exists k, script (snd (delete_row id w)) = skipn k (script w).
Proof.
  rewrite delete_row_run.
  destruct (hd Normal (script w)); (split; [reflexivity|]); exists 1%nat;
    world_fields; apply skipn_tl.
Qed.

Lemma cleanup_loop_clock (cards : list Card.t) :
  forall (n : nat) (w : World),
    now (snd (cleanup_loop cards n w)) = now w
    /\ exists k, script (snd (cleanup_loop cards n w)) = skipn k (script w).
Proof.
  induction cards as [|card cards IH]; intros n w.
  - split; [reflexivity | now exists 0%nat].
  - cbn [cleanup_loop]. rewrite bind_run.
    destruct (remove_images_clock (imagesToDelete_expired card) w) as (Hn1 & k1 & Hs1).
    destruct (remove_images (imagesToDelete_expired card) w) as [[u|e] w1];
      simpl in Hn1, Hs1; [|split; [exact Hn1 | now exists k1]].
    rewrite bind_run.
    destruct (delete_row_clock (Card.id card) w1) as (Hn2 & k2 & Hs2).
    destruct (delete_row (Card.id card) w1) as [[r|e] w2]; simpl in Hn2, Hs2.
    + destruct (IH (S n) w2) as (Hn3 & k3 & Hs3).
      split; [now rewrite Hn3, Hn2, Hn1|].
      exists (k1 + (k2 + k3))%nat. rewrite Hs3, Hs2, Hs1, !skipn_skipn'. f_equal.
    + cbn [snd]. split; [now rewrite Hn2, Hn1|].
      exists (k1 + k2)%nat. now rewrite Hs2, Hs1, skipn_skipn'.
Qed.

(** X19.  Running the cleanup twice: when every call succeeds, the first
    run leaves no expired row behind, so a second run at the same clock
    finds nothing, answers 200 with [deleted] 0, and makes no call beyond
    its fetch. *)
Theorem cleanup_expired_twice (w : World) :
  forallb is_normal (script w) = true ->
  expired_rows (snd (cleanup_expired w)) = []
  /\ fst (cleanup_expired (snd (cleanup_expired w))) = respond 200 (DeletedBody 0)
  /\ log (snd (cleanup_expired (snd (cleanup_expired w))))
     = log (snd (cleanup_expired w)) ++ [EvSelectExpired (now w)]
  /\ table (snd (cleanup_expired (snd (cleanup_expired w))))
     = table (snd (cleanup_expired w)).
Proof.
  intros Hall.
  assert (outcome_at w 0 = Normal) as H0
      by (rewrite <- outcome_at_0; now apply all_normal_hd).
  pose proof (forallb_tl _ _ Hall) as Htl.
  destruct (cleanup_expired_counts w H0 (is_normal_no_throw _ Htl))
    as (w1 & Hrun & Heq & _).
  rewrite Heq. cbn [snd].
  pose proof (cleanup_loop_all_normal (expired_rows w) 0
                (popped (logged (EvSelectExpired (now w)) w)) Htl) as Ht.
  destruct (cleanup_loop_clock (expired_rows w) 0
              (popped (logged (EvSelectExpired (now w)) w))) as (Hn & k & Hs).
  unfold expired_rows in Ht, Hn, Hs. rewrite Hrun in Ht, Hn, Hs.
  cbn [fst snd popped logged table now script] in Ht, Hn, Hs.
  assert (expired_rows w1 = []) as Hnone.
  { unfold expired_rows. apply filter_none. intros c Hc.
    destruct (Card.expires_at c <? now w1) eqn:E; [|reflexivity]. exfalso.
    rewrite Ht in Hc. apply delete_rows_In in Hc as [Hc Hfor].
    rewrite forallb_forall in Hfor.
    assert (In c (filter (fun c0 => Card.expires_at c0 <? now w) (table w))) as Hin
        by (apply filter_In; split; [exact Hc | now rewrite <- Hn]).
    specialize (Hfor c Hin). unfold has_id in Hfor.
    rewrite String.eqb_refl in Hfor. discriminate. }
  split; [exact Hnone|].
  assert (forallb is_normal (script w1) = true) as Hall1
      by (rewrite Hs; now apply forallb_skipn).
  assert (outcome_at w1 0 = Normal) as H01
      by (rewrite <- outcome_at_0; now apply all_normal_hd).
  rewrite (cleanup_expired_run w1 H01), try_catch_bind.
  fold (expired_rows w1). rewrite Hnone. simpl. rewrite Hn. repeat split.
Qed.

Lemma cleanup_expired_twice_witness :
  forallb is_normal (script world0) = true
  /\ fst (cleanup_expired world0) = respond 200 (DeletedBody 2)
  /\ fst (cleanup_expired (snd (cleanup_expired world0))) = respond 200 (DeletedBody 0)
  /\ table (snd (cleanup_expired (snd (cleanup_expired world0)))) = [card_plain].
Proof.
  split; [reflexivity|]. split; [reflexivity|].
  destruct (cleanup_expired_twice world0 eq_refl) as (_ & H1 & _ & H2).
  split; [exact H1|]. rewrite H2. reflexivity.
Defined.

Lemma upload_calls_app (l l' : list Event) :
  upload_calls (l ++ l') = upload_calls l ++ upload_calls l'.
Proof.
  induction l as [|e l IH]; [reflexivity|].
  destruct e; simpl; rewrite ?IH; reflexivity.
Qed.

(** What the handler finds in [req.files] once the middleware has let a
    request through: its files are the image parts of the request. *)
Lemma submitted_files_parts (body : CardForm) (incoming : list File)
  (files : list (string * list File)) :
  multer upload_fields [] incoming = inr files ->
  submitted_files {| req_body := body; req_files := Some files |}
  = image_parts incoming.
Proof.
  intros Em.
  destruct (multer_sound incoming upload_fields [] files Em) as (_ & Hcount & Hcoll).
  unfold submitted_files, image_parts, cover_file, product_files. cbn [req_files].
  pose proof (Hcoll "coverImage") as Hc. pose proof (Hcount "coverImage") as Hn.
  pose proof (Hcoll "productImages") as Hp.
  unfold collected in Hc, Hp. cbn [lookup app] in Hc, Hp.
  change (allowance upload_fields "coverImage") with 1%nat in Hn.
  f_equal.
  - rewrite <- Hc in Hn |- *.
    destruct (lookup "coverImage" files) as [[|f [|g l]]|]; try reflexivity.
    simpl in Hn. lia.
  - rewrite <- Hp. now destruct (lookup "productImages" files).
Qed.

Section Route.

Variable env : Env.

(** X21.  The route [POST /cards], from the parts of the request to the
    uploads.  A request that is not multipart uploads nothing, and a
    request that the upload middleware refuses leaves the world as it
    was.  When the middleware lets a multipart request through, the files
    the handler works on are exactly the files of the request, those sent
    as [coverImage] first and then those sent as [productImages] in their
    order of arrival; there are at most eleven of them, and each passed
    [fileFilter] and is at most 10 MiB long.  The uploads of the request
    are made for the first of these files, in that order, one upload per
    file with the content type of the file, and the route makes no other
    upload. *)
Theorem post_cards_uploads_bounded (raw : RawCardsRequest) (w : World) :
  (parts raw = None ->
   upload_calls (log (snd (post_cards env raw w))) = upload_calls (log w))
  /\ (forall incoming e,
         parts raw = Some incoming ->
         multer upload_fields [] incoming = inl e ->
         snd (post_cards env raw w) = w)
  /\ (forall incoming files,
         parts raw = Some incoming ->
         multer upload_fields [] incoming = inr files ->
         post_cards env raw w
         = submit env {| req_body := raw_body raw; req_files := Some files |} w
         /\ submitted_files {| req_body := raw_body raw; req_files := Some files |}
            = image_parts incoming
         /\ (forall f, In f incoming <-> In f (image_parts incoming))
         /\ (List.length (image_parts incoming) <= 11)%nat
         /\ Forall file_ok (image_parts incoming)
         /\ exists names rest,
              (List.length names <= List.length (image_parts incoming))%nat
              /\ log (snd (post_cards env raw w))
                 = log w ++ upload_events names (image_parts incoming) ++ rest
              /\ upload_calls rest = []).
Proof.
  unfold post_cards. split; [|split].
  - intros ->.
    set (req := {| req_body := raw_body raw; req_files := None |}).
    destruct (submit_trace env req w)
      as [(_ & ->) | (_ & names & _ & _ & [(Hlen & (d & -> & _) & _)
                                          | (name & Hlen & _)])];
      [reflexivity | | simpl in Hlen; lia].
    destruct names; [|discriminate Hlen].
    rewrite !upload_calls_app. simpl. now rewrite app_nil_r.
  - intros incoming e -> ->. reflexivity.
  - intros incoming files -> Em. rewrite Em.
    split; [reflexivity|].
    pose proof (submitted_files_parts (raw_body raw) incoming files Em) as Hsub.
    split; [exact Hsub|].
    destruct (multer_sound incoming upload_fields [] files Em) as (Hall & Hcount & _).
    split; [|split; [|split]].
    + intros f. unfold image_parts, of_field. rewrite in_app_iff, !filter_In. split.
      * intros Hf.
        destruct (String.eqb_spec (fieldname f) "coverImage") as [E|Hn1]; [now left|].
        destruct (String.eqb_spec (fieldname f) "productImages") as [E|Hn2];
          [now right|].
        exfalso. specialize (Hcount (fieldname f)).
        assert (allowance upload_fields (fieldname f) = 0%nat) as Hz.
        { unfold allowance, upload_fields. cbn [lookup].
          destruct (String.eqb_spec "coverImage" (fieldname f)) as [E|_];
            [now contradiction Hn1|].
          destruct (String.eqb_spec "productImages" (fieldname f)) as [E|_];
            [now contradiction Hn2 | reflexivity]. }
        assert (In f (of_field (fieldname f) incoming)) as Hin
            by (apply filter_In; split; [exact Hf | apply String.eqb_refl]).
        destruct (of_field (fieldname f) incoming); [destruct Hin|].
        simpl in Hcount. lia.
      * intros [[Hf _] | [Hf _]]; exact Hf.
    + unfold image_parts. rewrite length_app.
      pose proof (Hcount "coverImage") as H1. pose proof (Hcount "productImages") as H2.
      change (allowance upload_fields "coverImage") with 1%nat in H1.
      change (allowance upload_fields "productImages") with 10%nat in H2. lia.
    + apply Forall_forall. intros f Hf. rewrite Forall_forall in Hall. apply Hall.
      unfold image_parts, of_field in Hf. rewrite in_app_iff, !filter_In in Hf.
      destruct Hf as [[Hf _] | [Hf _]]; exact Hf.
    + set (req := {| req_body := raw_body raw; req_files := Some files |}) in *.
      destruct (submit_trace env req w)
        as [(_ & ->) | (_ & names & _ & _ & [(Hlen & (d & -> & _) & _)
                                            | (name & Hlen & -> & _)])];
        rewrite ?Hsub in *.
      * exists [], []. simpl. rewrite app_nil_r. repeat split. lia.
      * exists names, [EvInsert d]. repeat split. lia.
      * exists (names ++ [name]), []. rewrite length_app, app_nil_r. simpl.
        repeat split. lia.
Qed.

End Route.
